(** * next2tanstack: transform orchestration and route relocation

    A shallow embedding of the codemod driver (scripts/codemod.ts), of the
    route-path helpers of the file-structure and API-route transforms, and
    of the small part of the runtime they rely on (process arguments,
    environment, an in-memory filesystem).

    JavaScript strings are modelled as [string] (sequences of 8-bit
    characters); a regular expression of the source is modelled by a
    matcher written for it, named after what it recognises, with the
    expression quoted in prose above it. *)

From Stdlib Require Import Ascii String List Bool Arith Lia.
From stdpp Require Import base option list gmap sets strings.

Local Open Scope stdpp_scope.
Local Open Scope list_scope.
Local Set Warnings "-register-all,-clear-no-such-hyp".

(** ** JavaScript string primitives *)

Module Js.

Definition quote2 : ascii := "034"%char.
Definition quote1 : ascii := "'"%char.
Definition backtick : ascii := "`"%char.
Definition slash : ascii := "/"%char.
Definition backslash : ascii := "\"%char.

(** [s.length === 0] *)
Definition isEmpty (s : string) : bool :=
  match s with EmptyString => true | String _ _ => false end.

(** Truthiness of a string: only the empty string is falsy. *)
Definition truthy (s : string) : bool := negb (isEmpty s).

Definition eqs (a b : string) : bool := String.eqb a b.

(** The no-break space, code unit 160. *)
Definition nbsp : ascii := ascii_of_nat 160.

(** White space of [String.prototype.trim] and of the class \s.  A
    character stands for the code unit of its number; among the code
    units below 256 the white space and the line terminators of the
    language are tab, line feed, vertical tab, form feed, carriage
    return, space and the no-break space. *)
Definition isSpace (c : ascii) : bool :=
  let n := nat_of_ascii c in
  ((9 <=? n) && (n <=? 13)) || (n =? 32) || (n =? 160).

(** Line terminators, which the regular-expression dot does not match. *)
Definition isLineTerminator (c : ascii) : bool :=
  let n := nat_of_ascii c in (n =? 10) || (n =? 13).

Definition isQuote (c : ascii) : bool :=
  Ascii.eqb c quote1 || Ascii.eqb c quote2 || Ascii.eqb c backtick.

Definition isSep (c : ascii) : bool :=
  Ascii.eqb c slash || Ascii.eqb c backslash.

Definition isLetter (c : ascii) : bool :=
  let n := nat_of_ascii c in
  ((65 <=? n) && (n <=? 90)) || ((97 <=? n) && (n <=? 122)).

Definition notChar (x : ascii) (c : ascii) : bool := negb (Ascii.eqb c x).

(** [s.startsWith(p)], returning the remainder on success. *)
Fixpoint stripPrefix (p s : string) : option string :=
  match p with
  | EmptyString => Some s
  | String a p' =>
      match s with
      | EmptyString => None
      | String b s' => if Ascii.eqb a b then stripPrefix p' s' else None
      end
  end.

Definition startsWith (p s : string) : bool :=
  match stripPrefix p s with Some _ => true | None => false end.

(** The longest prefix of [s] whose characters satisfy [f], and the rest. *)
Fixpoint span (f : ascii -> bool) (s : string) : string * string :=
  match s with
  | EmptyString => (EmptyString, EmptyString)
  | String c s' =>
      if f c then let '(a, b) := span f s' in (String c a, b)
      else (EmptyString, s)
  end.

Fixpoint dropWhile (f : ascii -> bool) (s : string) : string :=
  match s with
  | EmptyString => EmptyString
  | String c s' => if f c then dropWhile f s' else s
  end.

(** Removes the longest suffix whose characters satisfy [f]. *)
Fixpoint dropWhileEnd (f : ascii -> bool) (s : string) : string :=
  match s with
  | EmptyString => EmptyString
  | String c s' =>
      let r := dropWhileEnd f s' in
      if isEmpty r && f c then EmptyString else String c r
  end.

Fixpoint lastChar (s : string) : option ascii :=
  match s with
  | EmptyString => None
  | String c EmptyString => Some c
  | String _ s' => lastChar s'
  end.

Fixpoint endsWith (p s : string) : bool :=
  eqs p s ||
  match s with
  | EmptyString => false
  | String _ s' => endsWith p s'
  end.

(** [s] without the suffix [p], when [s] ends with [p]. *)
Fixpoint stripSuffix (p s : string) : option string :=
  if eqs p s then Some EmptyString
  else match s with
       | EmptyString => None
       | String c s' =>
           match stripSuffix p s' with
           | Some r => Some (String c r)
           | None => None
           end
       end.

(** [s.includes(p)] *)
Fixpoint includes (p s : string) : bool :=
  startsWith p s ||
  match s with
  | EmptyString => false
  | String _ s' => includes p s'
  end.

(** [s.indexOf(p)], with [None] for -1. *)
Fixpoint indexOfFrom (p s : string) (i : nat) : option nat :=
  if startsWith p s then Some i
  else match s with
       | EmptyString => None
       | String _ s' => indexOfFrom p s' (S i)
       end.
Definition indexOf (p s : string) : option nat := indexOfFrom p s 0.

(** [s.lastIndexOf(p)], with [None] for -1. *)
Fixpoint lastIndexOfFrom (p s : string) (i : nat) : option nat :=
  match s with
  | EmptyString => if isEmpty p then Some i else None
  | String _ s' =>
      match lastIndexOfFrom p s' (S i) with
      | Some j => Some j
      | None => if startsWith p s then Some i else None
      end
  end.
Definition lastIndexOf (p s : string) : option nat := lastIndexOfFrom p s 0.

(** [s.slice(0, n)] and [s.slice(n)] for [0 <= n]. *)
Fixpoint sliceTo (n : nat) (s : string) : string :=
  match n, s with
  | S n', String c s' => String c (sliceTo n' s')
  | _, _ => EmptyString
  end.
Fixpoint sliceFrom (n : nat) (s : string) : string :=
  match n, s with
  | S n', String _ s' => sliceFrom n' s'
  | _, _ => s
  end.

(** [s.trim()] *)
Definition trim (s : string) : string :=
  dropWhileEnd isSpace (dropWhile isSpace s).

(** [s.split(sep)] for a separator that is one character of a class: the
    result is never empty, and the empty string splits into one empty
    piece. *)
Fixpoint splitOn (f : ascii -> bool) (s : string) : list string :=
  match s with
  | EmptyString => [EmptyString]
  | String c s' =>
      if f c then EmptyString :: splitOn f s'
      else match splitOn f s' with
           | h :: t => String c h :: t
           | [] => [String c EmptyString]
           end
  end.

(** [xs.join(sep)] *)
Fixpoint join (sep : string) (xs : list string) : string :=
  match xs with
  | [] => EmptyString
  | [x] => x
  | x :: rest => x +:+ sep +:+ join sep rest
  end.

(** [xs.filter(Boolean)] on an array of strings. *)
Definition filterBoolean (xs : list string) : list string :=
  List.filter truthy xs.

(** [s.replace(re, ...)] with the global flag, for an expression that never
    matches the empty string: [m s] is the match of the expression at the
    start of [s], as the replacement text and what follows the match.  The
    scan resumes after a match and moves one character on where there is
    none.  The fuel bounds the number of steps; the length of the input is
    enough (lemma [gsubFuel_enough]). *)
Fixpoint gsubFuel (m : string -> option (string * string))
         (fuel : nat) (s : string) : string :=
  match fuel with
  | O => s
  | S fuel' =>
      match s with
      | EmptyString => EmptyString
      | String c s' =>
          match m s with
          | Some (out, rest) => out +:+ gsubFuel m fuel' rest
          | None => String c (gsubFuel m fuel' s')
          end
      end
  end.
Definition gsub (m : string -> option (string * string)) (s : string) : string :=
  gsubFuel m (String.length s) s.

(** The match at the start of [s] of: the literal [pre], one or more
    characters of the class [cls], the literal [post].  [post] is empty or
    starts with a character outside [cls], so the run of [cls] is the
    longest one.  Returns the run and what follows [post]. *)
Definition matchRun (pre : string) (cls : ascii -> bool) (post : string)
           (s : string) : option (string * string) :=
  match stripPrefix pre s with
  | None => None
  | Some r =>
      let '(run, r') := span cls r in
      if isEmpty run then None
      else match stripPrefix post r' with
           | Some rest => Some (run, rest)
           | None => None
           end
  end.

(** The same expression anchored at both ends. *)
Definition matchWhole (pre : string) (cls : ascii -> bool) (post : string)
           (s : string) : option string :=
  match matchRun pre cls post s with
  | Some (run, EmptyString) => Some run
  | _ => None
  end.

(** [s.replace(/\\/g, "/")] *)
Fixpoint normalizePath (value : string) : string :=
  match value with
  | EmptyString => EmptyString
  | String c s' =>
      String (if Ascii.eqb c backslash then slash else c) (normalizePath s')
  end.

(** [value.replace(/\/+$/, "")] *)
Definition trimTrailingSlash (value : string) : string :=
  dropWhileEnd (Ascii.eqb slash) value.

(** [value.replace(/\/$/, "")]: at most one trailing slash goes. *)
Definition stripOneTrailingSlash (value : string) : string :=
  match stripSuffix "/" value with
  | Some r => r
  | None => value
  end.

Definition dirname (value : string) : string :=
  let normalized := normalizePath value in
  match lastIndexOf "/" normalized with
  | None => "."
  | Some idx => sliceTo idx normalized
  end.

End Js.
Import Js.

(** ** Route-path derivation of the driver *)

Definition extensions : list string := ["tsx"; "jsx"; "ts"; "js"].

Definition isExt (e : string) : bool := existsb (eqs e) extensions.

(** [/^name\.(tsx|jsx|ts|js)$/] on [base]: the extension when it matches. *)
Definition specialFile (name base : string) : option string :=
  match stripPrefix (name +:+ ".") base with
  | Some e => if isExt e then Some e else None
  | None => None
  end.

(** [/\.(tsx|jsx|ts|js)$/.test(filename)] *)
Definition hasSourceExtension (filename : string) : bool :=
  existsb (fun e => endsWith ("." +:+ e) filename) extensions.

Definition normalizeDirSegments (value : string) : list string :=
  filterBoolean (splitOn (Ascii.eqb slash) (normalizePath value)).

Fixpoint isPrefixOf (needle haystack : list string) : bool :=
  match needle, haystack with
  | [], _ => true
  | _ :: _, [] => false
  | a :: n', b :: h' => eqs b a && isPrefixOf n' h'
  end.

Fixpoint findSubPathFrom (needle haystack : list string) (i : nat) : option nat :=
  if isPrefixOf needle haystack then Some i
  else match haystack with
       | [] => None
       | _ :: h' => findSubPathFrom needle h' (S i)
       end.

(** [None] stands for the -1 of the source. *)
Definition findSubPathIndex (haystack needle : list string) : option nat :=
  if (length needle =? 0) || (length haystack <? length needle) then None
  else findSubPathFrom needle haystack 0.

(** The tests of the source on one path segment:
    a private folder is an underscore and at least one more character,
    a parallel route an at-sign and at least one more character, a route
    group a parenthesised run of one or more characters other than the
    closing parenthesis. *)
Definition isPrivateSegment (segment : string) : bool :=
  match matchWhole "_" (fun c => negb (isSep c)) EmptyString segment with
  | Some _ => true | None => false end.
Definition isParallelSegment (segment : string) : bool :=
  match matchWhole "@" (fun c => negb (isSep c)) EmptyString segment with
  | Some _ => true | None => false end.
Definition isRouteGroupSegment (segment : string) : bool :=
  match matchWhole "(" (notChar ")"%char) ")" segment with
  | Some _ => true | None => false end.

Definition isLayoutFile (base : string) : bool :=
  match specialFile "layout" base with Some _ => true | None => false end.
Definition isLayoutLikeFile (base : string) : bool :=
  isLayoutFile base ||
  match specialFile "template" base with Some _ => true | None => false end.

Definition mapRouteSegment (segment : string) : string :=
  match matchWhole "(" (notChar ")"%char) ")" segment with
  | Some g => "_" +:+ g
  | None =>
      match matchWhole "[[..." (notChar "]"%char) "]]" segment with
      | Some _ => "$"
      | None =>
          match matchWhole "[..." (notChar "]"%char) "]" segment with
          | Some _ => "$"
          | None =>
              match matchWhole "[" (notChar "]"%char) "]" segment with
              | Some d => "$" +:+ d
              | None => segment
              end
          end
      end
  end.

Definition mapRouteFilename (base : string) (isRootLayout : bool) : option string :=
  match specialFile "page" base with
  | Some e => Some ("index." +:+ e)
  | None =>
  match specialFile "layout" base with
  | Some e => Some ((if isRootLayout then "__root." else "_layout.") +:+ e)
  | None =>
  match specialFile "loading" base with
  | Some e => Some ("-pending." +:+ e)
  | None =>
  match specialFile "error" base with
  | Some e => Some ("-error." +:+ e)
  | None =>
  match specialFile "not-found" base with
  | Some e => Some ("-not-found." +:+ e)
  | None =>
  match specialFile "template" base with
  | Some e => Some ("-template." +:+ e)
  | None =>
  match specialFile "default" base with
  | Some e => Some ("-default." +:+ e)
  | None =>
  match specialFile "route" base with
  | Some _ => Some base
  | None => None
  end end end end end end end end.

Record ResolvedRuntimeConfig := {
  routesDirectory : string;
  appDirectory : string;
  enabledMigrations : gset string;
}.

Definition computeTanstackTargetPath (filename : string)
           (runtimeConfig : ResolvedRuntimeConfig) : option string :=
  if negb (hasSourceExtension filename) then None
  else if includes "node_modules" filename then None
  else
    let sep := if includes "\" filename then "\" else "/" in
    let segments := splitOn isSep filename in
    if length segments <? 2 then None
    else
      let appDirSegments := normalizeDirSegments (appDirectory runtimeConfig) in
      match findSubPathIndex segments appDirSegments with
      | None => None
      | Some appIndex =>
          let appEndIndex := appIndex + length appDirSegments in
          if length segments <=? appEndIndex then None
          else
            let fileBase := List.last segments EmptyString in
            if isEmpty fileBase then None
            else
              let relativeRouteSegments :=
                firstn (length segments - 1 - appEndIndex)
                       (skipn appEndIndex segments) in
              let hasPrivateSegment := existsb isPrivateSegment relativeRouteSegments in
              let hasParallelSegment := existsb isParallelSegment relativeRouteSegments in
              let hasRouteGroupSegment := existsb isRouteGroupSegment relativeRouteSegments in
              let isGroupOnlyBranch :=
                (0 <? length relativeRouteSegments) &&
                forallb isRouteGroupSegment relativeRouteSegments in
              if hasPrivateSegment || hasParallelSegment then None
              else if hasRouteGroupSegment && isLayoutLikeFile fileBase
                      && negb isGroupOnlyBranch then None
              else
                let isRootLayout :=
                  (length relativeRouteSegments =? 0) && isLayoutFile fileBase in
                match mapRouteFilename fileBase isRootLayout with
                | None => None
                | Some mappedBase =>
                    let routesDirSegments :=
                      filterBoolean (splitOn isSep (routesDirectory runtimeConfig)) in
                    if length routesDirSegments =? 0 then None
                    else
                      let mappedDirs := List.map mapRouteSegment relativeRouteSegments in
                      let targetSegments :=
                        firstn appIndex segments ++ routesDirSegments
                          ++ mappedDirs ++ [mappedBase] in
                      let targetPath := join sep targetSegments in
                      if eqs (normalizePath targetPath) (normalizePath filename)
                      then None
                      else Some targetPath
                end
      end.

(** ** JavaScript values, as far as the configuration code inspects them

    An object is the list of its bindings; the keys of a JavaScript object
    are distinct, and on a list that repeats a key [prop] reads the last
    binding (as [JSON.parse] keeps it) and a loop over the entries applies
    them in order. *)

Inductive jsval : Type :=
| JUndefined
| JNull
| JBool (b : bool)
| JNum (n : Z)
| JStr (s : string)
| JArr (xs : list jsval)
| JObj (fields : list (string * jsval)).

(** [v[name]] for a name that is no array index. *)
Definition prop (name : string) (v : jsval) : jsval :=
  match v with
  | JObj fields =>
      match List.find (fun kv => eqs (fst kv) name) (rev fields) with
      | Some kv => snd kv
      | None => JUndefined
      end
  | _ => JUndefined
  end.

Definition jsTruthy (v : jsval) : bool :=
  match v with
  | JUndefined | JNull => false
  | JBool b => b
  | JNum n => negb (n =? 0)%Z
  | JStr s => truthy s
  | JArr _ | JObj _ => true
  end.

(** ** Pass enablement *)

Definition MIGRATION_IDS : list string :=
  [ "next-image"; "next-link"; "next-server-functions";
    "manual-migration-todos"; "next-use-client"; "route-file-structure";
    "route-groups"; "api-routes" ].

Definition normalizeMigrationId (value : string) : option string :=
  if existsb (eqs value) MIGRATION_IDS then Some value else None.

(** One step of each of the three loops of [resolveEnabledMigrations]. *)
Definition addRaw (enabled : gset string) (raw : jsval) : gset string :=
  match raw with
  | JStr s =>
      match normalizeMigrationId s with
      | Some id => enabled ∪ {[ id ]}
      | None => enabled
      end
  | _ => enabled
  end.

Definition deleteRaw (enabled : gset string) (raw : jsval) : gset string :=
  match raw with
  | JStr s =>
      match normalizeMigrationId s with
      | Some id => enabled ∖ {[ id ]}
      | None => enabled
      end
  | _ => enabled
  end.

Definition applyToggle (enabled : gset string) (entry : string * jsval) : gset string :=
  match normalizeMigrationId (fst entry), snd entry with
  | Some id, JBool true => enabled ∪ {[ id ]}
  | Some id, JBool false => enabled ∖ {[ id ]}
  | _, _ => enabled
  end.

(** The project configuration is the parsed JSON value itself.  The keys of
    [Object.entries] of an array are its indices, none of which is a
    migration id, so an array in [migrations] changes nothing. *)
Definition resolveEnabledMigrations (config : jsval) : gset string :=
  let enabled0 : gset string := list_to_set MIGRATION_IDS in
  let enabled1 :=
    match prop "enabledMigrations" config with
    | JArr (x :: xs) => foldl addRaw ∅ (x :: xs)
    | _ => enabled0
    end in
  let enabled2 :=
    match prop "disabledMigrations" config with
    | JArr xs => foldl deleteRaw enabled1 xs
    | _ => enabled1
    end in
  match prop "migrations" config with
  | JObj fields => foldl applyToggle enabled2 fields
  | _ => enabled2
  end.

(** ** The runtime: process, capabilities, filesystem, caches *)

(** The functions of [fs/promises] whose presence the driver tests before
    it calls them. *)
Record Caps := {
  cap_readFile : bool;
  cap_unlink : bool;
  cap_rm : bool;
}.

(** A POSIX-like filesystem in memory.  A path resolves to the list of its
    segments from the root; files carry their text, directories are a set,
    and the root is always a directory. *)
Record FS := {
  fs_cwd : list string;
  fs_files : gmap (list string) string;
  fs_dirs : gset (list string);
}.

Record World := {
  w_argv : list string;
  w_env : gmap string string;
  w_caps : Caps;
  w_fs : FS;
  routesDirCache : gmap string string;
  projectConfigCache : gmap string jsval;
  hasLoggedDeleteWarning : bool;
  hasLoggedConfigWarning : bool;
}.

#[global] Instance Caps_eq_dec : EqDecision Caps.
Proof. solve_decision. Defined.

#[global] Instance FS_eq_dec : EqDecision FS.
Proof. solve_decision. Defined.

#[global] Instance jsval_eq_dec : EqDecision jsval.
Proof.
  refine (fix go (x y : jsval) {struct x} : Decision (x = y) :=
            let _ : EqDecision jsval := go in
            match x, y with
            | JUndefined, JUndefined => left eq_refl
            | JNull, JNull => left eq_refl
            | JBool a, JBool b => cast_if (decide (a = b))
            | JNum a, JNum b => cast_if (decide (a = b))
            | JStr a, JStr b => cast_if (decide (a = b))
            | JArr a, JArr b => cast_if (decide (a = b))
            | JObj a, JObj b => cast_if (decide (a = b))
            | _, _ => right _
            end); abstract congruence.
Defined.

#[global] Instance World_eq_dec : EqDecision World.
Proof. solve_decision. Defined.

#[global] Instance ResolvedRuntimeConfig_eq_dec : EqDecision ResolvedRuntimeConfig.
Proof. solve_decision. Defined.

Definition set_fs (f : FS) (w : World) : World :=
  {| w_argv := w_argv w; w_env := w_env w; w_caps := w_caps w; w_fs := f;
     routesDirCache := routesDirCache w;
     projectConfigCache := projectConfigCache w;
     hasLoggedDeleteWarning := hasLoggedDeleteWarning w;
     hasLoggedConfigWarning := hasLoggedConfigWarning w |}.

Definition set_routesDirCache (c : gmap string string) (w : World) : World :=
  {| w_argv := w_argv w; w_env := w_env w; w_caps := w_caps w; w_fs := w_fs w;
     routesDirCache := c;
     projectConfigCache := projectConfigCache w;
     hasLoggedDeleteWarning := hasLoggedDeleteWarning w;
     hasLoggedConfigWarning := hasLoggedConfigWarning w |}.

Definition set_projectConfigCache (c : gmap string jsval) (w : World) : World :=
  {| w_argv := w_argv w; w_env := w_env w; w_caps := w_caps w; w_fs := w_fs w;
     routesDirCache := routesDirCache w;
     projectConfigCache := c;
     hasLoggedDeleteWarning := hasLoggedDeleteWarning w;
     hasLoggedConfigWarning := hasLoggedConfigWarning w |}.

Definition set_deleteWarning (b : bool) (w : World) : World :=
  {| w_argv := w_argv w; w_env := w_env w; w_caps := w_caps w; w_fs := w_fs w;
     routesDirCache := routesDirCache w;
     projectConfigCache := projectConfigCache w;
     hasLoggedDeleteWarning := b;
     hasLoggedConfigWarning := hasLoggedConfigWarning w |}.

Definition set_configWarning (b : bool) (w : World) : World :=
  {| w_argv := w_argv w; w_env := w_env w; w_caps := w_caps w; w_fs := w_fs w;
     routesDirCache := routesDirCache w;
     projectConfigCache := projectConfigCache w;
     hasLoggedDeleteWarning := hasLoggedDeleteWarning w;
     hasLoggedConfigWarning := b |}.

(** *** Paths of the filesystem *)

Definition canonStep (acc : list string) (segment : string) : list string :=
  if isEmpty segment || eqs segment "." then acc
  else if eqs segment ".." then removelast acc
  else acc ++ [segment].

Definition resolvePath (fs : FS) (p : string) : list string :=
  foldl canonStep (if startsWith "/" p then [] else fs_cwd fs)
        (splitOn (Ascii.eqb slash) p).

Definition isFile (fs : FS) (k : list string) : bool :=
  bool_decide (is_Some (fs_files fs !! k)).

(** A key that holds a file is a file, whatever the set of directories
    says. *)
Definition isDir (fs : FS) (k : list string) : bool :=
  negb (isFile fs k) && (bool_decide (k = []) || bool_decide (k ∈ fs_dirs fs)).

(** The entries of the directory [k]: the files and directories whose
    parent it is. *)
Definition entries (fs : FS) (k : list string) : list (list string) :=
  List.filter (fun e => bool_decide (e ≠ []) && bool_decide (removelast e = k))
              (elements (dom (fs_files fs) ∪ fs_dirs fs)).

(** The directory [k] and the directories above it, the root apart. *)
Fixpoint prefixes (k : list string) : list (list string) :=
  match k with
  | [] => []
  | s :: k' => [s] :: List.map (cons s) (prefixes k')
  end.

(** *** The effect of a call: an error or a value, and the next world *)

Definition Eff (A : Type) : Type := World -> (string + A) * World.

Definition ret {A} (a : A) : Eff A := fun w => (inr a, w).
Definition throw {A} (msg : string) : Eff A := fun w => (inl msg, w).
Definition bind {A B} (m : Eff A) (k : A -> Eff B) : Eff B :=
  fun w => match m w with
           | (inl e, w') => (inl e, w')
           | (inr a, w') => k a w'
           end.
(** [try { m } catch { h }] *)
Definition tryCatch {A} (m : Eff A) (h : Eff A) : Eff A :=
  fun w => match m w with
           | (inl _, w') => h w'
           | (inr a, w') => (inr a, w')
           end.
Definition getWorld : Eff World := fun w => (inr w, w).
Definition modify (f : World -> World) : Eff unit := fun w => (inr tt, f w).

Notation "'let*' x := m 'in' k" := (bind m (fun x => k))
  (at level 10, x name, m at level 100, k at level 200).
Notation "m >> k" := (bind m (fun _ => k))
  (at level 100, k at level 200, right associativity).

(** *** [fs/promises]

    The module belongs to the runtime, not to the repository; the driver
    sees it through the calls below.  They act on the filesystem in memory:
    a call fails only for the reason given in its definition (no
    permissions, no other writer). *)

Definition fsp_access (path : string) : Eff unit := fun w =>
  let k := resolvePath (w_fs w) path in
  if isFile (w_fs w) k || isDir (w_fs w) k then (inr tt, w)
  else (inl "ENOENT: no such file or directory", w).

Definition fsp_readFile (path : string) : Eff string := fun w =>
  match fs_files (w_fs w) !! resolvePath (w_fs w) path with
  | Some text => (inr text, w)
  | None => (inl "readFile failed", w)
  end.

(** [mkdir(path, { recursive: true })] *)
Definition fsp_mkdir_recursive (path : string) : Eff unit := fun w =>
  let fs := w_fs w in
  let ps := prefixes (resolvePath fs path) in
  if existsb (isFile fs) ps then (inl "EEXIST: not a directory", w)
  else (inr tt,
        set_fs {| fs_cwd := fs_cwd fs; fs_files := fs_files fs;
                  fs_dirs := fs_dirs fs ∪ list_to_set ps |} w).

Definition fsp_writeFile (path text : string) : Eff unit := fun w =>
  let fs := w_fs w in
  let k := resolvePath fs path in
  if isDir fs k then (inl "EISDIR: illegal operation on a directory", w)
  else if isDir fs (removelast k) then
    (inr tt,
     set_fs {| fs_cwd := fs_cwd fs; fs_files := <[ k := text ]> (fs_files fs);
               fs_dirs := fs_dirs fs |} w)
  else (inl "ENOENT: no such file or directory", w).

Definition fsp_unlink (path : string) : Eff unit := fun w =>
  let fs := w_fs w in
  let k := resolvePath fs path in
  if isFile fs k then
    (inr tt,
     set_fs {| fs_cwd := fs_cwd fs; fs_files := delete k (fs_files fs);
               fs_dirs := fs_dirs fs |} w)
  else (inl "unlink failed", w).

Definition fsp_readdir (path : string) : Eff (list (list string)) := fun w =>
  let fs := w_fs w in
  let k := resolvePath fs path in
  if isDir fs k then (inr (entries fs k), w)
  else (inl "ENOTDIR: not a directory", w).

(** [rm(path)] without recursion and without force: removes a file, or a
    directory that has no entry (the use the driver makes of it), and
    fails otherwise. *)
Definition fsp_rm (path : string) : Eff unit := fun w =>
  let fs := w_fs w in
  let k := resolvePath fs path in
  if isFile fs k then
    (inr tt,
     set_fs {| fs_cwd := fs_cwd fs; fs_files := delete k (fs_files fs);
               fs_dirs := fs_dirs fs |} w)
  else if bool_decide (k ∈ fs_dirs fs) && (length (entries fs k) =? 0) then
    (inr tt,
     set_fs {| fs_cwd := fs_cwd fs; fs_files := fs_files fs;
               fs_dirs := fs_dirs fs ∖ {[ k ]} |} w)
  else (inl "rm failed", w).

Definition existsFile (path : string) : Eff bool :=
  tryCatch (fsp_access path >> ret true) (ret false).

(** [null] when [readFile] is missing or fails. *)
Definition readTextFile (path : string) : Eff (option string) :=
  let* w := getWorld in
  if negb (cap_readFile (w_caps w)) then ret None
  else tryCatch (let* text := fsp_readFile path in ret (Some text)) (ret None).

(** ** Configuration of the driver *)

Definition normalizeRoutesDirectory (value : string) : string :=
  dropWhileEnd isSep
    (dropWhile (fun c => Ascii.eqb c "."%char || isSep c) (trim value)).

Definition normalizeAppDirectory (value : string) : string :=
  dropWhileEnd isSep
    (dropWhile (fun c => Ascii.eqb c "."%char || isSep c) (trim value)).

Fixpoint readCliOptionIn (exact withEq : string) (argv : list string) : option string :=
  match argv with
  | [] => None
  | arg :: rest =>
      if isEmpty arg then readCliOptionIn exact withEq rest
      else if eqs arg exact then
        match rest with
        | next :: _ =>
            if truthy next && negb (startsWith "--" next) then Some next else None
        | [] => None
        end
      else match stripPrefix withEq arg with
           | Some v => Some v
           | None => readCliOptionIn exact withEq rest
           end
  end.

Definition readCliOption (w : World) (name : string) : option string :=
  let exact := "--" +:+ name in
  readCliOptionIn exact (exact +:+ "=") (w_argv w).

(** The value when it is a string that stays non-empty once normalized. *)
Definition normalizedIfAny (value : option string) : option string :=
  match value with
  | Some v =>
      if truthy v then
        let normalized := normalizeRoutesDirectory v in
        if truthy normalized then Some normalized else None
      else None
  | None => None
  end.

Definition envRoutesDirectory (w : World) : option string :=
  match w_env w !! "CODEMOD_ROUTES_DIRECTORY" with
  | Some v => Some v
  | None => w_env w !! "ROUTES_DIRECTORY"
  end.

Definition getRoutesDirectoryOverride (w : World) : option string :=
  match normalizedIfAny (readCliOption w "routes-directory") with
  | Some n => Some n
  | None => normalizedIfAny (envRoutesDirectory w)
  end.

Definition isObjectLike (v : jsval) : bool :=
  match v with JObj _ | JArr _ => true | _ => false end.

Fixpoint firstNormalizedParam (params : jsval) (keys : list string) : option string :=
  match keys with
  | [] => None
  | key :: rest =>
      match prop key params with
      | JStr raw =>
          let normalized := normalizeRoutesDirectory raw in
          if truthy normalized then Some normalized
          else firstNormalizedParam params rest
      | _ => firstNormalizedParam params rest
      end
  end.

Definition getRoutesDirectoryOverrideFromOptions (options : jsval) : option string :=
  if negb (isObjectLike options) then None
  else
    let params := prop "params" options in
    if negb (isObjectLike params) then None
    else firstNormalizedParam params
           ["routesDirectory"; "routes_directory"; "routes-dir"; "routesDir"].

Definition isDryRun (w : World) : bool :=
  existsb (eqs "--dry-run") (w_argv w)
  || bool_decide (w_env w !! "CODEMOD_DRY_RUN" = Some "1")
  || bool_decide (w_env w !! "DRY_RUN" = Some "1").

Fixpoint firstExisting (paths : list string) : Eff (option string) :=
  match paths with
  | [] => ret None
  | p :: rest =>
      let* found := existsFile p in
      if found then ret (Some p) else firstExisting rest
  end.

(** The loop of [findNearestFile]; each turn either returns or goes on
    with a strictly shorter directory, so the length of the start
    directory bounds the number of turns. *)
Fixpoint findNearestLoop (fuel : nat) (currentDir : string)
         (candidates : list string) : Eff (option string) :=
  match fuel with
  | O => ret None
  | S fuel' =>
      let* hit :=
        firstExisting
          (List.map (fun c => trimTrailingSlash currentDir +:+ "/" +:+ c)
                    candidates) in
      match hit with
      | Some filePath => ret (Some filePath)
      | None =>
          let parent := dirname currentDir in
          if isEmpty parent || eqs parent "." || eqs parent currentDir
          then ret None
          else findNearestLoop fuel' parent candidates
      end
  end.

Definition findNearestFile (startDir : string) (candidates : list string)
  : Eff (option string) :=
  let currentDir := normalizePath startDir in
  findNearestLoop (S (String.length currentDir)) currentDir candidates.

(** The first match in [source] of: the word routesDirectory, optional
    white space, a colon, optional white space, a quote of any of the
    three kinds, one or more characters that are no quote, a quote of any
    kind.  The result is the quoted text. *)
Definition viteRoutesDirectoryAt (s : string) : option string :=
  match stripPrefix "routesDirectory" s with
  | None => None
  | Some r0 =>
      match stripPrefix ":" (dropWhile isSpace r0) with
      | None => None
      | Some r1 =>
          match dropWhile isSpace r1 with
          | String q r2 =>
              if isQuote q then
                let '(run, r3) := span (fun c => negb (isQuote c)) r2 in
                if isEmpty run || isEmpty r3 then None else Some run
              else None
          | EmptyString => None
          end
      end
  end.

Fixpoint firstMatch {A} (m : string -> option A) (s : string) : option A :=
  match m s with
  | Some a => Some a
  | None =>
      match s with
      | EmptyString => None
      | String _ s' => firstMatch m s'
      end
  end.

Definition parseRoutesDirectoryFromViteConfig (source : string) : option string :=
  match firstMatch viteRoutesDirectoryAt source with
  | Some g => let t := trim g in if truthy t then Some t else None
  | None => None
  end.

Definition viteConfigNames : list string :=
  [ "vite.config.ts"; "vite.config.js"; "vite.config.mts";
    "vite.config.cts"; "vite.config.mjs"; "vite.config.cjs" ].

Definition warnConfigOnce : Eff unit :=
  let* w := getWorld in
  if hasLoggedConfigWarning w then ret tt else modify (set_configWarning true).

(** The body of the cached loader of [getConfiguredRoutesDirectory]. *)
Definition loadRoutesDirectory (projectRootGuess : string) : Eff string :=
  let* configFile := findNearestFile projectRootGuess viteConfigNames in
  match configFile with
  | None => ret "routes"
  | Some file =>
      let* source := readTextFile file in
      match source with
      | Some text =>
          if truthy text then
            ret (normalizeRoutesDirectory
                   (default "routes" (parseRoutesDirectoryFromViteConfig text)))
          else warnConfigOnce >> ret "routes"
      | None => warnConfigOnce >> ret "routes"
      end
  end.

Definition configRoutesDirectory (projectConfig : jsval) : option string :=
  match prop "routesDirectory" projectConfig with
  | JStr s =>
      let n := normalizeRoutesDirectory s in
      if truthy n then Some n else None
  | _ => None
  end.

Definition configAppDir (projectConfig : jsval) : string :=
  match prop "appDirectory" projectConfig with
  | JStr s =>
      let n := normalizeAppDirectory s in
      if truthy n then n else "app"
  | _ => "app"
  end.

Definition getConfiguredRoutesDirectory (filename : string)
           (projectConfig : jsval) (override : option string) : Eff string :=
  match configRoutesDirectory projectConfig with
  | Some configOverride => ret configOverride
  | None =>
      let* w := getWorld in
      let resolvedOverride :=
        match override with
        | Some o => if truthy o then Some o else getRoutesDirectoryOverride w
        | None => getRoutesDirectoryOverride w
        end in
      match resolvedOverride with
      | Some o => ret (normalizeRoutesDirectory o)
      | None =>
          let normalizedFilename := normalizePath filename in
          let appDir := configAppDir projectConfig in
          match lastIndexOf ("/" +:+ appDir +:+ "/") normalizedFilename with
          | None => ret "routes"
          | Some appMarker =>
              let sliced := sliceTo appMarker normalizedFilename in
              let projectRootGuess := if truthy sliced then sliced else "." in
              let cacheKey := normalizePath projectRootGuess in
              match routesDirCache w !! cacheKey with
              | Some existing => ret existing
              | None =>
                  let* loaded := loadRoutesDirectory projectRootGuess in
                  modify (fun w' =>
                            set_routesDirCache
                              (<[ cacheKey := loaded ]> (routesDirCache w')) w')
                  >> ret loaded
              end
          end
      end
  end.

(** ** The route path a moved file must declare *)

Definition routeFileNames : list string :=
  [ "page"; "layout"; "loading"; "error"; "not-found"; "template"; "route" ].

(** The global rewrites of segment syntax, shared by the three route-path
    functions: a parenthesised group, an optional catch-all, a catch-all, a
    dynamic segment. *)
Definition groupAt (s : string) : option (string * string) :=
  match matchRun "(" (notChar ")"%char) ")" s with
  | Some (run, rest) => Some ("_" +:+ run, rest)
  | None => None
  end.
Definition optionalCatchAllAt (s : string) : option (string * string) :=
  match matchRun "[[..." (notChar "]"%char) "]]" s with
  | Some (_, rest) => Some ("$", rest)
  | None => None
  end.
Definition catchAllAt (s : string) : option (string * string) :=
  match matchRun "[..." (notChar "]"%char) "]" s with
  | Some (_, rest) => Some ("$", rest)
  | None => None
  end.
Definition dynamicAt (s : string) : option (string * string) :=
  match matchRun "[" (notChar "]"%char) "]" s with
  | Some (run, rest) => Some ("$" +:+ run, rest)
  | None => None
  end.

Definition rewriteSegmentSyntax (path : string) : string :=
  gsub dynamicAt (gsub catchAllAt (gsub optionalCatchAllAt (gsub groupAt path))).

(** The three closing statements of each route-path function: a leading
    slash is ensured, one trailing slash is removed, and the empty result
    becomes the root path. *)
Definition closeRoutePath (path : string) : string :=
  let p1 := if startsWith "/" path then path else "/" +:+ path in
  let p2 := stripOneTrailingSlash p1 in
  if truthy p2 then p2 else "/".

(** The file name with a whole-name match of a route file name and a
    source extension replaced by the empty string. *)
Definition stripRouteFilename (filenamePart : string) : string :=
  if existsb (fun n => match specialFile n filenamePart with
                       | Some _ => true | None => false end) routeFileNames
  then EmptyString else filenamePart.

(** What [computeExpectedRoutePathFromSourcePath] holds before its closing
    statements. *)
Definition expectedRoutePathBody (relativeSegments : list string) : string :=
  let withoutFilename := removelast relativeSegments in
  let filenamePart := List.last relativeSegments EmptyString in
  let strippedFilename := stripRouteFilename filenamePart in
  rewriteSegmentSyntax
    (stripOneTrailingSlash
       (join "/" (filterBoolean (withoutFilename ++ [strippedFilename])))).

Definition expectedRelativeSegments (filename : string)
           (runtimeConfig : ResolvedRuntimeConfig) : option (list string) :=
  let normalized := normalizePath filename in
  let segments := filterBoolean (splitOn (Ascii.eqb slash) normalized) in
  let appDirSegments := normalizeDirSegments (appDirectory runtimeConfig) in
  match findSubPathIndex segments appDirSegments with
  | None => None
  | Some appIndex =>
      let appEndIndex := appIndex + length appDirSegments in
      let relativeSegments := skipn appEndIndex segments in
      match relativeSegments with
      | [] => None
      | first :: _ =>
          if eqs first "api" then None else Some relativeSegments
      end
  end.

Definition computeExpectedRoutePathFromSourcePath (filename : string)
           (runtimeConfig : ResolvedRuntimeConfig) : option string :=
  match expectedRelativeSegments filename runtimeConfig with
  | None => None
  | Some relativeSegments =>
      Some (closeRoutePath (expectedRoutePathBody relativeSegments))
  end.

Definition isRootRouteTarget (path : string) : bool :=
  existsb (fun e => endsWith ("/__root." +:+ e) (normalizePath path)) extensions.

(** A call of createRootRoute: the name, optional white space, an opening
    parenthesis; anywhere in the text. *)
Definition createRootRouteAt (s : string) : option unit :=
  match stripPrefix "createRootRoute" s with
  | Some r => if startsWith "(" (dropWhile isSpace r) then Some tt else None
  | None => None
  end.
Definition usesCreateRootRoute (source : string) : bool :=
  match firstMatch createRootRouteAt source with Some _ => true | None => false end.

(** A call of createFileRoute on a literal: the name and an opening
    parenthesis, a quote, one or more characters that are no quote, the
    same quote, a closing parenthesis.  The result is the literal. *)
Definition createFileRouteLiteralAt (s : string) : option string :=
  match stripPrefix "createFileRoute(" s with
  | Some (String q r) =>
      if isQuote q then
        let '(run, r') := span (fun c => negb (isQuote c)) r in
        if isEmpty run then None
        else match r' with
             | String q' r'' =>
                 if Ascii.eqb q' q && startsWith ")" r'' then Some run else None
             | EmptyString => None
             end
      else None
  | _ => None
  end.

Definition nl : string := String (ascii_of_nat 10) EmptyString.

Definition assertCreateFileRoutePathMatch (oldPath newPath source : string)
           (runtimeConfig : ResolvedRuntimeConfig) : string + unit :=
  if isRootRouteTarget newPath then
    if negb (usesCreateRootRoute source) then
      inl (join nl [ "Root route mismatch for moved file.";
                     "source: " +:+ oldPath;
                     "target: " +:+ newPath;
                     "expected root route to use createRootRoute(...) in __root.tsx" ])
    else inr tt
  else
    match computeExpectedRoutePathFromSourcePath oldPath runtimeConfig with
    | None => inr tt
    | Some expected =>
        if usesCreateRootRoute source then inr tt
        else match firstMatch createFileRouteLiteralAt source with
             | None => inr tt
             | Some actual =>
                 if negb (eqs actual expected) then
                   inl (join nl [ "Route path mismatch for moved file.";
                                  "source: " +:+ oldPath;
                                  "expected createFileRoute: " +:+ expected;
                                  "actual createFileRoute: " +:+ actual ])
                 else inr tt
             end
    end.

(** *** Rewriting the text of a root route *)

(** createFileRoute, an opening parenthesis, optional white space, the
    path of the root in quotes of one kind, optional white space, a closing
    parenthesis, optional white space, an opening parenthesis. *)
Definition rootFactoryCallAt (s : string) : option (string * string) :=
  match stripPrefix "createFileRoute(" s with
  | None => None
  | Some r0 =>
      match dropWhile isSpace r0 with
      | String q (String sl (String q' r1)) =>
          if isQuote q && Ascii.eqb sl slash && Ascii.eqb q' q then
            match stripPrefix ")" (dropWhile isSpace r1) with
            | Some r2 =>
                match stripPrefix "(" (dropWhile isSpace r2) with
                | Some r3 => Some ("createRootRoute(", r3)
                | None => None
                end
            | None => None
            end
          else None
      | _ => None
      end
  end.

Definition rewriteTanstackImport (imports : string) (quote : ascii) : string :=
  let parts :=
    filterBoolean (List.map trim (splitOn (Ascii.eqb ","%char) imports)) in
  let withoutCreateFileRoute :=
    List.filter (fun part => negb (eqs part "createFileRoute")) parts in
  let withCreateRootRoute :=
    if existsb (eqs "createRootRoute") withoutCreateFileRoute
    then withoutCreateFileRoute
    else "createRootRoute" :: withoutCreateFileRoute in
  "import { " +:+ join ", " withCreateRootRoute +:+ " } from "
    +:+ String quote ("@tanstack/react-router" +:+ String quote EmptyString).

(** A named import from the router package: the word import, optional
    white space, a brace, optional white space, one or more characters
    other than the closing brace (the captured list), the closing brace,
    optional white space, the word from, optional white space, the package
    name in single or double quotes.  When only white space stands between
    the braces the captured list is its last character. *)
Definition tanstackImportAt (s : string) : option (string * string) :=
  match stripPrefix "import" s with
  | None => None
  | Some r0 =>
      match stripPrefix "{" (dropWhile isSpace r0) with
      | None => None
      | Some r1 =>
          let '(ws, r2) := span isSpace r1 in
          let '(body, r3) := span (notChar "}"%char) r2 in
          let captured :=
            if truthy body then Some body
            else match lastChar ws with
                 | Some c => Some (String c EmptyString)
                 | None => None
                 end in
          match captured, stripPrefix "}" r3 with
          | Some imports, Some r4 =>
              match stripPrefix "from" (dropWhile isSpace r4) with
              | None => None
              | Some r5 =>
                  match dropWhile isSpace r5 with
                  | String q r6 =>
                      if Ascii.eqb q quote1 || Ascii.eqb q quote2 then
                        match stripPrefix "@tanstack/react-router" r6 with
                        | Some (String q' r7) =>
                            if Ascii.eqb q' q
                            then Some (rewriteTanstackImport imports q, r7)
                            else None
                        | _ => None
                        end
                      else None
                  | EmptyString => None
                  end
              end
          | _, _ => None
          end
      end
  end.

Definition normalizeRootRouteSource (source : string) : string :=
  gsub tanstackImportAt (gsub rootFactoryCallAt source).

(** ** Relocation *)

Definition warnDeleteOnce : Eff unit :=
  let* w := getWorld in
  if hasLoggedDeleteWarning w then ret tt else modify (set_deleteWarning true).

Definition tryDeleteFile (path : string) : Eff unit :=
  let* w := getWorld in
  if cap_unlink (w_caps w) then fsp_unlink path
  else if cap_rm (w_caps w) then fsp_rm path
  else warnDeleteOnce.

(** [fsp.rm] called without a test of its presence: a missing function is
    a TypeError. *)
Definition callRm (path : string) : Eff unit :=
  let* w := getWorld in
  if cap_rm (w_caps w) then fsp_rm path
  else throw "TypeError: fsp.rm is not a function".

Definition tryDeleteDirIfEmpty (path : string) : Eff bool :=
  tryCatch
    (let* es := fsp_readdir path in
     if 0 <? length es then ret false
     else callRm path >> ret true)
    (ret false).

(** The loop of [pruneEmptyRouteDirs]; [currentDir] gets strictly shorter
    at each turn. *)
Fixpoint pruneLoop (fuel : nat) (appPath currentDir : string) : Eff unit :=
  match fuel with
  | O => ret tt
  | S fuel' =>
      if truthy currentDir && negb (eqs currentDir ".")
         && negb (eqs currentDir appPath)
         && startsWith (appPath +:+ "/") currentDir
      then
        let* removed := tryDeleteDirIfEmpty currentDir in
        if removed then pruneLoop fuel' appPath (dirname currentDir)
        else ret tt
      else ret tt
  end.

Definition pruneEmptyRouteDirs (movedFromFilePath appDirectory : string) : Eff unit :=
  let normalizedFilePath := normalizePath movedFromFilePath in
  let segments := filterBoolean (splitOn (Ascii.eqb slash) normalizedFilePath) in
  let appSegments := normalizeDirSegments appDirectory in
  match findSubPathIndex segments appSegments with
  | None => ret tt
  | Some appIndex =>
      let appPath := join "/" (firstn (appIndex + length appSegments) segments) in
      let currentDir := dirname normalizedFilePath in
      pruneLoop (S (String.length currentDir)) appPath currentDir
  end.

Definition conflictMessage (newPath : string) : string :=
  "Refusing to overwrite existing target file with different content: " +:+ newPath.

Definition deleteOriginalAndPrune (oldPath appDirectory : string) : Eff unit :=
  let* present := existsFile oldPath in
  if present then
    tryDeleteFile oldPath >> pruneEmptyRouteDirs oldPath appDirectory
  else ret tt.

Definition writeMovedFileAndDeleteOriginal
           (oldPath newPath output appDirectory : string) : Eff unit :=
  if eqs (normalizePath oldPath) (normalizePath newPath) then ret tt
  else
    let* targetExists := existsFile newPath in
    if targetExists then
      let* w := getWorld in
      if cap_readFile (w_caps w) then
        let* existing := fsp_readFile newPath in
        if eqs existing output then deleteOriginalAndPrune oldPath appDirectory
        else throw (conflictMessage newPath)
      else throw (conflictMessage newPath)
    else
      fsp_mkdir_recursive (dirname newPath) >>
      fsp_writeFile newPath output >>
      deleteOriginalAndPrune oldPath appDirectory.

(** ** Route paths computed by the transforms *)

Fixpoint stripAnySuffix (suffixes : list string) (s : string) : string :=
  match suffixes with
  | [] => s
  | suf :: rest =>
      match stripSuffix suf s with
      | Some r => r
      | None => stripAnySuffix rest s
      end
  end.

(** *** [calculateRoutePath] of the API-route transform *)

(** A drive prefix: one letter and a colon at the start. *)
Definition stripDrivePrefix (path : string) : string :=
  match path with
  | String c (String colon r) =>
      if isLetter c && Ascii.eqb colon ":"%char then r else path
  | _ => path
  end.

(** An optional src/ and then app/, at the start of [s]. *)
Definition optSrcApp (s : string) : option string :=
  match stripPrefix "src/app/" s with
  | Some r => Some r
  | None => stripPrefix "app/" s
  end.

(** The first match of: the start of the text or a slash, an optional
    src/, then app/.  The result is what follows the match. *)
Fixpoint afterAppMarkerFrom (s : string) : option string :=
  match stripPrefix "/" s with
  | Some r =>
      match optSrcApp r with
      | Some rest => Some rest
      | None =>
          match s with
          | String _ s' => afterAppMarkerFrom s'
          | EmptyString => None
          end
      end
  | None =>
      match s with
      | String _ s' => afterAppMarkerFrom s'
      | EmptyString => None
      end
  end.

Definition afterAppMarker (s : string) : option string :=
  match optSrcApp s with
  | Some rest => Some rest
  | None => afterAppMarkerFrom s
  end.

Definition apiRouteSuffixes : list string :=
  [ "route.ts"; "route.js"; "route.tsx"; "route.jsx" ].

(** What [calculateRoutePath] holds before its closing statements. *)
Definition calculateRoutePathBody (filename : string) : string :=
  let path0 := stripDrivePrefix (normalizePath filename) in
  let path1 :=
    match afterAppMarker path0 with
    | Some rest => rest
    | None =>
        match indexOf "/api/" path0 with
        | Some apiIndex => sliceFrom (apiIndex + 1) path0
        | None => path0
        end
    end in
  rewriteSegmentSyntax (stripAnySuffix apiRouteSuffixes path1).

Definition calculateRoutePath (filename : string) : string :=
  closeRoutePath (calculateRoutePathBody filename).

(** *** [calculateTanstackRoute] of the file-structure transform *)

Definition routeFileSuffixes : list string :=
  List.concat
    (List.map (fun n => List.map (fun e => n +:+ "." +:+ e) extensions)
              routeFileNames).

(** A separator, app, a separator, then the rest of the line when it is
    not empty. *)
Definition afterAppDirAt (s : string) : option string :=
  match s with
  | String c0 r0 =>
      if isSep c0 then
        match stripPrefix "app" r0 with
        | Some (String c1 r1) =>
            if isSep c1 then
              let '(run, _) := span (fun c => negb (isLineTerminator c)) r1 in
              if isEmpty run then None else Some run
            else None
        | _ => None
        end
      else None
  | EmptyString => None
  end.

(** A separator, an optional src and separator, app, an optional
    separator; what follows. *)
Definition appTailAt (s : string) : option string :=
  match s with
  | String c0 r0 =>
      if isSep c0 then
        let afterSrc :=
          match stripPrefix "src" r0 with
          | Some (String c1 r1) => if isSep c1 then r1 else r0
          | _ => r0
          end in
        match stripPrefix "app" afterSrc with
        | Some r2 =>
            match r2 with
            | String c2 r3 => if isSep c2 then Some r3 else Some r2
            | EmptyString => Some r2
            end
        | None => None
        end
      else None
  | EmptyString => None
  end.

(** What is left of a line after its last match of [appTailAt]. *)
Fixpoint afterLastAppTail (line : string) : option string :=
  match line with
  | EmptyString => None
  | String _ line' =>
      match afterLastAppTail line' with
      | Some r => Some r
      | None => appTailAt line
      end
  end.

(** The replacement by the empty string of the first match of: as many
    characters of a line as possible, then [appTailAt].  The match starts
    at the start of the first line that has one. *)
Fixpoint stripThroughAppFuel (fuel : nat) (s : string) : string :=
  match fuel with
  | O => s
  | S fuel' =>
      let '(line, rest) := span (fun c => negb (isLineTerminator c)) s in
      match afterLastAppTail line with
      | Some r => r +:+ rest
      | None =>
          match rest with
          | EmptyString => s
          | String c rest' => line +:+ String c (stripThroughAppFuel fuel' rest')
          end
      end
  end.
Definition stripThroughApp (s : string) : string :=
  stripThroughAppFuel (S (String.length s)) s.

Definition calculateTanstackRouteBody (filename : string) : string :=
  let normalizedFilename := normalizePath filename in
  let path0 :=
    stripOneTrailingSlash (stripAnySuffix routeFileSuffixes normalizedFilename) in
  let path1 :=
    match firstMatch afterAppDirAt path0 with
    | Some rest => rest
    | None => stripThroughApp path0
    end in
  rewriteSegmentSyntax path1.

Definition calculateTanstackRoute (filename : string) : string :=
  closeRoutePath (calculateTanstackRouteBody filename).

Definition shouldSkipAutomaticRouteTransform (filename : string) : bool :=
  let normalized := normalizePath filename in
  match indexOf "/app/" normalized with
  | None => false
  | Some appIdx =>
      let relPath := sliceFrom (appIdx + 5) normalized in
      let relSegments := filterBoolean (splitOn (Ascii.eqb slash) relPath) in
      let fileBase := List.last relSegments EmptyString in
      let dirSegments := removelast relSegments in
      let isGroup := isRouteGroupSegment in
      let hasPrivateSegment :=
        existsb (fun seg => match matchWhole "_" (notChar slash) EmptyString seg with
                            | Some _ => true | None => false end) dirSegments in
      let hasParallelSegment :=
        existsb (fun seg => match matchWhole "@" (notChar slash) EmptyString seg with
                            | Some _ => true | None => false end) dirSegments in
      let hasRouteGroupSegment := existsb isGroup dirSegments in
      let isGroupOnlyBranch :=
        (0 <? length dirSegments) && forallb isGroup dirSegments in
      if hasPrivateSegment || hasParallelSegment then true
      else hasRouteGroupSegment && isLayoutLikeFile fileBase && negb isGroupOnlyBranch
  end.

(** ** The transform of one file *)

Definition PASS_ORDER : list string :=
  [ "next-image"; "next-link"; "next-server-functions";
    "manual-migration-todos"; "next-use-client"; "route-file-structure";
    "route-groups"; "api-routes" ].

(** [await Promise.all(tasks)] on settled tasks: the first rejection, or
    all the values. *)
Fixpoint promiseAll {A} (tasks : list (string + A)) : string + list A :=
  match tasks with
  | [] => inr []
  | inl e :: _ => inl e
  | inr a :: rest =>
      match promiseAll rest with
      | inl e => inl e
      | inr vs => inr (a :: vs)
      end
  end.

Definition projectConfigNames : list string :=
  [ "next-to-start.codemod.json"; ".next-to-start.codemod.json";
    "next-to-start.codemodrc.json" ].

Section Pipeline.

(** The syntax tree, its edits and the passes belong to the pattern
    matcher; [JSON_parse] is [None] where [JSON.parse] throws. *)
Context {Root Edit : Type}.
Variable filenameOf : Root -> string.
Variable commitEdits : Root -> list Edit -> string.
Variable runPass : string -> Root -> string + option (list Edit).
Variable JSON_parse : string -> option jsval.

Definition parseProjectConfigJson (source : string) : option jsval :=
  match JSON_parse source with
  | Some parsed => if isObjectLike parsed then Some parsed else None
  | None => None
  end.

Definition loadProjectConfig (cacheKey : string) : Eff jsval :=
  let* configFile := findNearestFile cacheKey projectConfigNames in
  match configFile with
  | None => ret (JObj [])
  | Some file =>
      let* source := readTextFile file in
      match source with
      | Some text =>
          if truthy text then
            match parseProjectConfigJson text with
            | Some parsed => ret parsed
            | None => warnConfigOnce >> ret (JObj [])
            end
          else ret (JObj [])
      | None => ret (JObj [])
      end
  end.

Definition readProjectConfig (filename : string) : Eff jsval :=
  let normalizedFilename := normalizePath filename in
  let cacheKey := dirname normalizedFilename in
  let* w := getWorld in
  match projectConfigCache w !! cacheKey with
  | Some existing => ret existing
  | None =>
      let* loaded := loadProjectConfig cacheKey in
      modify (fun w' =>
                set_projectConfigCache
                  (<[ cacheKey := loaded ]> (projectConfigCache w')) w')
      >> ret loaded
  end.

(** [normalizeAppDirectory(projectConfig.appDirectory || "app") || "app"];
    a truthy value that is no string has no [trim]. *)
Definition resolveAppDirectory (projectConfig : jsval) : Eff string :=
  let v := prop "appDirectory" projectConfig in
  match (if jsTruthy v then v else JStr "app") with
  | JStr s =>
      let n := normalizeAppDirectory s in
      ret (if truthy n then n else "app")
  | _ => throw "TypeError: value.trim is not a function"
  end.

Definition resolveRuntimeConfig (filename : string) (options : jsval)
  : Eff ResolvedRuntimeConfig :=
  let* projectConfig := readProjectConfig filename in
  let optionsOverride := getRoutesDirectoryOverrideFromOptions options in
  let* routesDir :=
    getConfiguredRoutesDirectory filename projectConfig optionsOverride in
  let* appDir := resolveAppDirectory projectConfig in
  ret {| routesDirectory := routesDir; appDirectory := appDir;
         enabledMigrations := resolveEnabledMigrations projectConfig |}.

Definition enabledTasks (enabled : gset string) (root : Root)
  : list (string + option (list Edit)) :=
  List.map (fun id => runPass id root)
           (List.filter (fun id => bool_decide (id ∈ enabled)) PASS_ORDER).

Definition collectEdits (results : list (option (list Edit))) : list Edit :=
  List.concat (List.map (fun edits => default [] edits) results).

(** The steps of [transform] after the passes have settled. *)
Definition commitAndRelocate (root : Root) (runtimeConfig : ResolvedRuntimeConfig)
           (results : list (option (list Edit))) : Eff (option string) :=
  let commitResult := commitEdits root (collectEdits results) in
  let currentFilename := filenameOf root in
  let targetPath :=
    if bool_decide ("route-file-structure" ∈ enabledMigrations runtimeConfig)
    then computeTanstackTargetPath currentFilename runtimeConfig
    else None in
  let* w := getWorld in
  match targetPath with
  | Some target =>
      if negb (isDryRun w) then
        let output :=
          if isRootRouteTarget target
          then normalizeRootRouteSource commitResult
          else commitResult in
        match assertCreateFileRoutePathMatch currentFilename target output
                runtimeConfig with
        | inl e => throw e
        | inr _ =>
            writeMovedFileAndDeleteOriginal currentFilename target output
              (appDirectory runtimeConfig)
            >> ret None
        end
      else ret (Some commitResult)
  | None => ret (Some commitResult)
  end.

Definition transform (root : Root) (options : jsval) : Eff (option string) :=
  let* runtimeConfig := resolveRuntimeConfig (filenameOf root) options in
  match promiseAll (enabledTasks (enabledMigrations runtimeConfig) root) with
  | inl e => throw e
  | inr results => commitAndRelocate root runtimeConfig results
  end.

End Pipeline.

(** The configuration of a project that configures nothing. *)
Definition defaultConfig : ResolvedRuntimeConfig :=
  {| routesDirectory := "routes"; appDirectory := "app";
     enabledMigrations := list_to_set MIGRATION_IDS |}.

(** Every character of [s] satisfies [f]. *)
Fixpoint allChars (f : ascii -> bool) (s : string) : bool :=
  match s with
  | EmptyString => true
  | String c s' => f c && allChars f s'
  end.

(** ** The three layers of pass enablement, as the documentation states
    them: an allow-list, a deny-list, and per-id switches applied last. *)

Definition stringsOf (xs : list jsval) : list string :=
  omap (fun v => match v with JStr s => Some s | _ => None end) xs.

(** The allow-list: the strings of [enabledMigrations] when it is an array
    with at least one element, every known id otherwise. *)
Definition allowList (config : jsval) : list string :=
  match prop "enabledMigrations" config with
  | JArr (x :: xs) => stringsOf (x :: xs)
  | _ => MIGRATION_IDS
  end.

(** The allow-list when only an absent [enabledMigrations] defaults to
    every known id, and an array is taken as it is. *)
Definition allowListWhenAbsent (config : jsval) : list string :=
  match prop "enabledMigrations" config with
  | JArr xs => stringsOf xs
  | _ => MIGRATION_IDS
  end.

Definition denyList (config : jsval) : list string :=
  match prop "disabledMigrations" config with
  | JArr xs => stringsOf xs
  | _ => []
  end.

(** The switch of [id] in a list of bindings: its last boolean binding. *)
Fixpoint lastToggle (id : string) (fields : list (string * jsval)) : option bool :=
  match fields with
  | [] => None
  | (k, v) :: rest =>
      match lastToggle id rest with
      | Some b => Some b
      | None =>
          if eqs k id then match v with JBool b => Some b | _ => None end
          else None
      end
  end.

Definition toggleOf (config : jsval) (id : string) : option bool :=
  match prop "migrations" config with
  | JObj fields => lastToggle id fields
  | _ => None
  end.

Definition enabledByLayers (allow : jsval -> list string) (config : jsval)
           (id : string) : Prop :=
  id ∈ MIGRATION_IDS /\
  match toggleOf config id with
  | Some b => b = true
  | None => id ∈ allow config /\ id ∉ denyList config
  end.

(** ** The layers behind the routes directory *)

(** The value scanned out of the nearest build-tool configuration above
    [projectRoot], when there is such a file, it can be read, it is not
    empty and it assigns a routes directory. *)
Definition viteScanned (projectRoot : string) (w : World) : option string :=
  match findNearestFile projectRoot viteConfigNames w with
  | (inr (Some file), _) =>
      match readTextFile file w with
      | (inr (Some text), _) =>
          if truthy text then parseRoutesDirectoryFromViteConfig text else None
      | _ => None
      end
  | _ => None
  end.

(** The project root guessed from the last marker of the app directory in
    the file name, when there is one. *)
Definition projectRootGuessOf (filename : string) (projectConfig : jsval)
  : option string :=
  let normalizedFilename := normalizePath filename in
  match lastIndexOf ("/" +:+ configAppDir projectConfig +:+ "/") normalizedFilename with
  | None => None
  | Some appMarker =>
      let sliced := sliceTo appMarker normalizedFilename in
      Some (if truthy sliced then sliced else ".")
  end.

(** Two worlds that differ at most in the caches and the warning flags. *)
Definition sameOutside (w w' : World) : Prop :=
  w_fs w' = w_fs w /\ w_argv w' = w_argv w /\ w_env w' = w_env w
  /\ w_caps w' = w_caps w.

Definition allCaps : Caps :=
  {| cap_readFile := true; cap_unlink := true; cap_rm := true |}.

Definition emptyFS : FS :=
  {| fs_cwd := []; fs_files := ∅; fs_dirs := ∅ |}.

Definition worldOf (argv : list string) (env : gmap string string) (fs : FS) : World :=
  {| w_argv := argv; w_env := env; w_caps := allCaps; w_fs := fs;
     routesDirCache := ∅; projectConfigCache := ∅;
     hasLoggedDeleteWarning := false; hasLoggedConfigWarning := false |}.

Definition emptyWorld : World := worldOf [] ∅ emptyFS.

(** ** The shape of a route path *)

(** [r] starts with a slash and, when it ends with one, is the root path
    or comes from a [body] that ended with two slashes. *)
Definition routePathShape (body r : string) : Prop :=
  startsWith "/" r = true
  /\ (endsWith "/" r = true -> r = "/" \/ endsWith "//" body = true).

(** The normal form of a route path: a leading slash and, the root path
    apart, no trailing slash. *)
Definition normalizedRoutePath (r : string) : Prop :=
  startsWith "/" r = true /\ (r = "/" \/ endsWith "/" r = false).

(** ** Worlds used in the examples *)

(** The world in which the file at [k] has been unlinked. *)
Definition removeFile (k : list string) (w : World) : World :=
  set_fs {| fs_cwd := fs_cwd (w_fs w);
            fs_files := delete k (fs_files (w_fs w));
            fs_dirs := fs_dirs (w_fs w) |} w.

(** A project at /proj whose directory app/blog has just lost its last
    file; the process runs at the root, or inside the project. *)
Definition blogDirs : gset (list string) :=
  {[ ["proj"]; ["proj"; "app"]; ["proj"; "app"; "blog"] ]}.

Definition prunedBlogDirs : gset (list string) :=
  {[ ["proj"]; ["proj"; "app"] ]}.

Definition worldAtRoot : World :=
  worldOf [] ∅ {| fs_cwd := []; fs_files := ∅; fs_dirs := blogDirs |}.

Definition worldInProject : World :=
  worldOf [] ∅ {| fs_cwd := ["proj"]; fs_files := ∅; fs_dirs := blogDirs |}.

(** A project in which the target of app/page.tsx already exists. *)
Definition movedOnceFS (targetText : string) : FS :=
  {| fs_cwd := [];
     fs_files := {[ ["app"; "page.tsx"] := "old text";
                    ["routes"; "index.tsx"] := targetText ]};
     fs_dirs := {[ ["app"]; ["routes"] ]} |}.

(** A call that changes at most the caches and the warning flags. *)
Definition quiet {A} (m : Eff A) : Prop :=
  forall w, sameOutside w (snd (m w)).

(** A tree that is its file name, passes of which one fails, and a parser
    that rejects everything. *)
Definition failingPass (id : string) (root : string) : string + option (list unit) :=
  if eqs id "next-link" then inl "next-link failed" else inr None.

Definition noPass (id : string) (root : string) : string + option (list unit) :=
  inr None.

Definition rejectJson (source : string) : option jsval := None.




Definition wrongPath : string :=
  "export const Route = createFileRoute('/wrong')({})".

Definition aboutPageFS : FS :=
  {| fs_cwd := [];
     fs_files := {[ ["app"; "about"; "page.tsx"] := "old text" ]};
     fs_dirs := {[ ["app"]; ["app"; "about"] ]} |}.

(** A matcher that never matches the empty string at the start of its
    input: what it leaves is shorter than what it was given. *)
Definition consumes (m : string -> option (string * string)) : Prop :=
  forall s out rest, m s = Some (out, rest) -> String.length rest < String.length s.

(** Decides a closed decidable proposition by evaluation. *)
Ltac decide_by_compute :=
  refine (bool_decide_unpack _ _); vm_compute; exact I.

(** Proves a conjunction of closed equations by evaluation. *)
Ltac compute_conj :=
  cbv zeta;
  repeat match goal with |- _ /\ _ => split end;
  decide_by_compute.

(** The characters a plain parameter name is made of, as far as the
    rewrites of segment syntax are concerned: no parenthesis that opens a
    group and no bracket. *)
Definition isNameChar (c : ascii) : bool :=
  notChar "("%char c && notChar "["%char c && notChar "]"%char c.

(** ** Text helpers of the transforms *)

Definition newline : ascii := "010"%char.

(** [" ".repeat(n)] *)
Fixpoint repeatSpace (n : nat) : string :=
  match n with
  | O => EmptyString
  | S n' => String " "%char (repeatSpace n')
  end.

(** [indent] of the file-structure and API-route transforms: every line
    that holds more than white space gets [spaces] spaces in front.  The
    callers pass the literals 2 and 8. *)
Definition indent (str : string) (spaces : nat) : string :=
  let indentStr := repeatSpace spaces in
  join nl
    (List.map (fun line => if truthy (trim line) then indentStr +:+ line else line)
              (splitOn (Ascii.eqb newline) str)).

(** [s.slice(1, -1)] *)
Definition sliceInner (s : string) : string :=
  sliceTo (String.length s - 2) (sliceFrom 1 s).

(** [unwrapJsxExpression] of the link transform: the inside of a braced
    attribute value. *)
Definition unwrapJsxExpression (value : string) : option string :=
  let trimmed := trim value in
  if negb (startsWith "{" trimmed) || negb (endsWith "}" trimmed) then None
  else Some (trim (sliceInner trimmed)).

(** An opening brace, any characters other than the closing brace (the
    captured text), the closing brace. *)
Definition braceGroupAt (s : string) : option string :=
  match stripPrefix "{" s with
  | Some r =>
      let '(body, r') := span (notChar "}"%char) r in
      match stripPrefix "}" r' with
      | Some _ => Some body
      | None => None
      end
  | None => None
  end.

(** [parseImportSpecifiers] of the file-structure transform. *)
Definition parseImportSpecifiers (importText : string) : list string :=
  match firstMatch braceGroupAt importText with
  | Some captured =>
      if truthy captured then
        List.filter (fun s => 0 <? String.length s)
                    (List.map trim (splitOn (Ascii.eqb ","%char) captured))
      else []
  | None => []
  end.


(** ** Predicates and worlds of the properties of the helpers *)

(** An argument that names the option: the option itself, or the option,
    an equals sign and a value. *)
Definition namesOption (name arg : string) : bool :=
  eqs arg ("--" +:+ name) || startsWith ("--" +:+ name +:+ "=") arg.

(** A value the option can take from the next argument. *)
Definition usableValue (next : string) : bool :=
  truthy next && negb (startsWith "--" next).

(** Two worlds that differ at most in the warning flags. *)
Definition sameButWarnings (w w' : World) : Prop :=
  sameOutside w w'
  /\ routesDirCache w' = routesDirCache w
  /\ projectConfigCache w' = projectConfigCache w.

(** A project whose configuration file disables the link pass, with a
    parser that reads that file. *)
Definition linkDisabledConfig : jsval :=
  JObj [("disabledMigrations", JArr [JStr "next-link"])].

Definition parseLinkDisabled (source : string) : option jsval :=
  Some linkDisabledConfig.

Definition configuredPageFS : FS :=
  {| fs_cwd := [];
     fs_files := {[ ["app"; "about"; "page.tsx"] := "old text";
                    ["app"; "next-to-start.codemod.json"] := "{ }" ]};
     fs_dirs := {[ ["app"]; ["app"; "about"] ]} |}.

(** What a pruning step keeps: the files, the working directory, the
    capabilities; directories only go, and one that went has no entry. *)
Definition prunedFrom (w w' : World) : Prop :=
  fs_files (w_fs w') = fs_files (w_fs w)
  /\ fs_cwd (w_fs w') = fs_cwd (w_fs w)
  /\ w_caps w' = w_caps w
  /\ fs_dirs (w_fs w') ⊆ fs_dirs (w_fs w)
  /\ forall k, k ∈ fs_dirs (w_fs w) -> k ∉ fs_dirs (w_fs w') ->
               entries (w_fs w') k = [].

(** A project with a page to move and a file next to it. *)
Definition pageAndNotesFS : FS :=
  {| fs_cwd := [];
     fs_files := {[ ["app"; "about"; "page.tsx"] := "old text";
                    ["app"; "about"; "notes.md"] := "notes" ]};
     fs_dirs := {[ ["app"]; ["app"; "about"] ]} |}.

(** The world of the page to move, in a runtime that can only read. *)
Definition readOnlyCaps : Caps :=
  {| cap_readFile := true; cap_unlink := false; cap_rm := false |}.

Definition readOnlyWorld : World :=
  {| w_argv := []; w_env := ∅; w_caps := readOnlyCaps; w_fs := aboutPageFS;
     routesDirCache := ∅; projectConfigCache := ∅;
     hasLoggedDeleteWarning := false; hasLoggedConfigWarning := false |}.

(** The file is a layout that sits directly in the app directory, at the
    first occurrence of the app directory in its path. *)
Definition isRootLayoutPath (filename : string)
           (runtimeConfig : ResolvedRuntimeConfig) : bool :=
  let segments := splitOn isSep filename in
  let appDirSegments := normalizeDirSegments (appDirectory runtimeConfig) in
  match findSubPathIndex segments appDirSegments with
  | Some appIndex =>
      (length segments =? appIndex + length appDirSegments + 1)
      && isLayoutFile (List.last segments EmptyString)
  | None => false
  end.

(** A text that [trim] leaves as it is: it neither starts nor ends with
    white space. *)
Definition trimmed (s : string) : Prop :=
  (forall c r, s = String c r -> isSpace c = false)
  /\ (forall c, lastChar s = Some c -> isSpace c = false).

(** The line of [indent] for one line of the input. *)
Definition indentLine (spaces : nat) (line : string) : string :=
  if truthy (trim line) then repeatSpace spaces +:+ line else line.

(** A specifier as the parsers of import lists produce it. *)
Definition cleanSpecifier (s : string) : Prop :=
  s <> EmptyString /\ trimmed s
  /\ allChars (fun x => negb (Ascii.eqb ","%char x)) s = true
  /\ allChars (notChar "}"%char) s = true.

(** A directory segment of an ordinary path: not empty, without
    separator and without line break. *)
Definition plainSegment (segment : string) : Prop :=
  segment <> EmptyString
  /\ allChars (fun c => negb (isSep c) && negb (isLineTerminator c)) segment = true.

(** The text of a page that declares the route path /about. *)
Definition aboutRouteText : string :=
  "export const Route = createFileRoute('/about')({})".

(** A directory segment on which the rewrites of segment syntax have
    nothing to do. *)
Definition literalSegment (segment : string) : Prop :=
  plainSegment segment /\ allChars isNameChar segment = true.

(** A project at /proj in which the target of app/blog/page.tsx already
    holds the final text; the process runs in [cwd]. *)
Definition blogMovedOnce (cwd : list string) : World :=
  worldOf [] ∅
    {| fs_cwd := cwd;
       fs_files := {[ ["proj"; "app"; "blog"; "page.tsx"] := "old text";
                      ["proj"; "routes"; "blog"; "index.tsx"] := "new text" ]};
       fs_dirs := {[ ["proj"]; ["proj"; "app"]; ["proj"; "app"; "blog"];
                     ["proj"; "routes"]; ["proj"; "routes"; "blog"] ]} |}.

(** * Properties *)

(** ** Strings *)

Lemma eqs_eq (a b : string) : eqs a b = true <-> a = b.
Proof. apply String.eqb_eq. Qed.

Lemma eqs_refl (a : string) : eqs a a = true.
Proof. apply String.eqb_refl. Qed.

Lemma eqs_neq (a b : string) : eqs a b = false <-> a <> b.
Proof. apply String.eqb_neq. Qed.

Lemma app_String (c : ascii) (a b : string) :
  String c a +:+ b = String c (a +:+ b).
Proof. reflexivity. Qed.

Lemma app_Empty_l (b : string) : EmptyString +:+ b = b.
Proof. reflexivity. Qed.

Lemma app_Empty_r (a : string) : a +:+ EmptyString = a.
Proof. induction a as [|c a IH]; [reflexivity|]. rewrite app_String, IH. reflexivity. Qed.

Lemma app_assoc_s (a b c : string) : (a +:+ b) +:+ c = a +:+ (b +:+ c).
Proof.
  induction a as [|x a IH]; [reflexivity|].
  rewrite !app_String, IH. reflexivity.
Qed.

Lemma stripPrefix_app (p s : string) : stripPrefix p (p +:+ s) = Some s.
Proof.
  induction p as [|c p IH]; [reflexivity|].
  rewrite app_String. simpl. rewrite Ascii.eqb_refl. exact IH.
Qed.

Lemma stripPrefix_Some (p s r : string) : stripPrefix p s = Some r -> s = p +:+ r.
Proof.
  revert s. induction p as [|c p IH]; intros s H; simpl in H.
  - injection H as ->. reflexivity.
  - destruct s as [|d s]; [discriminate|].
    destruct (Ascii.eqb c d) eqn:E; [|discriminate].
    apply Ascii.eqb_eq in E. subst d. rewrite app_String. f_equal. auto.
Qed.

Lemma span_all (f : ascii -> bool) (a : string) :
  allChars f a = true -> span f a = (a, EmptyString).
Proof.
  induction a as [|c a IH]; simpl; [reflexivity|].
  intros [Hc Ha]%andb_true_iff. rewrite Hc, (IH Ha). reflexivity.
Qed.

Lemma span_stop (f : ascii -> bool) (a : string) (c : ascii) (r : string) :
  allChars f a = true -> f c = false ->
  span f (a +:+ String c r) = (a, String c r).
Proof.
  intros Ha Hc. induction a as [|x a IH].
  - rewrite app_Empty_l. simpl. rewrite Hc. reflexivity.
  - simpl in Ha. apply andb_true_iff in Ha as [Hx Ha].
    rewrite app_String. simpl. rewrite Hx, (IH Ha). reflexivity.
Qed.

Lemma isEmpty_false (s : string) : s <> EmptyString -> isEmpty s = false.
Proof. destruct s; [congruence|reflexivity]. Qed.

(** The anchored expression matches a run of its class between its two
    literals. *)
Lemma matchWhole_intro (pre : string) (cls : ascii -> bool) (c : ascii)
      (post run : string) :
  run <> EmptyString -> allChars cls run = true -> cls c = false ->
  matchWhole pre cls (String c post) (pre +:+ run +:+ String c post) = Some run.
Proof.
  intros Hne Hall Hc. unfold matchWhole, matchRun.
  rewrite stripPrefix_app, (span_stop _ _ _ _ Hall Hc), (isEmpty_false _ Hne).
  rewrite <- (app_Empty_r (String c post)) at 2.
  rewrite stripPrefix_app. reflexivity.
Qed.

Lemma matchWhole_intro_end (pre : string) (cls : ascii -> bool) (run : string) :
  run <> EmptyString -> allChars cls run = true ->
  matchWhole pre cls EmptyString (pre +:+ run) = Some run.
Proof.
  intros Hne Hall. unfold matchWhole, matchRun.
  rewrite stripPrefix_app, (span_all _ _ Hall), (isEmpty_false _ Hne).
  reflexivity.
Qed.

(** ** Segment mapping *)

Lemma mapRouteSegment_group (name : string) :
  name <> EmptyString -> allChars (notChar ")"%char) name = true ->
  mapRouteSegment ("(" +:+ name +:+ ")") = "_" +:+ name.
Proof.
  intros Hne Hall. unfold mapRouteSegment.
  rewrite (matchWhole_intro "(" _ ")"%char EmptyString name Hne Hall eq_refl).
  reflexivity.
Qed.

Lemma mapRouteSegment_plain (c : ascii) (rest : string) :
  c <> "("%char -> c <> "["%char ->
  mapRouteSegment (String c rest) = String c rest.
Proof.
  intros Hp Hb.
  assert (E1 : Ascii.eqb "("%char c = false) by (apply Ascii.eqb_neq; congruence).
  assert (E2 : Ascii.eqb "["%char c = false) by (apply Ascii.eqb_neq; congruence).
  unfold mapRouteSegment, matchWhole, matchRun. cbn [stripPrefix].
  rewrite E1, E2. reflexivity.
Qed.

Lemma mapRouteFilename_page (e : string) (isRootLayout : bool) :
  isExt e = true ->
  mapRouteFilename ("page." +:+ e) isRootLayout = Some ("index." +:+ e).
Proof.
  intros He. unfold mapRouteFilename, specialFile.
  change ("page" +:+ ".") with "page.". rewrite stripPrefix_app, He. reflexivity.
Qed.

(** C8: the route group, plain segment and page file of the example map
    to the pathless-group segment, the same segment and the index file
    under the routes directory. *)
Theorem C8_marketing_about_page :
  computeTanstackTargetPath "app/(marketing)/about/page.tsx" defaultConfig
    = Some "routes/_marketing/about/index.tsx"
  /\ computeTanstackTargetPath
       "/home/user/project/app/(marketing)/about/page.tsx" defaultConfig
     = Some "/home/user/project/routes/_marketing/about/index.tsx"
  /\ mapRouteSegment "(marketing)" = "_marketing"
  /\ mapRouteSegment "about" = "about"
  /\ mapRouteFilename "page.tsx" false = Some "index.tsx".
Proof. compute_conj. Qed.

(** *** The rewrites of segment syntax on the two catch-all forms *)

Lemma allChars_app (f : ascii -> bool) (a b : string) :
  allChars f (a +:+ b) = allChars f a && allChars f b.
Proof.
  induction a as [|c a IH]; [reflexivity|].
  rewrite app_String. simpl. rewrite IH, andb_assoc. reflexivity.
Qed.

Lemma allChars_weaken (f g : ascii -> bool) (s : string) :
  (forall c, f c = true -> g c = true) ->
  allChars f s = true -> allChars g s = true.
Proof.
  intros Hfg. induction s as [|c s IH]; simpl; [reflexivity|].
  intros [Hc Hs]%andb_true_iff. rewrite (Hfg c Hc), (IH Hs). reflexivity.
Qed.

Lemma gsubFuel_Empty (m : string -> option (string * string)) (fuel : nat) :
  gsubFuel m fuel EmptyString = EmptyString.
Proof. destruct fuel; reflexivity. Qed.

Lemma gsubFuel_match (m : string -> option (string * string)) (fuel : nat)
      (c : ascii) (s out rest : string) :
  m (String c s) = Some (out, rest) ->
  gsubFuel m (S fuel) (String c s) = out +:+ gsubFuel m fuel rest.
Proof. intros H. simpl. rewrite H. reflexivity. Qed.

Lemma gsubFuel_skip (m : string -> option (string * string)) (fuel : nat)
      (c : ascii) (s : string) :
  m (String c s) = None ->
  gsubFuel m (S fuel) (String c s) = String c (gsubFuel m fuel s).
Proof. intros H. simpl. rewrite H. reflexivity. Qed.

(** A matcher that needs the character [c0] first leaves a text without
    [c0] as it is. *)
Lemma gsubFuel_id (m : string -> option (string * string)) (c0 : ascii) :
  (forall c r, c <> c0 -> m (String c r) = None) ->
  forall fuel s, allChars (notChar c0) s = true -> gsubFuel m fuel s = s.
Proof.
  intros Hm. induction fuel as [|fuel IH]; intros s Hs; [reflexivity|].
  destruct s as [|c s]; [reflexivity|].
  simpl in Hs. apply andb_true_iff in Hs as [Hc Hs].
  rewrite gsubFuel_skip.
  - rewrite (IH s Hs). reflexivity.
  - apply Hm. intros ->. unfold notChar in Hc. rewrite Ascii.eqb_refl in Hc.
    discriminate.
Qed.

Lemma matchRun_needs_first (c0 : ascii) (pre : string) (cls : ascii -> bool)
      (post : string) (c : ascii) (r : string) :
  c <> c0 -> matchRun (String c0 pre) cls post (String c r) = None.
Proof.
  intros Hne. unfold matchRun. simpl.
  destruct (Ascii.eqb_spec c0 c); [congruence|reflexivity].
Qed.

Lemma matchRun_intro (pre : string) (cls : ascii -> bool) (c : ascii)
      (post run rest : string) :
  run <> EmptyString -> allChars cls run = true -> cls c = false ->
  matchRun pre cls (String c post) (pre +:+ run +:+ String c post +:+ rest)
  = Some (run, rest).
Proof.
  intros Hne Hall Hc. unfold matchRun.
  rewrite stripPrefix_app.
  change (String c post +:+ rest) with (String c (post +:+ rest)).
  rewrite (span_stop _ _ _ _ Hall Hc), (isEmpty_false _ Hne).
  change (String c (post +:+ rest)) with (String c post +:+ rest).
  rewrite stripPrefix_app. reflexivity.
Qed.

(** On a name without parentheses and brackets, the rewrites shared by
    the three route-path functions turn both catch-all forms into the
    splat token. *)
Lemma rewriteSegmentSyntax_catch_all (name : string) :
  name <> EmptyString -> allChars isNameChar name = true ->
  rewriteSegmentSyntax ("[..." +:+ name +:+ "]") = "$"
  /\ rewriteSegmentSyntax ("[[..." +:+ name +:+ "]]") = "$".
Proof.
  intros Hne Hall.
  assert (Hp : allChars (notChar "("%char) name = true).
  { apply (allChars_weaken isNameChar); [|exact Hall].
    unfold isNameChar. intros c H. apply andb_true_iff in H as [H _].
    apply andb_true_iff in H as [H _]. exact H. }
  assert (Hb : allChars (notChar "["%char) name = true).
  { apply (allChars_weaken isNameChar); [|exact Hall].
    unfold isNameChar. intros c H. apply andb_true_iff in H as [H _].
    apply andb_true_iff in H as [_ H]. exact H. }
  assert (Hc : allChars (notChar "]"%char) name = true).
  { apply (allChars_weaken isNameChar); [|exact Hall].
    unfold isNameChar. intros c H. apply andb_true_iff in H as [_ H]. exact H. }
  assert (Hgroup : forall s fuel, allChars (notChar "("%char) s = true ->
                                  gsubFuel groupAt fuel s = s).
  { intros s fuel. apply (gsubFuel_id groupAt "("%char).
    intros c r Hcr. unfold groupAt.
    rewrite (matchRun_needs_first "("%char EmptyString _ _ c r Hcr). reflexivity. }
  assert (Hopt : forall s fuel, allChars (notChar "["%char) s = true ->
                                gsubFuel optionalCatchAllAt fuel s = s).
  { intros s fuel. apply (gsubFuel_id optionalCatchAllAt "["%char).
    intros c r Hcr. unfold optionalCatchAllAt.
    rewrite (matchRun_needs_first "["%char "[..." _ _ c r Hcr). reflexivity. }
  unfold rewriteSegmentSyntax. split.
  - assert (G1 : gsub groupAt ("[..." +:+ name +:+ "]") = "[..." +:+ name +:+ "]").
    { apply Hgroup. rewrite !allChars_app, Hp. reflexivity. }
    rewrite G1.
    assert (G2 : gsub optionalCatchAllAt ("[..." +:+ name +:+ "]")
                 = "[..." +:+ name +:+ "]").
    { unfold gsub. change ("[..." +:+ name +:+ "]")
        with (String "[" ("..." +:+ name +:+ "]")).
      cbn [String.length]. rewrite gsubFuel_skip by reflexivity.
      rewrite Hopt; [reflexivity|]. rewrite !allChars_app, Hb. reflexivity. }
    rewrite G2.
    assert (G3 : gsub catchAllAt ("[..." +:+ name +:+ "]") = "$").
    { unfold gsub. change ("[..." +:+ name +:+ "]")
        with (String "[" ("..." +:+ name +:+ "]")).
      cbn [String.length].
      rewrite (gsubFuel_match catchAllAt _ "["%char _ "$" EmptyString).
      - rewrite gsubFuel_Empty. reflexivity.
      - unfold catchAllAt.
        change (String "[" ("..." +:+ name +:+ "]"))
          with ("[..." +:+ name +:+ "]" +:+ EmptyString).
        rewrite (matchRun_intro "[..." _ "]"%char EmptyString name EmptyString
                   Hne Hc eq_refl).
        reflexivity. }
    rewrite G3. reflexivity.
  - assert (G1 : gsub groupAt ("[[..." +:+ name +:+ "]]") = "[[..." +:+ name +:+ "]]").
    { apply Hgroup. rewrite !allChars_app, Hp. reflexivity. }
    rewrite G1.
    assert (G2 : gsub optionalCatchAllAt ("[[..." +:+ name +:+ "]]") = "$").
    { unfold gsub. change ("[[..." +:+ name +:+ "]]")
        with (String "[" ("[..." +:+ name +:+ "]]")).
      cbn [String.length].
      rewrite (gsubFuel_match optionalCatchAllAt _ "["%char _ "$" EmptyString).
      - rewrite gsubFuel_Empty. reflexivity.
      - unfold optionalCatchAllAt.
        change (String "[" ("[..." +:+ name +:+ "]]"))
          with ("[[..." +:+ name +:+ "]]" +:+ EmptyString).
        rewrite (matchRun_intro "[[..." _ "]"%char "]" name EmptyString
                   Hne Hc eq_refl).
        reflexivity. }
    rewrite G2. reflexivity.
Qed.

(** C9: a required and an optional catch-all segment of the same name map
    to the same splat token in the target path; and, for a name without
    parentheses and brackets, the rewrites of the route-path functions turn
    both forms into that token too. *)
Theorem C9_catch_all_same_token (name : string) :
  name <> EmptyString ->
  allChars (notChar "]"%char) name = true ->
  mapRouteSegment ("[..." +:+ name +:+ "]") = "$"
  /\ mapRouteSegment ("[[..." +:+ name +:+ "]]") = "$"
  /\ mapRouteSegment ("[..." +:+ name +:+ "]")
     = mapRouteSegment ("[[..." +:+ name +:+ "]]")
  /\ (allChars isNameChar name = true ->
      rewriteSegmentSyntax ("[..." +:+ name +:+ "]")
      = rewriteSegmentSyntax ("[[..." +:+ name +:+ "]]")).
Proof.
  intros Hne Hall.
  assert (A : mapRouteSegment ("[..." +:+ name +:+ "]") = "$").
  { unfold mapRouteSegment.
    assert (H1 : matchWhole "(" (notChar ")"%char) ")" ("[..." +:+ name +:+ "]") = None)
      by reflexivity.
    assert (H2 : matchWhole "[[..." (notChar "]"%char) "]]" ("[..." +:+ name +:+ "]") = None)
      by reflexivity.
    rewrite H1, H2.
    rewrite (matchWhole_intro "[..." _ "]"%char EmptyString name Hne Hall eq_refl).
    reflexivity. }
  assert (B : mapRouteSegment ("[[..." +:+ name +:+ "]]") = "$").
  { unfold mapRouteSegment.
    assert (H1 : matchWhole "(" (notChar ")"%char) ")" ("[[..." +:+ name +:+ "]]") = None)
      by reflexivity.
    rewrite H1.
    rewrite (matchWhole_intro "[[..." _ "]"%char "]" name Hne Hall eq_refl).
    reflexivity. }
  rewrite A, B. repeat split.
  intros Hname. destruct (rewriteSegmentSyntax_catch_all name Hne Hname) as [-> ->].
  reflexivity.
Qed.

Lemma C9_catch_all_witness :
  mapRouteSegment "[...slug]" = "$"
  /\ mapRouteSegment "[[...slug]]" = "$"
  /\ mapRouteSegment "[...slug]" = mapRouteSegment "[[...slug]]"
  /\ rewriteSegmentSyntax "[...slug]" = rewriteSegmentSyntax "[[...slug]]".
Proof.
  destruct (C9_catch_all_same_token "slug" ltac:(discriminate) eq_refl)
    as (H1 & H2 & H3 & H4).
  exact (conj H1 (conj H2 (conj H3 (H4 eq_refl)))).
Defined.

(** ** Pass enablement *)

Lemma normalizeMigrationId_Some (v id : string) :
  normalizeMigrationId v = Some id <-> id = v /\ v ∈ MIGRATION_IDS.
Proof.
  unfold normalizeMigrationId.
  destruct (existsb (eqs v) MIGRATION_IDS) eqn:E.
  - apply existsb_exists in E as (x & Hx & Hv). apply eqs_eq in Hv. subst x.
    split; [intros [= <-]; split; [reflexivity|by apply list_elem_of_In]|].
    intros [-> _]. reflexivity.
  - split; [discriminate|]. intros [_ Hin].
    assert (existsb (eqs v) MIGRATION_IDS = true); [|congruence].
    apply existsb_exists. exists v. split; [by apply list_elem_of_In|apply eqs_refl].
Qed.

Lemma normalizeMigrationId_known (id : string) :
  id ∈ MIGRATION_IDS -> normalizeMigrationId id = Some id.
Proof. intros H. apply normalizeMigrationId_Some. auto. Qed.

Lemma elem_of_stringsOf (id : string) (xs : list jsval) :
  id ∈ stringsOf xs <-> JStr id ∈ xs.
Proof.
  unfold stringsOf. rewrite list_elem_of_omap. split.
  - intros (v & Hv & Hs). destruct v; try discriminate. by injection Hs as ->.
  - intros H. exists (JStr id). auto.
Qed.

Lemma elem_of_addRaw (id : string) (enabled : gset string) (raw : jsval) :
  id ∈ addRaw enabled raw <->
  id ∈ enabled \/ (raw = JStr id /\ id ∈ MIGRATION_IDS).
Proof.
  unfold addRaw. destruct raw as [| |b|n|s|xs|fs]; try (split; [auto|intros [?|[? _]]; [done|discriminate]]).
  destruct (normalizeMigrationId s) as [k|] eqn:E.
  - apply normalizeMigrationId_Some in E as [-> Hk].
    rewrite elem_of_union, elem_of_singleton. split.
    + intros [?| ->]; auto.
    + intros [?|[[= ->] _]]; auto.
  - split; [auto|]. intros [?|[[= ->] Hk]]; [done|].
    rewrite (normalizeMigrationId_known _ Hk) in E. discriminate.
Qed.

Lemma elem_of_deleteRaw (id : string) (enabled : gset string) (raw : jsval) :
  id ∈ deleteRaw enabled raw <->
  id ∈ enabled /\ ~ (raw = JStr id /\ id ∈ MIGRATION_IDS).
Proof.
  unfold deleteRaw.
  destruct raw as [| |b|n|s|xs|fs];
    try (split; [intros ?; split; [done|intros [? _]; discriminate]|intros [? _]; done]).
  destruct (normalizeMigrationId s) as [k|] eqn:E.
  - apply normalizeMigrationId_Some in E as [-> Hk].
    rewrite elem_of_difference, elem_of_singleton. split.
    + intros [Hin Hne]. split; [done|]. intros [[= ->] _]. done.
    + intros [Hin Hn]. split; [done|]. intros ->. apply Hn. auto.
  - split; [|intros [? _]; done]. intros Hin. split; [done|].
    intros [[= ->] Hk]. rewrite (normalizeMigrationId_known _ Hk) in E. discriminate.
Qed.

Lemma elem_of_foldl_addRaw (id : string) (xs : list jsval) (enabled : gset string) :
  id ∈ foldl addRaw enabled xs <->
  id ∈ enabled \/ (id ∈ stringsOf xs /\ id ∈ MIGRATION_IDS).
Proof.
  revert enabled. induction xs as [|x xs IH]; intros enabled.
  - simpl. split; [auto|]. intros [?|[H _]]; [done|].
    by apply elem_of_nil in H.
  - change (foldl addRaw enabled (x :: xs)) with (foldl addRaw (addRaw enabled x) xs).
    rewrite IH, elem_of_addRaw, !elem_of_stringsOf, elem_of_cons. naive_solver.
Qed.

Lemma elem_of_foldl_deleteRaw (id : string) (xs : list jsval) (enabled : gset string) :
  id ∈ foldl deleteRaw enabled xs <->
  id ∈ enabled /\ ~ (id ∈ stringsOf xs /\ id ∈ MIGRATION_IDS).
Proof.
  revert enabled. induction xs as [|x xs IH]; intros enabled.
  - simpl. split; [|intros [? _]; done].
    intros Hin. split; [done|]. intros [H _].
    by apply elem_of_nil in H.
  - change (foldl deleteRaw enabled (x :: xs))
      with (foldl deleteRaw (deleteRaw enabled x) xs).
    rewrite IH, elem_of_deleteRaw, !elem_of_stringsOf, elem_of_cons. naive_solver.
Qed.

Lemma elem_of_applyToggle (id : string) (enabled : gset string) (k : string) (v : jsval) :
  id ∈ MIGRATION_IDS ->
  id ∈ applyToggle enabled (k, v) <->
  match (if eqs k id then match v with JBool b => Some b | _ => None end else None) with
  | Some b => b = true
  | None => id ∈ enabled
  end.
Proof.
  intros Hk. unfold applyToggle. simpl.
  destruct (eqs k id) eqn:E.
  - apply eqs_eq in E. subst k. rewrite (normalizeMigrationId_known _ Hk).
    destruct v as [| |[|]|n|s|xs|fs]; try reflexivity.
    + rewrite elem_of_union, elem_of_singleton. naive_solver.
    + rewrite elem_of_difference, elem_of_singleton. naive_solver.
  - apply eqs_neq in E.
    destruct (normalizeMigrationId k) as [k'|] eqn:N; [|reflexivity].
    apply normalizeMigrationId_Some in N as [-> _].
    destruct v as [| |[|]|n|s|xs|fs]; try reflexivity.
    + rewrite elem_of_union, elem_of_singleton. naive_solver.
    + rewrite elem_of_difference, elem_of_singleton. naive_solver.
Qed.

Lemma elem_of_foldl_applyToggle (id : string) (fields : list (string * jsval))
      (enabled : gset string) :
  id ∈ MIGRATION_IDS ->
  id ∈ foldl applyToggle enabled fields <->
  match lastToggle id fields with
  | Some b => b = true
  | None => id ∈ enabled
  end.
Proof.
  intros Hk. revert enabled.
  induction fields as [|[k v] fields IH]; intros enabled; simpl; [reflexivity|].
  rewrite IH. destruct (lastToggle id fields) as [b|]; [reflexivity|].
  apply elem_of_applyToggle. exact Hk.
Qed.

Lemma foldl_applyToggle_known (id : string) (fields : list (string * jsval))
      (enabled : gset string) :
  id ∉ MIGRATION_IDS ->
  id ∈ foldl applyToggle enabled fields <-> id ∈ enabled.
Proof.
  intros Hk. revert enabled.
  induction fields as [|[k v] fields IH]; intros enabled; simpl; [reflexivity|].
  rewrite IH. unfold applyToggle. simpl.
  destruct (normalizeMigrationId k) as [k'|] eqn:N; [|reflexivity].
  apply normalizeMigrationId_Some in N as [-> Hin].
  destruct v as [| |[|]|n|s|xs|fs]; try reflexivity.
  - rewrite elem_of_union, elem_of_singleton. naive_solver.
  - rewrite elem_of_difference, elem_of_singleton. naive_solver.
Qed.

Lemma elem_of_enabled1 (config : jsval) (id : string) :
  id ∈ match prop "enabledMigrations" config with
       | JArr (x :: xs) => foldl addRaw ∅ (x :: xs)
       | _ => list_to_set MIGRATION_IDS
       end
  <-> id ∈ MIGRATION_IDS /\ id ∈ allowList config.
Proof.
  unfold allowList.
  destruct (prop "enabledMigrations" config) as [| |b|n|s|[|x xs]|fs];
    try (rewrite elem_of_list_to_set; naive_solver).
  rewrite elem_of_foldl_addRaw. set_solver.
Qed.

Lemma resolveEnabledMigrations_layers (config : jsval) (id : string) :
  id ∈ resolveEnabledMigrations config <-> enabledByLayers allowList config id.
Proof.
  unfold resolveEnabledMigrations, enabledByLayers, toggleOf, denyList.
  set (e1 := match prop "enabledMigrations" config with
             | JArr (x :: xs) => foldl addRaw ∅ (x :: xs)
             | _ => list_to_set MIGRATION_IDS
             end).
  assert (H1 : forall i, i ∈ e1 <-> i ∈ MIGRATION_IDS /\ i ∈ allowList config)
    by (intros i; apply elem_of_enabled1).
  set (e2 := match prop "disabledMigrations" config with
             | JArr xs => foldl deleteRaw e1 xs
             | _ => e1
             end).
  assert (H2 : id ∈ e2 <->
               id ∈ MIGRATION_IDS /\ id ∈ allowList config /\
               id ∉ match prop "disabledMigrations" config with
                    | JArr xs => stringsOf xs
                    | _ => []
                    end).
  { subst e2. destruct (prop "disabledMigrations" config) as [| |b|n|s|xs|fs];
      try (rewrite H1; split; [intros [? ?]; repeat split; [done..|apply not_elem_of_nil]|naive_solver]).
    rewrite elem_of_foldl_deleteRaw, H1. naive_solver. }
  destruct (decide (id ∈ MIGRATION_IDS)) as [Hk|Hk].
  - destruct (prop "migrations" config) as [| |b|n|s|xs|fields];
      try (rewrite H2; naive_solver).
    rewrite (elem_of_foldl_applyToggle id fields e2 Hk).
    destruct (lastToggle id fields); [naive_solver|]. rewrite H2. naive_solver.
  - split; [|naive_solver]. intros Hin. exfalso. apply Hk.
    destruct (prop "migrations" config) as [| |b|n|s|xs|fields];
      try (apply H2 in Hin; naive_solver).
    apply (foldl_applyToggle_known id fields e2 Hk) in Hin. apply H2 in Hin. naive_solver.
Qed.

(** C7, as the code resolves it: an id is enabled exactly when it is a
    known id and either its last boolean switch in [migrations] is true, or
    it has no such switch, is on the allow-list ([enabledMigrations] when
    that is a non-empty array, every known id otherwise) and is not on the
    deny-list; unknown ids and values of the wrong type have no effect. *)
Theorem C7_enablement_layers (config : jsval) (id : string) :
  id ∈ resolveEnabledMigrations config <-> enabledByLayers allowList config id.
Proof. apply resolveEnabledMigrations_layers. Qed.

(** An empty [enabledMigrations] array does not empty the allow-list: every
    pass stays enabled, against the reading in which only an absent
    allow-list defaults to every known id. *)
Lemma C7_empty_allow_list_counterexample :
  let config := JObj [("enabledMigrations", JArr [])] in
  "next-image" ∈ resolveEnabledMigrations config
  /\ ~ enabledByLayers allowListWhenAbsent config "next-image".
Proof.
  split.
  - apply resolveEnabledMigrations_layers. split; [|split].
    + set_solver.
    + simpl. set_solver.
    + simpl. apply not_elem_of_nil.
  - intros [_ H]. simpl in H. destruct H as [H _]. by apply elem_of_nil in H.
Qed.

(** ** Effects of the configuration code *)

Lemma bind_inr {A B} (m : Eff A) (k : A -> Eff B) (w w' : World) (a : A) :
  m w = (inr a, w') -> bind m k w = k a w'.
Proof. intros H. unfold bind. rewrite H. reflexivity. Qed.

Lemma bind_getWorld {B} (k : World -> Eff B) (w : World) :
  bind getWorld k w = k w w.
Proof. reflexivity. Qed.

Lemma sameOutside_refl (w : World) : sameOutside w w.
Proof. repeat split. Qed.

Lemma sameOutside_trans (w1 w2 w3 : World) :
  sameOutside w1 w2 -> sameOutside w2 w3 -> sameOutside w1 w3.
Proof. unfold sameOutside. intros (?&?&?&?) (?&?&?&?). repeat split; congruence. Qed.

Lemma existsFile_pure (path : string) (w : World) :
  exists b, existsFile path w = (inr b, w).
Proof.
  unfold existsFile, tryCatch, bind, fsp_access, ret.
  destruct (isFile _ _ || isDir _ _); eauto.
Qed.

Lemma readTextFile_pure (path : string) (w : World) :
  exists r, readTextFile path w = (inr r, w).
Proof.
  unfold readTextFile, tryCatch, bind, getWorld, fsp_readFile, ret.
  destruct (cap_readFile (w_caps w)); simpl; [|eauto].
  destruct (fs_files (w_fs w) !! _); eauto.
Qed.

Lemma firstExisting_pure (paths : list string) (w : World) :
  exists r, firstExisting paths w = (inr r, w).
Proof.
  induction paths as [|p paths IH]; simpl; [unfold ret; eauto|].
  destruct (existsFile_pure p w) as [b Hb].
  rewrite (bind_inr _ _ _ _ _ Hb). destruct b; [unfold ret; eauto|exact IH].
Qed.

Lemma findNearestLoop_pure (fuel : nat) (dir : string) (cands : list string) (w : World) :
  exists r, findNearestLoop fuel dir cands w = (inr r, w).
Proof.
  revert dir. induction fuel as [|fuel IH]; intros dir; simpl; [unfold ret; eauto|].
  destruct (firstExisting_pure
              (List.map (fun c => trimTrailingSlash dir +:+ "/" +:+ c) cands) w)
    as [hit Hhit].
  rewrite (bind_inr _ _ _ _ _ Hhit).
  destruct hit; [unfold ret; eauto|].
  destruct (isEmpty (dirname dir) || eqs (dirname dir) "." || eqs (dirname dir) dir);
    [unfold ret; eauto|apply IH].
Qed.

Lemma findNearestFile_pure (start : string) (cands : list string) (w : World) :
  exists r, findNearestFile start cands w = (inr r, w).
Proof. apply findNearestLoop_pure. Qed.

Lemma warnConfigOnce_ok (w : World) :
  exists w', warnConfigOnce w = (inr tt, w') /\ sameOutside w w'.
Proof.
  unfold warnConfigOnce, bind, getWorld, modify, ret.
  destruct (hasLoggedConfigWarning w); eexists; split; try reflexivity;
    repeat split.
Qed.

Lemma loadRoutesDirectory_scanned (root : string) (w : World) :
  exists w',
    loadRoutesDirectory root w
    = (inr (normalizeRoutesDirectory (default "routes" (viteScanned root w))), w')
    /\ sameOutside w w'.
Proof.
  unfold loadRoutesDirectory, viteScanned.
  destruct (findNearestFile_pure root viteConfigNames w) as [file Hfile].
  rewrite (bind_inr _ _ _ _ _ Hfile), Hfile.
  destruct file as [file|]; [|exists w; split; [reflexivity|apply sameOutside_refl]].
  destruct (readTextFile_pure file w) as [text Htext].
  rewrite (bind_inr _ _ _ _ _ Htext), Htext.
  destruct text as [text|].
  - destruct (truthy text).
    + exists w. split; [reflexivity|apply sameOutside_refl].
    + destruct (warnConfigOnce_ok w) as (w' & Hw & Hs).
      exists w'. rewrite (bind_inr _ _ _ _ _ Hw). split; [reflexivity|exact Hs].
  - destruct (warnConfigOnce_ok w) as (w' & Hw & Hs).
    exists w'. rewrite (bind_inr _ _ _ _ _ Hw). split; [reflexivity|exact Hs].
Qed.

(** ** Precedence of the routes directory *)

Lemma firstNormalizedParam_truthy (params : jsval) (keys : list string) (p : string) :
  firstNormalizedParam params keys = Some p -> truthy p = true.
Proof.
  induction keys as [|k keys IH]; simpl; [discriminate|].
  destruct (prop k params); auto.
  destruct (truthy (normalizeRoutesDirectory s)) eqn:E; auto.
  intros [= <-]. exact E.
Qed.

Lemma optionsOverride_truthy (options : jsval) (p : string) :
  getRoutesDirectoryOverrideFromOptions options = Some p -> truthy p = true.
Proof.
  unfold getRoutesDirectoryOverrideFromOptions.
  destruct (negb (isObjectLike options)); [discriminate|].
  destruct (negb (isObjectLike (prop "params" options))); [discriminate|].
  apply firstNormalizedParam_truthy.
Qed.

(** C1, as the code resolves it: the routes directory of the project
    configuration file wins over everything; then the per-invocation
    parameter; then the command-line option; then the environment
    variable; then, when the file name has a marker of the app directory,
    the cached value for the guessed project root or else the value scanned
    out of the build-tool configuration; and last the default. *)
Theorem C1_routes_directory_precedence
        (filename : string) (projectConfig options : jsval) (w : World) :
  let param := getRoutesDirectoryOverrideFromOptions options in
  let r := getConfiguredRoutesDirectory filename projectConfig param w in
  match configRoutesDirectory projectConfig, param,
        normalizedIfAny (readCliOption w "routes-directory"),
        normalizedIfAny (envRoutesDirectory w) with
  | Some fromConfig, _, _, _ => r = (inr fromConfig, w)
  | None, Some fromParam, _, _ => r = (inr (normalizeRoutesDirectory fromParam), w)
  | None, None, Some fromCli, _ => r = (inr (normalizeRoutesDirectory fromCli), w)
  | None, None, None, Some fromEnv => r = (inr (normalizeRoutesDirectory fromEnv), w)
  | None, None, None, None =>
      match projectRootGuessOf filename projectConfig with
      | None => r = (inr "routes", w)
      | Some root =>
          match routesDirCache w !! normalizePath root with
          | Some cached => r = (inr cached, w)
          | None =>
              fst r = inr (normalizeRoutesDirectory
                             (default "routes" (viteScanned root w)))
              /\ sameOutside w (snd r)
          end
      end
  end.
Proof.
  intros param r. subst r. unfold getConfiguredRoutesDirectory.
  destruct (configRoutesDirectory projectConfig) as [c|]; [reflexivity|].
  rewrite bind_getWorld.
  destruct param as [p|] eqn:Hp.
  { rewrite (optionsOverride_truthy _ _ Hp). reflexivity. }
  unfold getRoutesDirectoryOverride.
  destruct (normalizedIfAny (readCliOption w "routes-directory")) as [c|];
    [reflexivity|].
  destruct (normalizedIfAny (envRoutesDirectory w)) as [e|]; [reflexivity|].
  unfold projectRootGuessOf.
  destruct (lastIndexOf _ (normalizePath filename)) as [m|]; [|reflexivity].
  set (root := if truthy (sliceTo m (normalizePath filename))
               then sliceTo m (normalizePath filename) else ".").
  destruct (routesDirCache w !! normalizePath root) as [cached|]; [reflexivity|].
  destruct (loadRoutesDirectory_scanned root w) as (w' & Hload & Hs).
  rewrite (bind_inr _ _ _ _ _ Hload). unfold bind, modify, ret. simpl.
  split; [reflexivity|]. destruct Hs as (?&?&?&?). repeat split; assumption.
Qed.

(** With a routes directory both in the project configuration file and in
    the per-invocation parameter, the one of the configuration file is
    resolved, not the one of the parameter. *)
Lemma C1_parameter_does_not_override_config :
  let projectConfig := JObj [("routesDirectory", JStr "app")] in
  let options := JObj [("params", JObj [("routesDirectory", JStr "src/routes")])] in
  getRoutesDirectoryOverrideFromOptions options = Some "src/routes"
  /\ getConfiguredRoutesDirectory "/proj/app/page.tsx" projectConfig
       (getRoutesDirectoryOverrideFromOptions options) emptyWorld
     = (inr "app", emptyWorld).
Proof. split; reflexivity. Qed.

(** ** Route paths start with a slash and lose one trailing slash *)

Lemma endsWith_iff (p s : string) :
  endsWith p s = true <-> exists r, s = r +:+ p.
Proof.
  induction s as [|c s IH]; simpl.
  - rewrite orb_false_r. split.
    + intros H%eqs_eq. exists EmptyString. subst. reflexivity.
    + intros [r Hr]. apply eqs_eq. destruct r; [rewrite app_Empty_l in Hr; congruence|].
      rewrite app_String in Hr. discriminate.
  - rewrite orb_true_iff, IH. split.
    + intros [H%eqs_eq|[r Hr]].
      * exists EmptyString. subst. reflexivity.
      * exists (String c r). rewrite app_String. congruence.
    + intros [r Hr]. destruct r as [|d r].
      * left. apply eqs_eq. rewrite app_Empty_l in Hr. congruence.
      * right. rewrite app_String in Hr. injection Hr as -> ->. eauto.
Qed.

Lemma stripSuffix_Some (p s r : string) :
  stripSuffix p s = Some r -> s = r +:+ p.
Proof.
  revert r. induction s as [|c s IH]; intros r; simpl.
  - destruct (eqs p EmptyString) eqn:E; [|discriminate].
    apply eqs_eq in E. intros [= <-]. subst. reflexivity.
  - destruct (eqs p (String c s)) eqn:E.
    + apply eqs_eq in E. intros [= <-]. subst. reflexivity.
    + destruct (stripSuffix p s) as [r'|]; [|discriminate].
      intros [= <-]. rewrite app_String. f_equal. auto.
Qed.

Lemma stripSuffix_None (p s : string) :
  stripSuffix p s = None -> endsWith p s = false.
Proof.
  induction s as [|c s IH]; simpl.
  - destruct (eqs p EmptyString); [discriminate|reflexivity].
  - destruct (eqs p (String c s)); [discriminate|].
    destruct (stripSuffix p s); [discriminate|]. auto.
Qed.

Lemma closeRoutePath_shape (body : string) :
  routePathShape body (closeRoutePath body).
Proof.
  unfold routePathShape, closeRoutePath.
  set (p1 := if startsWith "/" body then body else "/" +:+ body).
  assert (Hp1 : exists q, p1 = String "/" q
                          /\ (endsWith "//" p1 = true -> endsWith "//" body = true)).
  { subst p1. destruct (startsWith "/" body) eqn:E.
    - unfold startsWith in E. destruct (stripPrefix "/" body) as [q|] eqn:Eq; [|discriminate].
      apply stripPrefix_Some in Eq. exists q. split; [exact Eq|auto].
    - exists body. split; [reflexivity|].
      intros [r Hr]%endsWith_iff. apply endsWith_iff.
      destruct r as [|c r].
      + rewrite app_Empty_l in Hr. change ("/" +:+ body) with (String "/" body) in Hr.
        injection Hr as ->. discriminate.
      + change ("/" +:+ body) with (String "/" body) in Hr.
        rewrite app_String in Hr. injection Hr as -> ->. eauto. }
  destruct Hp1 as (q & -> & Hbody).
  unfold stripOneTrailingSlash.
  destruct (stripSuffix "/" (String "/" q)) as [r|] eqn:E.
  - apply stripSuffix_Some in E.
    destruct r as [|c r].
    + simpl. split; [reflexivity|auto].
    + rewrite app_String in E. injection E as <- ->.
      cbn [truthy isEmpty negb]. split; [reflexivity|].
      intros [t Ht]%endsWith_iff.
      destruct t as [|d t].
      * rewrite app_Empty_l in Ht. injection Ht as ->. left. reflexivity.
      * rewrite app_String in Ht. injection Ht as <- ->.
        right. apply Hbody. apply endsWith_iff.
        exists (String "/" t). rewrite !app_String, app_assoc_s. reflexivity.
  - cbn [truthy isEmpty negb]. split; [reflexivity|].
    intros H. apply stripSuffix_None in E. congruence.
Qed.

Lemma closeRoutePath_normalized (body : string) :
  endsWith "//" body = false -> normalizedRoutePath (closeRoutePath body).
Proof.
  intros Hbody. destruct (closeRoutePath_shape body) as [Hstart Hend].
  split; [exact Hstart|].
  destruct (endsWith "/" (closeRoutePath body)) eqn:E; [|right; reflexivity].
  destruct (Hend eq_refl) as [H|H]; [left; exact H|congruence].
Qed.

(** ** Exclusion from relocation *)

Lemma splitOn_no_sep (f : ascii -> bool) (s : string) :
  Forall (fun seg => allChars (fun c => negb (f c)) seg = true) (splitOn f s).
Proof.
  induction s as [|c s IH]; simpl.
  - constructor; [reflexivity|constructor].
  - destruct (f c) eqn:E.
    + constructor; [reflexivity|exact IH].
    + destruct (splitOn f s) as [|h t].
      * constructor; [simpl; rewrite E; reflexivity|constructor].
      * inversion IH; subst.
        constructor; [simpl; rewrite E; simpl; assumption|assumption].
Qed.

Lemma leading_char_segment (c : ascii) (seg : string) :
  startsWith (String c EmptyString) seg = true ->
  2 <= String.length seg ->
  allChars (fun x => negb (isSep x)) seg = true ->
  matchWhole (String c EmptyString) (fun x => negb (isSep x)) EmptyString seg
  <> None.
Proof.
  intros Hs Hlen Hall. unfold startsWith in Hs.
  destruct (stripPrefix (String c EmptyString) seg) as [rest|] eqn:E; [|discriminate].
  apply stripPrefix_Some in E. subst seg.
  change (String c EmptyString +:+ rest) with (String c rest) in *.
  simpl in Hall. apply andb_true_iff in Hall as [_ Hall].
  destruct rest as [|d rest]; [simpl in Hlen; lia|].
  change (String c (String d rest)) with (String c EmptyString +:+ String d rest).
  rewrite (matchWhole_intro_end _ _ (String d rest) ltac:(discriminate) Hall).
  discriminate.
Qed.

Lemma isPrefixOf_app (needle rest : list string) :
  isPrefixOf needle (needle ++ rest) = true.
Proof.
  induction needle as [|a needle IH]; simpl; [reflexivity|].
  rewrite eqs_refl. exact IH.
Qed.

Lemma findSubPathFrom_occurs (needle pre rest : list string) (j : nat) :
  isPrefixOf needle rest = true ->
  exists i, findSubPathFrom needle (pre ++ rest) j = Some i
            /\ j <= i /\ i <= j + length pre.
Proof.
  intros Hocc. revert j. induction pre as [|x pre IH]; intros j.
  - simpl. destruct rest; simpl; rewrite Hocc; exists j; (split; [reflexivity|lia]).
  - cbn [app findSubPathFrom].
    destruct (isPrefixOf needle (x :: pre ++ rest)).
    + exists j. split; [reflexivity|simpl; lia].
    + destruct (IH (S j)) as (i & Hi & ? & ?). exists i.
      split; [exact Hi|simpl; lia].
Qed.

Lemma findSubPathIndex_occurs (needle pre rest : list string) :
  needle <> [] ->
  exists i, findSubPathIndex (pre ++ needle ++ rest) needle = Some i
            /\ i <= length pre.
Proof.
  intros Hne. unfold findSubPathIndex.
  assert ((length needle =? 0) = false) as ->.
  { apply Nat.eqb_neq. destruct needle; [congruence|simpl; lia]. }
  assert ((length (pre ++ needle ++ rest) <? length needle) = false) as ->.
  { apply Nat.ltb_ge. rewrite !length_app. lia. }
  simpl.
  destruct (findSubPathFrom_occurs needle pre (needle ++ rest) 0
              (isPrefixOf_app needle rest)) as (i & Hi & _ & Hle).
  exists i. split; [exact Hi|exact Hle].
Qed.

(** The segments between the end of the first occurrence of the app
    directory and the file name contain those after any occurrence. *)
Lemma relative_segments_suffix (front dirs : list string) (base : string) (e : nat) :
  e <= length front ->
  firstn (length (front ++ dirs ++ [base]) - 1 - e)
         (skipn e (front ++ dirs ++ [base]))
  = skipn e front ++ dirs.
Proof.
  intros He.
  rewrite skipn_app.
  replace (e - length front) with 0 by lia. rewrite skipn_O.
  rewrite firstn_app, length_skipn, !length_app.
  replace (length front + (length dirs + length [base]) - 1 - e
           - (length front - e)) with (length dirs) by (simpl; lia).
  rewrite firstn_all2 by (rewrite length_skipn; simpl; lia).
  rewrite firstn_app, firstn_all, Nat.sub_diag. simpl. rewrite app_nil_r.
  reflexivity.
Qed.

Lemma existsb_suffix (P : string -> bool) (xs ys : list string) (y : string) :
  y ∈ ys -> P y = true -> existsb P (xs ++ ys) = true.
Proof.
  intros Hin HP. apply existsb_exists. exists y. split; [|exact HP].
  apply in_or_app. right. by apply list_elem_of_In.
Qed.

Lemma forallb_suffix_false (P : string -> bool) (xs ys : list string) (y : string) :
  y ∈ ys -> P y = false -> forallb P (xs ++ ys) = false.
Proof.
  intros Hin HP. destruct (forallb P (xs ++ ys)) eqn:E; [|reflexivity].
  rewrite forallb_forall in E.
  assert (P y = true); [|congruence].
  apply E. apply in_or_app. right. by apply list_elem_of_In.
Qed.

(** What [computeTanstackTargetPath] answers once the path has its source
    extension, names the app directory and a file: nothing when the
    segments in between are excluded. *)
Lemma computeTanstackTargetPath_excluded
      (filename : string) (runtimeConfig : ResolvedRuntimeConfig)
      (pre dirs : list string) (base : string) :
  splitOn isSep filename
  = pre ++ normalizeDirSegments (appDirectory runtimeConfig) ++ dirs ++ [base] ->
  (forall front,
      existsb isPrivateSegment (front ++ dirs)
      || existsb isParallelSegment (front ++ dirs)
      || (existsb isRouteGroupSegment (front ++ dirs) && isLayoutLikeFile base
          && negb ((0 <? length (front ++ dirs))
                   && forallb isRouteGroupSegment (front ++ dirs))) = true) ->
  computeTanstackTargetPath filename runtimeConfig = None.
Proof.
  intros Hsplit Hex. unfold computeTanstackTargetPath.
  destruct (negb (hasSourceExtension filename)); [reflexivity|].
  destruct (includes "node_modules" filename); [reflexivity|].
  cbv zeta. rewrite Hsplit.
  remember (normalizeDirSegments (appDirectory runtimeConfig)) as app eqn:Happ.
  clear Happ Hsplit.
  destruct (length (pre ++ app ++ dirs ++ [base]) <? 2); [reflexivity|].
  destruct (findSubPathIndex (pre ++ app ++ dirs ++ [base]) app) as [idx|] eqn:Hidx;
    [|reflexivity].
  assert (Hle : idx <= length pre).
  { destruct app as [|a app']; [discriminate|].
    destruct (findSubPathIndex_occurs (a :: app') pre (dirs ++ [base]))
      as (i & Hi & Hle); [discriminate|].
    rewrite Hi in Hidx. injection Hidx as <-. exact Hle. }
  destruct (length (pre ++ app ++ dirs ++ [base]) <=? idx + length app); [reflexivity|].
  replace (List.last (pre ++ app ++ dirs ++ [base]) EmptyString) with base.
  2:{ rewrite !app_assoc. rewrite last_last. reflexivity. }
  destruct (isEmpty base); [reflexivity|].
  replace (pre ++ app ++ dirs ++ [base]) with ((pre ++ app) ++ dirs ++ [base])
    by (rewrite <- !app_assoc; reflexivity).
  rewrite (relative_segments_suffix (pre ++ app) dirs base (idx + length app))
    by (rewrite length_app; lia).
  specialize (Hex (skipn (idx + length app) (pre ++ app))).
  destruct (existsb isPrivateSegment _ || existsb isParallelSegment _);
    [reflexivity|].
  simpl in Hex. rewrite Hex. reflexivity.
Qed.

(** A directory named by the bare underscore, or by the bare at-sign, has
    a leading underscore or at-sign, and the file under it is relocated. *)
Lemma C4_bare_marker_counterexample :
  splitOn isSep "app/_/page.tsx" = ["app"; "_"; "page.tsx"]
  /\ startsWith "_" "_" = true
  /\ computeTanstackTargetPath "app/_/page.tsx" defaultConfig
     = Some "routes/_/index.tsx"
  /\ computeTanstackTargetPath "app/@/page.tsx" defaultConfig
     = Some "routes/@/index.tsx".
Proof. compute_conj. Qed.

(** ** Relocation *)

Lemma existsFile_file (path : string) (w : World) :
  isFile (w_fs w) (resolvePath (w_fs w) path) = true ->
  existsFile path w = (inr true, w).
Proof.
  intros H. unfold existsFile, tryCatch, bind, fsp_access, ret.
  rewrite H. reflexivity.
Qed.

Lemma tryDeleteDirIfEmpty_ok (path : string) (w : World) :
  exists b w', tryDeleteDirIfEmpty path w = (inr b, w')
               /\ fs_files (w_fs w') = fs_files (w_fs w)
               /\ fs_cwd (w_fs w') = fs_cwd (w_fs w).
Proof.
  unfold tryDeleteDirIfEmpty, callRm, tryCatch, bind, fsp_readdir, getWorld,
    ret, fsp_rm, throw.
  destruct (isDir (w_fs w) (resolvePath (w_fs w) path)) eqn:Hd;
    [|exists false, w; auto].
  assert (Hf : isFile (w_fs w) (resolvePath (w_fs w) path) = false).
  { unfold isDir in Hd. destruct (isFile _ _); [discriminate|reflexivity]. }
  destruct (0 <? length (entries (w_fs w) (resolvePath (w_fs w) path)));
    [exists false, w; auto|].
  destruct (cap_rm (w_caps w)); [|exists false, w; auto].
  rewrite Hf.
  destruct (bool_decide _ && _); [|exists false, w; auto].
  eexists true, _. split; [reflexivity|]. split; reflexivity.
Qed.

Lemma pruneLoop_ok (fuel : nat) (appPath dir : string) (w : World) :
  exists w', pruneLoop fuel appPath dir w = (inr tt, w')
             /\ fs_files (w_fs w') = fs_files (w_fs w)
             /\ fs_cwd (w_fs w') = fs_cwd (w_fs w).
Proof.
  revert dir w. induction fuel as [|fuel IH]; intros dir w; simpl.
  - exists w. auto.
  - destruct (truthy dir && negb (eqs dir ".") && negb (eqs dir appPath)
              && startsWith (appPath +:+ "/") dir); [|exists w; auto].
    destruct (tryDeleteDirIfEmpty_ok dir w) as (b & w1 & H1 & Hf1 & Hc1).
    rewrite (bind_inr _ _ _ _ _ H1). destruct b; [|exists w1; auto].
    destruct (IH (dirname dir) w1) as (w2 & H2 & Hf2 & Hc2).
    exists w2. split; [exact H2|]. split; congruence.
Qed.

Lemma pruneEmptyRouteDirs_ok (movedFrom appDir : string) (w : World) :
  exists w', pruneEmptyRouteDirs movedFrom appDir w = (inr tt, w')
             /\ fs_files (w_fs w') = fs_files (w_fs w)
             /\ fs_cwd (w_fs w') = fs_cwd (w_fs w).
Proof.
  unfold pruneEmptyRouteDirs.
  destruct (findSubPathIndex _ _); [apply pruneLoop_ok|exists w; auto].
Qed.

Lemma tryDeleteFile_file (path : string) (w : World) :
  isFile (w_fs w) (resolvePath (w_fs w) path) = true ->
  cap_unlink (w_caps w) || cap_rm (w_caps w) = true ->
  tryDeleteFile path w = (inr tt, removeFile (resolvePath (w_fs w) path) w).
Proof.
  intros Hf Hcap. unfold tryDeleteFile. rewrite bind_getWorld.
  destruct (cap_unlink (w_caps w)).
  - unfold fsp_unlink. rewrite Hf. reflexivity.
  - simpl in Hcap. rewrite Hcap. unfold fsp_rm. rewrite Hf. reflexivity.
Qed.

(** A relocation whose target already holds the final text: the source
    is deleted, the emptied app directory stays (it is the app
    root), and the call succeeds. *)
Example relocation_already_done :
  let w := worldOf [] ∅ (movedOnceFS "new text") in
  let r := writeMovedFileAndDeleteOriginal "app/page.tsx" "routes/index.tsx"
             "new text" "app" w in
  fst r = inr tt
  /\ fs_files (w_fs (snd r)) = {[ ["routes"; "index.tsx"] := "new text" ]}
  /\ fs_dirs (w_fs (snd r)) = {[ ["app"]; ["routes"] ]}.
Proof. compute_conj. Qed.

(** *** Pruning from an absolute path *)

Lemma normalizePath_idem (s : string) : normalizePath (normalizePath s) = normalizePath s.
Proof.
  induction s as [|c s IH]; simpl; [reflexivity|]. rewrite IH.
  destruct (Ascii.eqb c backslash) eqn:E; [reflexivity|]. rewrite E. reflexivity.
Qed.

Lemma join_head (sep seg : string) (rest : list string) (c : ascii) (t : string) :
  seg = String c t ->
  exists u, join sep (seg :: rest) = String c u.
Proof.
  intros ->. destruct rest as [|r rest]; simpl.
  - eauto.
  - rewrite app_String. eauto.
Qed.

Lemma filterBoolean_truthy (xs : list string) (x : string) :
  In x (filterBoolean xs) -> x <> EmptyString.
Proof.
  unfold filterBoolean. rewrite filter_In. intros [_ H] ->. discriminate.
Qed.

Lemma lastIndexOf_slash_head (q : string) :
  exists idx, lastIndexOf "/" (String "/" q) = Some idx.
Proof.
  unfold lastIndexOf. simpl.
  destruct (lastIndexOfFrom "/" q 1); eauto.
Qed.

Lemma sliceTo_head (idx : nat) (c : ascii) (q : string) :
  sliceTo idx (String c q) = EmptyString
  \/ exists u, sliceTo idx (String c q) = String c u.
Proof. destruct idx; simpl; eauto. Qed.

(** On a path that starts with a separator the loop of
    [pruneEmptyRouteDirs] never runs: the app path built from the segments
    has lost the leading slash that the directory name keeps. *)
Lemma pruneEmptyRouteDirs_absolute (movedFrom appDir : string) (w : World) :
  startsWith "/" (normalizePath movedFrom) = true ->
  pruneEmptyRouteDirs movedFrom appDir w = (inr tt, w).
Proof.
  intros Habs. unfold pruneEmptyRouteDirs.
  set (segments := filterBoolean (splitOn (Ascii.eqb slash) (normalizePath movedFrom))).
  destruct (findSubPathIndex segments (normalizeDirSegments appDir)) as [i|] eqn:Hidx;
    [|reflexivity].
  set (appPath := join "/" (firstn (i + length (normalizeDirSegments appDir)) segments)).
  assert (Hguard : forall cur,
             cur = EmptyString \/ (exists u, cur = String "/" u) ->
             (truthy cur && negb (eqs cur ".") && negb (eqs cur appPath)
              && startsWith (appPath +:+ "/") cur) = false).
  { intros cur [->|[u ->]]; [reflexivity|].
    assert (Hhead : exists c t, appPath +:+ "/" = String c t /\ c <> "/"%char).
    { subst appPath. unfold findSubPathIndex in Hidx.
      destruct (normalizeDirSegments appDir) as [|a app]; [discriminate|].
      destruct segments as [|seg0 segs] eqn:Hsegs; [discriminate|].
      replace (i + length (a :: app)) with (S (i + length app)) by (simpl; lia).
      cbn [firstn].
      assert (Hin : In seg0 (filterBoolean (splitOn (Ascii.eqb slash) (normalizePath movedFrom)))).
      { fold segments. rewrite Hsegs. left. reflexivity. }
      pose proof (filterBoolean_truthy _ _ Hin) as Hne.
      assert (Hall : allChars (fun c => negb (Ascii.eqb slash c)) seg0 = true).
      { unfold filterBoolean in Hin. apply filter_In in Hin as [Hin _].
        pose proof (splitOn_no_sep (Ascii.eqb slash) (normalizePath movedFrom)) as HF.
        rewrite Forall_forall in HF. apply HF. by apply list_elem_of_In. }
      destruct seg0 as [|c t]; [congruence|].
      destruct (join_head "/" (String c t) (firstn (i + length app) segs) c t eq_refl)
        as [u' Hu].
      rewrite Hu. exists c, (u' +:+ "/"). split; [reflexivity|].
      simpl in Hall. apply andb_true_iff in Hall as [Hc _].
      intros ->. discriminate. }
    destruct Hhead as (c & t & -> & Hc).
    unfold startsWith. simpl stripPrefix.
    destruct (Ascii.eqb_spec c "/"%char); [congruence|].
    rewrite !andb_false_r. reflexivity. }
  unfold dirname. rewrite normalizePath_idem.
  unfold startsWith in Habs.
  destruct (stripPrefix "/" (normalizePath movedFrom)) as [q|] eqn:Eq; [|discriminate].
  apply stripPrefix_Some in Eq. change ("/" +:+ q) with (String "/" q) in Eq.
  rewrite Eq. destruct (lastIndexOf_slash_head q) as [idx ->].
  simpl pruneLoop. rewrite Hguard; [reflexivity|].
  destruct (sliceTo_head idx "/" q) as [H|H]; [left; exact H|right; exact H].
Qed.

(** C5: the directory app/blog of the project at /proj is empty and lies
    under the app root, yet pruning from the absolute path of the file it
    held removes nothing; from the relative path of the same file it
    removes app/blog and keeps the app root.  Pruning from any path that
    starts with a separator changes nothing at all. *)
Theorem C5_absolute_path_prunes_nothing :
  entries (w_fs worldAtRoot) ["proj"; "app"; "blog"] = []
  /\ pruneEmptyRouteDirs "/proj/app/blog/page.tsx" "app" worldAtRoot
     = (inr tt, worldAtRoot)
  /\ fst (pruneEmptyRouteDirs "app/blog/page.tsx" "app" worldInProject) = inr tt
  /\ fs_dirs (w_fs (snd (pruneEmptyRouteDirs "app/blog/page.tsx" "app" worldInProject)))
     = prunedBlogDirs
  /\ (forall movedFrom appDir w,
         startsWith "/" (normalizePath movedFrom) = true ->
         pruneEmptyRouteDirs movedFrom appDir w = (inr tt, w)).
Proof.
  repeat match goal with |- _ /\ _ => split end;
    try decide_by_compute.
  apply pruneEmptyRouteDirs_absolute.
Qed.

(** ** Quiet calls *)

Lemma quiet_ret {A} (a : A) : quiet (ret a).
Proof. intros w. apply sameOutside_refl. Qed.

Lemma quiet_throw {A} (e : string) : quiet (@throw A e).
Proof. intros w. apply sameOutside_refl. Qed.

Lemma quiet_bind {A B} (m : Eff A) (k : A -> Eff B) :
  quiet m -> (forall a, quiet (k a)) -> quiet (bind m k).
Proof.
  intros Hm Hk w. unfold bind. specialize (Hm w).
  destruct (m w) as [[e|a] w']; [exact Hm|].
  eapply sameOutside_trans; [exact Hm|apply Hk].
Qed.

Lemma quiet_getWorld_bind {B} (k : World -> Eff B) :
  (forall w0, quiet (k w0)) -> quiet (bind getWorld k).
Proof. intros Hk w. rewrite bind_getWorld. apply Hk. Qed.

Lemma quiet_pure {A} (m : Eff A) :
  (forall w, exists a, m w = (inr a, w)) -> quiet m.
Proof. intros H w. destruct (H w) as [a ->]. apply sameOutside_refl. Qed.

Lemma quiet_warnConfigOnce : quiet warnConfigOnce.
Proof. intros w. destruct (warnConfigOnce_ok w) as (w' & -> & H). exact H. Qed.

Lemma quiet_set_routesDirCache (f : World -> gmap string string) :
  quiet (modify (fun w => set_routesDirCache (f w) w)).
Proof. intros w. repeat split. Qed.

Lemma quiet_set_projectConfigCache (f : World -> gmap string jsval) :
  quiet (modify (fun w => set_projectConfigCache (f w) w)).
Proof. intros w. repeat split. Qed.

Lemma quiet_loadRoutesDirectory (root : string) : quiet (loadRoutesDirectory root).
Proof.
  intros w. destruct (loadRoutesDirectory_scanned root w) as (w' & -> & H). exact H.
Qed.

Lemma quiet_getConfiguredRoutesDirectory
      (filename : string) (projectConfig : jsval) (override : option string) :
  quiet (getConfiguredRoutesDirectory filename projectConfig override).
Proof.
  unfold getConfiguredRoutesDirectory.
  destruct (configRoutesDirectory projectConfig); [apply quiet_ret|].
  apply quiet_getWorld_bind. intros w0.
  destruct (match override with
            | Some o => if truthy o then Some o else getRoutesDirectoryOverride w0
            | None => getRoutesDirectoryOverride w0
            end); [apply quiet_ret|].
  destruct (lastIndexOf _ _); [|apply quiet_ret].
  destruct (routesDirCache w0 !! _); [apply quiet_ret|].
  apply quiet_bind; [apply quiet_loadRoutesDirectory|]. intros loaded.
  apply quiet_bind; [|intros; apply quiet_ret].
  apply (quiet_set_routesDirCache (fun w' => <[ _ := loaded ]> (routesDirCache w'))).
Qed.

Section PipelineFacts.

Context {Root Edit : Type}.
Variable filenameOf : Root -> string.
Variable commitEdits : Root -> list Edit -> string.
Variable runPass : string -> Root -> string + option (list Edit).
Variable JSON_parse : string -> option jsval.

Lemma quiet_loadProjectConfig (cacheKey : string) :
  quiet (loadProjectConfig JSON_parse cacheKey).
Proof.
  unfold loadProjectConfig.
  apply quiet_bind; [apply quiet_pure, findNearestFile_pure|]. intros [file|];
    [|apply quiet_ret].
  apply quiet_bind; [apply quiet_pure, readTextFile_pure|]. intros [text|];
    [|apply quiet_ret].
  destruct (truthy text); [|apply quiet_ret].
  destruct (parseProjectConfigJson JSON_parse text); [apply quiet_ret|].
  apply quiet_bind; [apply quiet_warnConfigOnce|intros; apply quiet_ret].
Qed.

Lemma quiet_readProjectConfig (filename : string) :
  quiet (readProjectConfig JSON_parse filename).
Proof.
  unfold readProjectConfig. apply quiet_getWorld_bind. intros w0.
  destruct (projectConfigCache w0 !! _); [apply quiet_ret|].
  apply quiet_bind; [apply quiet_loadProjectConfig|]. intros loaded.
  apply quiet_bind; [|intros; apply quiet_ret].
  apply (quiet_set_projectConfigCache
           (fun w' => <[ _ := loaded ]> (projectConfigCache w'))).
Qed.

Lemma quiet_resolveRuntimeConfig (filename : string) (options : jsval) :
  quiet (resolveRuntimeConfig JSON_parse filename options).
Proof.
  unfold resolveRuntimeConfig.
  apply quiet_bind; [apply quiet_readProjectConfig|]. intros projectConfig.
  apply quiet_bind; [apply quiet_getConfiguredRoutesDirectory|]. intros routesDir.
  apply quiet_bind; [|intros; apply quiet_ret].
  unfold resolveAppDirectory.
  destruct (if jsTruthy _ then _ else _); try apply quiet_throw. apply quiet_ret.
Qed.

Lemma promiseAll_rejects {A} (tasks : list (string + A)) (e : string) :
  inl e ∈ tasks -> exists e', promiseAll tasks = inl e' /\ inl e' ∈ tasks.
Proof.
  induction tasks as [|t tasks IH]; intros Hin; [by apply elem_of_nil in Hin|].
  destruct t as [e0|a]; simpl.
  - exists e0. split; [reflexivity|apply list_elem_of_here].
  - apply elem_of_cons in Hin as [Hin|Hin]; [discriminate|].
    destruct (IH Hin) as (e' & -> & Hin'). exists e'.
    split; [reflexivity|by apply list_elem_of_further].
Qed.

Lemma transform_pass_failure (root : Root) (options : jsval) (w w1 : World)
      (runtimeConfig : ResolvedRuntimeConfig) (id e : string) :
  resolveRuntimeConfig JSON_parse (filenameOf root) options w
  = (inr runtimeConfig, w1) ->
  id ∈ PASS_ORDER ->
  id ∈ enabledMigrations runtimeConfig ->
  runPass id root = inl e ->
  exists e',
    promiseAll (enabledTasks runPass (enabledMigrations runtimeConfig) root) = inl e'
    /\ transform filenameOf commitEdits runPass JSON_parse root options w
       = (inl e', w1)
    /\ sameOutside w w1.
Proof.
  intros Hcfg Horder Hen Hfail.
  assert (Hin : inl e ∈ enabledTasks runPass (enabledMigrations runtimeConfig) root).
  { unfold enabledTasks. rewrite <- Hfail. apply list_elem_of_In.
    apply (in_map (fun i => runPass i root)).
    apply filter_In. split; [by apply list_elem_of_In|].
    apply bool_decide_eq_true. exact Hen. }
  destruct (promiseAll_rejects _ _ Hin) as (e' & Hall & _).
  exists e'. split; [exact Hall|]. split.
  - unfold transform. rewrite (bind_inr _ _ _ _ _ Hcfg), Hall. reflexivity.
  - pose proof (quiet_resolveRuntimeConfig (filenameOf root) options w) as H.
    rewrite Hcfg in H. exact H.
Qed.


Lemma commitAndRelocate_not_eligible (root : Root)
      (runtimeConfig : ResolvedRuntimeConfig)
      (results : list (option (list Edit))) (w : World) :
  computeTanstackTargetPath (filenameOf root) runtimeConfig = None ->
  commitAndRelocate filenameOf commitEdits root runtimeConfig results w
  = (inr (Some (commitEdits root (collectEdits results))), w).
Proof.
  intros Htarget. unfold commitAndRelocate. rewrite bind_getWorld, Htarget.
  destruct (bool_decide _); reflexivity.
Qed.

End PipelineFacts.

(** ** Exclusion from relocation, in the transform *)

Lemma excluded_paths_not_eligible
      (filename : string) (runtimeConfig : ResolvedRuntimeConfig)
      (pre dirs : list string) (base : string) :
  splitOn isSep filename
  = pre ++ normalizeDirSegments (appDirectory runtimeConfig) ++ dirs ++ [base] ->
  (exists seg, seg ∈ dirs /\ 2 <= String.length seg
               /\ (startsWith "_" seg = true \/ startsWith "@" seg = true))
  \/ ((exists g, g ∈ dirs /\ isRouteGroupSegment g = true)
      /\ isLayoutLikeFile base = true
      /\ (exists d, d ∈ dirs /\ isRouteGroupSegment d = false)) ->
  computeTanstackTargetPath filename runtimeConfig = None.
Proof.
  intros Hsplit Hcase.
  apply (computeTanstackTargetPath_excluded _ _ pre dirs base Hsplit).
  intros front.
  assert (Hsegs : Forall (fun seg => allChars (fun c => negb (isSep c)) seg = true) dirs).
  { pose proof (splitOn_no_sep isSep filename) as H. rewrite Hsplit in H.
    apply Forall_app in H as [_ H]. apply Forall_app in H as [_ H].
    apply Forall_app in H as [H _]. exact H. }
  destruct Hcase as [(seg & Hin & Hlen & Hlead)|((g & Hg & Hgroup) & Hlayout & (d & Hd & Hnot))].
  - assert (Hall : allChars (fun c => negb (isSep c)) seg = true).
    { rewrite Forall_forall in Hsegs. apply Hsegs. exact Hin. }
    destruct Hlead as [Hlead|Hlead].
    + assert (isPrivateSegment seg = true) as Hp.
      { unfold isPrivateSegment.
        pose proof (leading_char_segment "_"%char seg Hlead Hlen Hall) as H.
        destruct (matchWhole "_" _ EmptyString seg); [reflexivity|congruence]. }
      rewrite (existsb_suffix _ front dirs seg Hin Hp). reflexivity.
    + assert (isParallelSegment seg = true) as Hp.
      { unfold isParallelSegment.
        pose proof (leading_char_segment "@"%char seg Hlead Hlen Hall) as H.
        destruct (matchWhole "@" _ EmptyString seg); [reflexivity|congruence]. }
      rewrite (existsb_suffix _ front dirs seg Hin Hp).
      rewrite orb_true_r. reflexivity.
  - rewrite (existsb_suffix _ front dirs g Hg Hgroup), Hlayout.
    rewrite (forallb_suffix_false _ front dirs d Hd Hnot).
    rewrite andb_false_r. simpl. apply orb_true_r.
Qed.

(** C4, as the code tests it: a path with, between the app directory and
    the file name, a segment made of an underscore or an at-sign and at
    least one more character, or with a layout or template file name under
    a branch that has a route-group segment and a segment that is none, is
    not eligible for relocation; the transform then returns the edited
    text and leaves the world, and so the place of the file, as it was. *)
Theorem C4_excluded_paths_not_eligible
        {Root Edit : Type} (filenameOf : Root -> string)
        (commitEdits : Root -> list Edit -> string)
        (root : Root) (runtimeConfig : ResolvedRuntimeConfig)
        (results : list (option (list Edit))) (w : World)
        (pre dirs : list string) (base : string) :
  splitOn isSep (filenameOf root)
  = pre ++ normalizeDirSegments (appDirectory runtimeConfig) ++ dirs ++ [base] ->
  (exists seg, seg ∈ dirs /\ 2 <= String.length seg
               /\ (startsWith "_" seg = true \/ startsWith "@" seg = true))
  \/ ((exists g, g ∈ dirs /\ isRouteGroupSegment g = true)
      /\ isLayoutLikeFile base = true
      /\ (exists d, d ∈ dirs /\ isRouteGroupSegment d = false)) ->
  computeTanstackTargetPath (filenameOf root) runtimeConfig = None
  /\ commitAndRelocate filenameOf commitEdits root runtimeConfig results w
     = (inr (Some (commitEdits root (collectEdits results))), w).
Proof.
  intros Hsplit Hcase.
  pose proof (excluded_paths_not_eligible _ _ pre dirs base Hsplit Hcase) as Hnone.
  split; [exact Hnone|].
  apply commitAndRelocate_not_eligible. exact Hnone.
Qed.

Lemma C4_excluded_paths_witness :
  let w := worldOf [] ∅ aboutPageFS in
  computeTanstackTargetPath "/proj/app/@modal/(shop)/layout.tsx" defaultConfig = None
  /\ commitAndRelocate (fun r : string => r) (fun _ (_ : list unit) => wrongPath)
       "/proj/app/@modal/(shop)/layout.tsx" defaultConfig [] w
     = (inr (Some wrongPath), w).
Proof.
  intros w.
  apply (C4_excluded_paths_not_eligible
           (fun r : string => r) (fun _ (_ : list unit) => wrongPath)
           "/proj/app/@modal/(shop)/layout.tsx" defaultConfig [] w
           [EmptyString; "proj"] ["@modal"; "(shop)"] "layout.tsx").
  - reflexivity.
  - left. exists "@modal". split; [decide_by_compute|]. split; [simpl; lia|].
    right. reflexivity.
Defined.

(** ** The invariant check *)






(** ** A failing pass *)

(** C6: when the configuration is resolved and an enabled pass raises,
    the transform raises the error of the first failing pass in the fixed
    order and stops there: the world is the one left by the resolution of
    the configuration, which differs from the initial one at most in the
    caches and the warning flags, whatever the commit of edits would
    have produced. *)
Theorem C6_pass_failure_aborts
        {Root Edit : Type} (filenameOf : Root -> string)
        (commitEdits : Root -> list Edit -> string)
        (runPass : string -> Root -> string + option (list Edit))
        (JSON_parse : string -> option jsval)
        (root : Root) (options : jsval) (w w1 : World)
        (runtimeConfig : ResolvedRuntimeConfig) (id e : string) :
  resolveRuntimeConfig JSON_parse (filenameOf root) options w
  = (inr runtimeConfig, w1) ->
  id ∈ PASS_ORDER ->
  id ∈ enabledMigrations runtimeConfig ->
  runPass id root = inl e ->
  exists e',
    promiseAll (enabledTasks runPass (enabledMigrations runtimeConfig) root) = inl e'
    /\ transform filenameOf commitEdits runPass JSON_parse root options w
       = (inl e', w1)
    /\ sameOutside w w1.
Proof. apply transform_pass_failure. Qed.

Lemma C6_pass_failure_witness :
  let w := worldOf [] ∅ aboutPageFS in
  let w1 := snd (resolveRuntimeConfig rejectJson "app/about/page.tsx" JUndefined w) in
  exists e',
    promiseAll (enabledTasks failingPass (enabledMigrations defaultConfig)
                  "app/about/page.tsx") = inl e'
    /\ transform (fun r : string => r) (fun _ (_ : list unit) => wrongPath)
         failingPass rejectJson "app/about/page.tsx" JUndefined w
       = (inl e', w1)
    /\ sameOutside w w1.
Proof.
  intros w w1.
  refine (C6_pass_failure_aborts
            (fun r : string => r) (fun _ (_ : list unit) => wrongPath)
            failingPass rejectJson "app/about/page.tsx" JUndefined w w1
            defaultConfig "next-link" "next-link failed" _ _ _ _).
  - vm_compute. reflexivity.
  - decide_by_compute.
  - decide_by_compute.
  - reflexivity.
Defined.

(** ** The fuel of the loops is enough *)

Lemma gsubFuel_stable (m : string -> option (string * string)) :
  consumes m ->
  forall n fuel1 fuel2 s,
    String.length s <= n -> n <= fuel1 -> n <= fuel2 ->
    gsubFuel m fuel1 s = gsubFuel m fuel2 s.
Proof.
  intros Hm. induction n as [|n IH]; intros fuel1 fuel2 s Hs H1 H2.
  - destruct s; [|simpl in Hs; lia]. destruct fuel1, fuel2; reflexivity.
  - destruct s as [|c s]; [destruct fuel1, fuel2; reflexivity|].
    destruct fuel1 as [|fuel1]; [lia|]. destruct fuel2 as [|fuel2]; [lia|].
    simpl. destruct (m (String c s)) as [[out rest]|] eqn:E.
    + apply Hm in E. f_equal. apply IH; simpl in *; lia.
    + f_equal. apply IH; simpl in *; lia.
Qed.

Lemma gsubFuel_enough (m : string -> option (string * string)) (fuel : nat) (s : string) :
  consumes m -> String.length s <= fuel -> gsubFuel m fuel s = gsub m s.
Proof.
  intros Hm Hle. unfold gsub.
  apply (gsubFuel_stable m Hm (String.length s)); lia.
Qed.

Lemma stripPrefix_length (p s r : string) :
  stripPrefix p s = Some r -> String.length s = String.length p + String.length r.
Proof.
  revert s. induction p as [|c p IH]; intros s H; simpl in H.
  - injection H as ->. reflexivity.
  - destruct s as [|d s]; [discriminate|].
    destruct (Ascii.eqb c d); [|discriminate]. simpl. f_equal. auto.
Qed.

Lemma span_length (f : ascii -> bool) (s a b : string) :
  span f s = (a, b) -> String.length s = String.length a + String.length b.
Proof.
  revert a b. induction s as [|c s IH]; intros a b H; simpl in H.
  - injection H as <- <-. reflexivity.
  - destruct (f c).
    + destruct (span f s) as [a' b'] eqn:E. injection H as <- <-.
      simpl. f_equal. apply IH. reflexivity.
    + injection H as <- <-. reflexivity.
Qed.

Lemma dropWhile_length (f : ascii -> bool) (s : string) :
  String.length (dropWhile f s) <= String.length s.
Proof.
  induction s as [|c s IH]; simpl; [lia|]. destruct (f c); simpl; lia.
Qed.

Lemma matchRun_length (pre : string) (cls : ascii -> bool) (post s run rest : string) :
  matchRun pre cls post s = Some (run, rest) ->
  String.length rest + String.length pre + String.length run <= String.length s
  /\ 0 < String.length run.
Proof.
  unfold matchRun. destruct (stripPrefix pre s) as [r|] eqn:E1; [|discriminate].
  destruct (span cls r) as [a b] eqn:E2.
  destruct a as [|c a]; [discriminate|]. simpl isEmpty. cbv iota.
  destruct (stripPrefix post b) as [t|] eqn:E3; [|discriminate].
  intros [= <- <-].
  apply stripPrefix_length in E1, E3. apply span_length in E2. simpl in *. lia.
Qed.

Lemma consumes_groupAt : consumes groupAt.
Proof.
  intros s out rest. unfold groupAt.
  destruct (matchRun _ _ _ s) as [[run r]|] eqn:E; [|discriminate].
  intros [= <- <-]. apply matchRun_length in E. lia.
Qed.

Lemma consumes_optionalCatchAllAt : consumes optionalCatchAllAt.
Proof.
  intros s out rest. unfold optionalCatchAllAt.
  destruct (matchRun _ _ _ s) as [[run r]|] eqn:E; [|discriminate].
  intros [= <- <-]. apply matchRun_length in E. lia.
Qed.

Lemma consumes_catchAllAt : consumes catchAllAt.
Proof.
  intros s out rest. unfold catchAllAt.
  destruct (matchRun _ _ _ s) as [[run r]|] eqn:E; [|discriminate].
  intros [= <- <-]. apply matchRun_length in E. lia.
Qed.

Lemma consumes_dynamicAt : consumes dynamicAt.
Proof.
  intros s out rest. unfold dynamicAt.
  destruct (matchRun _ _ _ s) as [[run r]|] eqn:E; [|discriminate].
  intros [= <- <-]. apply matchRun_length in E. lia.
Qed.

Lemma consumes_rootFactoryCallAt : consumes rootFactoryCallAt.
Proof.
  intros s out rest. unfold rootFactoryCallAt.
  destruct (stripPrefix "createFileRoute(" s) as [r0|] eqn:E0; [|discriminate].
  apply stripPrefix_length in E0.
  pose proof (dropWhile_length isSpace r0) as L0.
  destruct (dropWhile isSpace r0) as [|q [|sl [|q' r1]]]; try discriminate.
  destruct (isQuote q && Ascii.eqb sl slash && Ascii.eqb q' q); [|discriminate].
  pose proof (dropWhile_length isSpace r1) as L1.
  destruct (stripPrefix ")" (dropWhile isSpace r1)) as [r2|] eqn:E2; [|discriminate].
  apply stripPrefix_length in E2.
  pose proof (dropWhile_length isSpace r2) as L2.
  destruct (stripPrefix "(" (dropWhile isSpace r2)) as [r3|] eqn:E3; [|discriminate].
  apply stripPrefix_length in E3.
  intros [= <- <-]. simpl in *. lia.
Qed.

Lemma consumes_tanstackImportAt : consumes tanstackImportAt.
Proof.
  intros s out rest. unfold tanstackImportAt.
  destruct (stripPrefix "import" s) as [r0|] eqn:E0; [|discriminate].
  apply stripPrefix_length in E0. intros H. simpl in E0.
  assert (String.length rest <= String.length r0); [|lia]. clear E0.
  pose proof (dropWhile_length isSpace r0) as L0.
  destruct (stripPrefix "{" (dropWhile isSpace r0)) as [r1|] eqn:E1; [|discriminate].
  apply stripPrefix_length in E1.
  destruct (span isSpace r1) as [ws r2] eqn:E2. apply span_length in E2.
  destruct (span (notChar "}"%char) r2) as [body r3] eqn:E3. apply span_length in E3.
  destruct (if truthy body then Some body
            else match lastChar ws with
                 | Some c => Some (String c EmptyString)
                 | None => None
                 end); [|discriminate].
  destruct (stripPrefix "}" r3) as [r4|] eqn:E4; [|discriminate].
  apply stripPrefix_length in E4.
  pose proof (dropWhile_length isSpace r4) as L4.
  destruct (stripPrefix "from" (dropWhile isSpace r4)) as [r5|] eqn:E5; [|discriminate].
  apply stripPrefix_length in E5.
  pose proof (dropWhile_length isSpace r5) as L5.
  destruct (dropWhile isSpace r5) as [|q r6]; [discriminate|].
  destruct (Ascii.eqb q quote1 || Ascii.eqb q quote2); [|discriminate].
  destruct (stripPrefix "@tanstack/react-router" r6) as [[|q' r7]|] eqn:E6;
    try discriminate.
  apply stripPrefix_length in E6.
  destruct (Ascii.eqb q' q); [|discriminate].
  injection H as <- <-. simpl in *. lia.
Qed.

Lemma normalizePath_length (s : string) :
  String.length (normalizePath s) = String.length s.
Proof. induction s as [|c s IH]; simpl; congruence. Qed.

Lemma sliceTo_length (n : nat) (s : string) : String.length (sliceTo n s) <= n.
Proof.
  revert s. induction n as [|n IH]; intros [|c s]; simpl; try lia.
  specialize (IH s). lia.
Qed.

Lemma lastIndexOfFrom_bound (p s : string) (i j : nat) :
  p <> EmptyString -> lastIndexOfFrom p s i = Some j -> j < i + String.length s.
Proof.
  intros Hp. revert i. induction s as [|c s IH]; intros i; simpl.
  - rewrite (isEmpty_false _ Hp). discriminate.
  - destruct (lastIndexOfFrom p s (S i)) as [k|] eqn:E.
    + intros [= <-]. apply IH in E. lia.
    + destruct (startsWith p (String c s)); [|discriminate]. intros [= <-]. lia.
Qed.

(** Where it is neither the dot nor the input itself, the directory name
    is strictly shorter than the input. *)
Lemma dirname_shorter (d : string) :
  dirname d = "." \/ String.length (dirname d) < String.length d.
Proof.
  unfold dirname. destruct (lastIndexOf "/" (normalizePath d)) as [idx|] eqn:E;
    [|left; reflexivity].
  right. apply lastIndexOfFrom_bound in E; [|discriminate].
  pose proof (sliceTo_length idx (normalizePath d)).
  rewrite normalizePath_length in E. simpl in E. lia.
Qed.

Lemma startsWith_dot_false (a : string) :
  startsWith (a +:+ "/") "." = false.
Proof.
  destruct a as [|c [|c' a]]; try reflexivity.
  - rewrite !app_String, app_Empty_l. unfold startsWith. simpl.
    destruct (Ascii.eqb c "."); reflexivity.
  - rewrite !app_String. unfold startsWith. simpl.
    destruct (Ascii.eqb c "."); reflexivity.
Qed.

Lemma pruneLoop_stable (appPath : string) :
  forall n fuel1 fuel2 dir w,
    String.length dir <= n -> n < fuel1 -> n < fuel2 ->
    pruneLoop fuel1 appPath dir w = pruneLoop fuel2 appPath dir w.
Proof.
  induction n as [|n IH]; intros fuel1 fuel2 dir w Hd H1 H2;
    (destruct fuel1 as [|fuel1]; [lia|]); (destruct fuel2 as [|fuel2]; [lia|]).
  - destruct dir; [reflexivity|simpl in Hd; lia].
  - simpl.
    destruct (truthy dir && negb (eqs dir ".") && negb (eqs dir appPath)
              && startsWith (appPath +:+ "/") dir) eqn:G; [|reflexivity].
    unfold bind. destruct (tryDeleteDirIfEmpty dir w) as [[e|[|]] w']; try reflexivity.
    destruct (dirname_shorter dir) as [Hdot|Hlt].
    + rewrite Hdot. destruct fuel1, fuel2; try reflexivity; simpl;
        rewrite ?startsWith_dot_false, ?andb_false_r; reflexivity.
    + apply IH; lia.
Qed.

(** More fuel than the loop of [pruneEmptyRouteDirs] gets changes
    nothing. *)
Lemma pruneLoop_enough (fuel : nat) (appPath dir : string) (w : World) :
  String.length dir < fuel ->
  pruneLoop fuel appPath dir w = pruneLoop (S (String.length dir)) appPath dir w.
Proof. intros H. apply (pruneLoop_stable appPath (String.length dir)); lia. Qed.

Lemma findNearestLoop_stable (cands : list string) :
  forall n fuel1 fuel2 dir w,
    String.length dir <= n -> n < fuel1 -> n < fuel2 ->
    findNearestLoop fuel1 dir cands w = findNearestLoop fuel2 dir cands w.
Proof.
  induction n as [|n IH]; intros fuel1 fuel2 dir w Hd H1 H2;
    (destruct fuel1 as [|fuel1]; [lia|]); (destruct fuel2 as [|fuel2]; [lia|]);
    simpl; unfold bind;
    destruct (firstExisting _ w) as [[e|[hit|]] w']; try reflexivity.
  - destruct dir; [|simpl in Hd; lia]. reflexivity.
  - destruct (isEmpty (dirname dir) || eqs (dirname dir) "." || eqs (dirname dir) dir)
      eqn:G; [reflexivity|].
    destruct (dirname_shorter dir) as [Hdot|Hlt].
    + rewrite Hdot in G. simpl in G. discriminate.
    + apply IH; lia.
Qed.

(** More fuel than the loop of [findNearestFile] gets changes nothing. *)
Lemma findNearestLoop_enough (fuel : nat) (dir : string) (cands : list string) (w : World) :
  String.length dir < fuel ->
  findNearestLoop fuel dir cands w
  = findNearestLoop (S (String.length dir)) dir cands w.
Proof. intros H. apply (findNearestLoop_stable cands (String.length dir)); lia. Qed.

Lemma stripThroughAppFuel_stable :
  forall n fuel1 fuel2 s,
    String.length s <= n -> n < fuel1 -> n < fuel2 ->
    stripThroughAppFuel fuel1 s = stripThroughAppFuel fuel2 s.
Proof.
  induction n as [|n IH]; intros fuel1 fuel2 s Hs H1 H2;
    (destruct fuel1 as [|fuel1]; [lia|]); (destruct fuel2 as [|fuel2]; [lia|]);
    simpl; destruct (span _ s) as [line rest] eqn:E;
    destruct (afterLastAppTail line); try reflexivity;
    destruct rest as [|c rest]; try reflexivity.
  - apply span_length in E. simpl in E. lia.
  - f_equal. f_equal. apply IH; [|lia|lia].
    apply span_length in E. simpl in E. lia.
Qed.

(** More fuel than [stripThroughApp] gets changes nothing. *)
Lemma stripThroughAppFuel_enough (fuel : nat) (s : string) :
  String.length s < fuel -> stripThroughAppFuel fuel s = stripThroughApp s.
Proof.
  intros H. unfold stripThroughApp.
  apply (stripThroughAppFuel_stable (String.length s)); lia.
Qed.

(** ** Examples *)

(** The configuration resolved for a project that configures nothing is
    the default one. *)
Example default_configuration_resolved :
  fst (resolveRuntimeConfig rejectJson "app/(marketing)/about/page.tsx"
         JUndefined emptyWorld)
  = inr defaultConfig.
Proof. vm_compute. reflexivity. Qed.

(** The lower layers of the routes directory: the environment variable
    wins over the build-tool configuration, which wins over the default. *)
Example routes_directory_lower_layers :
  let fs := {| fs_cwd := [];
               fs_files := {[ ["proj"; "vite.config.ts"] :=
                                "tanstackStart({ router: { routesDirectory: 'src/routes' } })" ]};
               fs_dirs := {[ ["proj"]; ["proj"; "app"] ]} |} in
  let file := "/proj/app/page.tsx" in
  fst (getConfiguredRoutesDirectory file (JObj []) None
         (worldOf [] {[ "ROUTES_DIRECTORY" := "./pages/" ]} fs)) = inr "pages"
  /\ fst (getConfiguredRoutesDirectory file (JObj []) None (worldOf [] ∅ fs))
     = inr "src/routes"
  /\ fst (getConfiguredRoutesDirectory file (JObj []) None emptyWorld)
     = inr "routes"
  /\ fst (getConfiguredRoutesDirectory file (JObj []) None
            (worldOf ["--routes-directory"; "cli"] {[ "ROUTES_DIRECTORY" := "env" ]} fs))
     = inr "cli".
Proof. compute_conj. Qed.

(** The route paths of the two catch-all forms agree as well. *)
Example catch_all_route_paths :
  calculateTanstackRoute "/proj/app/docs/[...slug]/page.tsx" = "/docs/$"
  /\ calculateTanstackRoute "/proj/app/docs/[[...slug]]/page.tsx" = "/docs/$"
  /\ calculateRoutePath "app/api/files/[...slug]/route.ts" = "/api/files/$"
  /\ calculateRoutePath "app/api/files/[[...slug]]/route.ts" = "/api/files/$"
  /\ computeTanstackTargetPath "app/docs/[...slug]/page.tsx" defaultConfig
     = computeTanstackTargetPath "app/docs/[[...slug]]/page.tsx" defaultConfig.
Proof. compute_conj. Qed.

(** A whole run of the transform on a page under a route group: the text
    is committed, checked against the expected route path and moved. *)
Example transform_moves_page :
  let fs := {| fs_cwd := [];
               fs_files := {[ ["app"; "(marketing)"; "about"; "page.tsx"] := "old text" ]};
               fs_dirs := {[ ["app"]; ["app"; "(marketing)"];
                             ["app"; "(marketing)"; "about"] ]} |} in
  let text := "export const Route = createFileRoute('/_marketing/about')({})" in
  let r := transform (fun r : string => r) (fun _ (_ : list unit) => text)
             noPass rejectJson "app/(marketing)/about/page.tsx" JUndefined
             (worldOf [] ∅ fs) in
  fst r = inr None
  /\ fs_files (w_fs (snd r))
     = {[ ["routes"; "_marketing"; "about"; "index.tsx"] := text ]}
  /\ fs_dirs (w_fs (snd r))
     = {[ ["app"]; ["routes"]; ["routes"; "_marketing"];
          ["routes"; "_marketing"; "about"] ]}.
Proof. compute_conj. Qed.

(** * Properties of the helpers, the configuration and the relocation *)

(** ** Segment search *)

Lemma isPrefixOf_iff (needle haystack : list string) :
  isPrefixOf needle haystack = true <-> exists rest, haystack = needle ++ rest.
Proof.
  revert haystack. induction needle as [|a n IH]; intros [|b h]; simpl.
  - split; eauto.
  - split; eauto.
  - split; [discriminate | intros [rest H]; discriminate].
  - rewrite andb_true_iff, eqs_eq, IH. split.
    + intros [-> [rest ->]]. eauto.
    + intros [rest H]. injection H as -> ->. eauto.
Qed.

Lemma findSubPathFrom_first (needle : list string) :
  forall haystack i,
    match findSubPathFrom needle haystack i with
    | Some j =>
        exists pre rest,
          haystack = pre ++ needle ++ rest /\ j = i + length pre
          /\ forall pre' rest',
               haystack = pre' ++ needle ++ rest' -> length pre <= length pre'
    | None => forall pre rest, haystack <> pre ++ needle ++ rest
    end.
Proof.
  induction haystack as [|b h IH]; intros i; cbn [findSubPathFrom].
  - destruct (isPrefixOf needle []) eqn:E.
    + apply isPrefixOf_iff in E as [rest E]. exists [], rest.
      split; [exact E|]. split; [simpl; lia|]. intros; simpl; lia.
    + intros pre rest H.
      assert (isPrefixOf needle [] = true); [|congruence].
      apply isPrefixOf_iff. destruct pre; [eauto|discriminate].
  - destruct (isPrefixOf needle (b :: h)) eqn:E.
    + apply isPrefixOf_iff in E as [rest E]. exists [], rest.
      split; [exact E|]. split; [simpl; lia|]. intros; simpl; lia.
    + specialize (IH (S i)).
      assert (Hhead : forall rest', b :: h <> needle ++ rest').
      { intros rest' H. assert (isPrefixOf needle (b :: h) = true); [|congruence].
        apply isPrefixOf_iff. eauto. }
      destruct (findSubPathFrom needle h (S i)) as [j|].
      * destruct IH as (pre & rest & -> & -> & Hmin).
        exists (b :: pre), rest. split; [reflexivity|]. split; [simpl; lia|].
        intros [|b' pre'] rest' H.
        -- exfalso. exact (Hhead rest' H).
        -- injection H as -> H. apply Hmin in H. simpl. lia.
      * intros [|b' pre] rest H.
        -- exact (Hhead rest H).
        -- injection H as -> H. exact (IH pre rest H).
Qed.

(** X1: findSubPathIndex returns the position of the first occurrence of a
    non-empty needle, and -1 exactly when the needle is empty or does not
    occur. *)
Theorem X1_findSubPathIndex_first_occurrence (haystack needle : list string) :
  match findSubPathIndex haystack needle with
  | Some i =>
      needle <> []
      /\ exists pre rest,
           haystack = pre ++ needle ++ rest /\ length pre = i
           /\ forall pre' rest',
                haystack = pre' ++ needle ++ rest' -> i <= length pre'
  | None => needle = [] \/ forall pre rest, haystack <> pre ++ needle ++ rest
  end.
Proof.
  unfold findSubPathIndex.
  destruct (length needle =? 0) eqn:E0; cbn [orb].
  - left. apply Nat.eqb_eq in E0. destruct needle; [reflexivity|discriminate].
  - apply Nat.eqb_neq in E0.
    destruct (length haystack <? length needle) eqn:E1.
    + right. intros pre rest ->. apply Nat.ltb_lt in E1.
      rewrite !length_app in E1. lia.
    + pose proof (findSubPathFrom_first needle haystack 0) as H.
      destruct (findSubPathFrom needle haystack 0) as [j|].
      * destruct H as (pre & rest & -> & -> & Hmin). split.
        -- intros ->. simpl in E0. lia.
        -- exists pre, rest. split; [reflexivity|]. split; [reflexivity|].
           exact Hmin.
      * right. exact H.
Qed.

(** ** Normalized directories *)

Lemma dropWhile_head (f : ascii -> bool) (s : string) (c : ascii) (r : string) :
  dropWhile f s = String c r -> f c = false.
Proof.
  induction s as [|d s IH]; simpl; [discriminate|].
  destruct (f d) eqn:E; [exact IH|]. intros [= <- _]. exact E.
Qed.

Lemma dropWhileEnd_head (f : ascii -> bool) (s : string) (c : ascii) (r : string) :
  dropWhileEnd f s = String c r -> exists r', s = String c r'.
Proof.
  destruct s as [|d s]; simpl; [discriminate|].
  destruct (isEmpty (dropWhileEnd f s) && f d); [discriminate|].
  intros [= <- _]. eauto.
Qed.

Lemma dropWhileEnd_last (f : ascii -> bool) (s : string) (c : ascii) :
  lastChar (dropWhileEnd f s) = Some c -> f c = false.
Proof.
  induction s as [|d s IH]; simpl; [discriminate|].
  destruct (dropWhileEnd f s) as [|e r] eqn:E; cbn [isEmpty andb].
  - destruct (f d) eqn:Ed; simpl; [discriminate|]. intros [= <-]. exact Ed.
  - intros H. apply IH. exact H.
Qed.

(** X2: a normalized directory is empty, or starts with a character that is
    neither a dot nor a separator and ends with one that is no separator. *)
Theorem X2_normalizeRoutesDirectory_shape (value : string) :
  let r := normalizeRoutesDirectory value in
  normalizeAppDirectory value = r
  /\ (forall c rest, r = String c rest -> c <> "."%char /\ isSep c = false)
  /\ (forall c, lastChar r = Some c -> isSep c = false).
Proof.
  intros r. subst r. unfold normalizeAppDirectory, normalizeRoutesDirectory.
  split; [reflexivity|]. split.
  - intros c rest H. apply dropWhileEnd_head in H as [r' H].
    apply dropWhile_head in H. apply orb_false_iff in H as [H1 H2].
    split; [|exact H2]. intros ->. discriminate.
  - intros c. apply dropWhileEnd_last.
Qed.


(** ** Command-line options *)

Lemma readCliOptionIn_first (name : string) (argv : list string) :
  let exact := "--" +:+ name in
  exists pre,
    Forall (fun a => namesOption name a = false) pre
    /\ match readCliOptionIn exact (exact +:+ "=") argv with
       | Some v =>
           exists post,
             argv = pre ++ (exact +:+ "=" +:+ v) :: post
             \/ (argv = pre ++ exact :: v :: post /\ usableValue v = true)
       | None =>
           argv = pre
           \/ argv = pre ++ [exact]
           \/ exists next post,
                argv = pre ++ exact :: next :: post /\ usableValue next = false
       end.
Proof.
  intros exact. induction argv as [|arg rest IH]; cbn [readCliOptionIn].
  - exists []. split; [constructor|]. left. reflexivity.
  - assert (Hexact : exact = String "-" (String "-" name)) by reflexivity.
    destruct (isEmpty arg) eqn:Eempty.
    { destruct arg; [|discriminate].
      destruct IH as (pre & Hpre & IH). exists (EmptyString :: pre). split.
      - constructor; [|exact Hpre]. reflexivity.
      - destruct (readCliOptionIn exact (exact +:+ "=") rest) as [v|].
        + destruct IH as [post [-> | [-> Hu]]]; exists post; [left|right]; auto.
        + destruct IH as [-> | [-> | (next & post & -> & Hu)]]; eauto 10. }
    destruct (eqs arg exact) eqn:Eexact.
    { apply eqs_eq in Eexact. subst arg. exists []. split; [constructor|].
      destruct rest as [|next post].
      - right. left. reflexivity.
      - fold (usableValue next). destruct (usableValue next) eqn:Eu.
        + exists post. right. split; [reflexivity|exact Eu].
        + right. right. exists next, post. split; [reflexivity|exact Eu]. }
    destruct (stripPrefix (exact +:+ "=") arg) as [v|] eqn:Eeq.
    { apply stripPrefix_Some in Eeq. exists []. split; [constructor|].
      exists rest. left. simpl. rewrite Eeq, app_assoc_s. reflexivity. }
    destruct IH as (pre & Hpre & IH). exists (arg :: pre). split.
    + constructor; [|exact Hpre]. unfold namesOption, startsWith.
      fold exact. rewrite Eexact. cbn [orb].
      replace ("--" +:+ name +:+ "=") with (exact +:+ "=") by reflexivity.
      rewrite Eeq. reflexivity.
    + destruct (readCliOptionIn exact (exact +:+ "=") rest) as [v|].
      * destruct IH as [post [-> | [-> Hu]]]; exists post; [left|right]; auto.
      * destruct IH as [-> | [-> | (next & post & -> & Hu)]]; eauto 10.
Qed.

(** X3: readCliOption is decided by the first argument that names the
    option: the text after the equals sign, or the next argument when it is
    not empty and no option itself; otherwise there is no value. *)
Theorem X3_readCliOption_first_occurrence (w : World) (name : string) :
  let exact := "--" +:+ name in
  exists pre,
    Forall (fun a => namesOption name a = false) pre
    /\ match readCliOption w name with
       | Some v =>
           exists post,
             w_argv w = pre ++ (exact +:+ "=" +:+ v) :: post
             \/ (w_argv w = pre ++ exact :: v :: post /\ usableValue v = true)
       | None =>
           w_argv w = pre
           \/ w_argv w = pre ++ [exact]
           \/ exists next post,
                w_argv w = pre ++ exact :: next :: post
                /\ usableValue next = false
       end.
Proof. apply readCliOptionIn_first. Qed.

(** ** Directory names *)

Lemma lastIndexOfFrom_slash (s : string) :
  forall i,
    match lastIndexOfFrom "/" s i with
    | None => allChars (notChar slash) s = true
    | Some j =>
        exists a b, s = a +:+ "/" +:+ b /\ j = i + String.length a
                    /\ allChars (notChar slash) b = true
    end.
Proof.
  induction s as [|c s IH]; intros i; cbn [lastIndexOfFrom].
  - reflexivity.
  - specialize (IH (S i)). destruct (lastIndexOfFrom "/" s (S i)) as [j|].
    + destruct IH as (a & b & -> & -> & Hb). exists (String c a), b.
      split; [reflexivity|]. split; [simpl; lia|exact Hb].
    + unfold startsWith. cbn [stripPrefix].
      destruct (Ascii.eqb "/" c) eqn:E.
      * apply Ascii.eqb_eq in E. subst c. exists EmptyString, s.
        split; [reflexivity|]. split; [simpl; lia|exact IH].
      * cbn [allChars]. unfold notChar at 1. rewrite Ascii.eqb_sym.
        unfold slash. rewrite E. exact IH.
Qed.

Lemma sliceTo_app (a b : string) : sliceTo (String.length a) (a +:+ b) = a.
Proof. induction a as [|c a IH]; simpl; [destruct b; reflexivity|]. by rewrite IH. Qed.

(** X4: dirname cuts the path, separators normalized, at its last slash:
    the path is the directory name, a slash and a last segment without
    slash; a path without slash has the directory name ".". *)
Theorem X4_dirname_cuts_at_last_slash (value : string) :
  (allChars (notChar slash) (normalizePath value) = true /\ dirname value = ".")
  \/ exists base,
       normalizePath value = dirname value +:+ "/" +:+ base
       /\ allChars (notChar slash) base = true.
Proof.
  unfold dirname, lastIndexOf.
  pose proof (lastIndexOfFrom_slash (normalizePath value) 0) as H.
  destruct (lastIndexOfFrom "/" (normalizePath value) 0) as [j|].
  - right. destruct H as (a & b & Hs & -> & Hb). exists b.
    rewrite Hs at 2. rewrite Nat.add_0_l, sliceTo_app. split; [exact Hs|exact Hb].
  - left. split; [exact H|reflexivity].
Qed.

(** ** The nearest configuration file *)

Lemma firstExisting_first (paths : list string) (w : World) :
  exists r,
    firstExisting paths w = (inr r, w)
    /\ match r with
       | Some p => In p paths /\ existsFile p w = (inr true, w)
       | None => forall p, In p paths -> existsFile p w = (inr false, w)
       end.
Proof.
  induction paths as [|p paths IH]; cbn [firstExisting].
  - exists None. split; [reflexivity|]. intros p [].
  - destruct (existsFile_pure p w) as [b Hb].
    rewrite (bind_inr _ _ _ _ _ Hb). destruct b.
    + exists (Some p). split; [reflexivity|]. split; [left; reflexivity|exact Hb].
    + destruct IH as (r & Hr & Hspec). exists r. split; [exact Hr|].
      destruct r as [q|].
      * destruct Hspec. split; [right|]; assumption.
      * intros q [<- | Hq]; [exact Hb|exact (Hspec q Hq)].
Qed.

Lemma findNearestLoop_found (fuel : nat) (cands : list string) (w : World) :
  forall dir,
  exists r,
    findNearestLoop fuel dir cands w = (inr r, w)
    /\ match r with
       | Some p =>
           existsFile p w = (inr true, w)
           /\ exists n c,
                In c cands
                /\ p = trimTrailingSlash (Nat.iter n dirname dir) +:+ "/" +:+ c
       | None => True
       end.
Proof.
  induction fuel as [|fuel IH]; intros dir; cbn [findNearestLoop].
  - exists None. split; [reflexivity|exact I].
  - destruct (firstExisting_first
                (List.map (fun c => trimTrailingSlash dir +:+ "/" +:+ c) cands) w)
      as (hit & Hhit & Hspec).
    rewrite (bind_inr _ _ _ _ _ Hhit). destruct hit as [p|].
    + exists (Some p). split; [reflexivity|]. destruct Hspec as [Hin Hex].
      split; [exact Hex|]. apply in_map_iff in Hin as (c & <- & Hc).
      exists 0, c. split; [exact Hc|reflexivity].
    + destruct (isEmpty (dirname dir) || eqs (dirname dir) "."
                || eqs (dirname dir) dir).
      * exists None. split; [reflexivity|exact I].
      * destruct (IH (dirname dir)) as (r & Hr & Hrspec). exists r.
        split; [exact Hr|]. destruct r as [p|]; [|exact I].
        destruct Hrspec as [Hex (n & c & Hc & ->)]. split; [exact Hex|].
        exists (S n), c. split; [exact Hc|].
        rewrite Nat.iter_succ_r. reflexivity.
Qed.

(** X5: findNearestFile never fails and never changes the world.  A file
    it finds exists and is one of the candidate names in the start
    directory or in a directory reached from it by dirname; when it finds
    none, the start directory holds no candidate. *)
Theorem X5_findNearestFile_found (startDir : string) (candidates : list string)
        (w : World) :
  exists r,
    findNearestFile startDir candidates w = (inr r, w)
    /\ match r with
       | Some p =>
           existsFile p w = (inr true, w)
           /\ exists n c,
                In c candidates
                /\ p = trimTrailingSlash (Nat.iter n dirname (normalizePath startDir))
                       +:+ "/" +:+ c
       | None =>
           forall c, In c candidates ->
             existsFile (trimTrailingSlash (normalizePath startDir) +:+ "/" +:+ c) w
             = (inr false, w)
       end.
Proof.
  unfold findNearestFile. cbn [findNearestLoop].
  set (dir := normalizePath startDir).
  destruct (firstExisting_first
              (List.map (fun c => trimTrailingSlash dir +:+ "/" +:+ c) candidates) w)
    as (hit & Hhit & Hspec).
  rewrite (bind_inr _ _ _ _ _ Hhit). destruct hit as [p|].
  - exists (Some p). split; [reflexivity|]. destruct Hspec as [Hin Hex].
    split; [exact Hex|]. apply in_map_iff in Hin as (c & <- & Hc).
    exists 0, c. split; [exact Hc|reflexivity].
  - assert (Hnone : forall c, In c candidates ->
              existsFile (trimTrailingSlash dir +:+ "/" +:+ c) w = (inr false, w)).
    { intros c Hc. apply Hspec. apply in_map_iff. eauto. }
    destruct (isEmpty (dirname dir) || eqs (dirname dir) "."
              || eqs (dirname dir) dir).
    + exists None. split; [reflexivity|exact Hnone].
    + destruct (findNearestLoop_found (String.length dir) candidates w (dirname dir))
        as (r & Hr & Hrspec).
      exists r. split; [exact Hr|]. destruct r as [p|]; [|exact Hnone].
      destruct Hrspec as [Hex (n & c & Hc & ->)]. split; [exact Hex|].
      exists (S n), c. split; [exact Hc|].
      rewrite Nat.iter_succ_r. reflexivity.
Qed.

(** ** The per-invocation parameter *)

Lemma firstNormalizedParam_first (params : jsval) (keys : list string) :
  match firstNormalizedParam params keys with
  | Some v =>
      truthy v = true
      /\ exists before key after raw,
           keys = before ++ key :: after
           /\ prop key params = JStr raw
           /\ v = normalizeRoutesDirectory raw
           /\ Forall (fun k => forall s, prop k params = JStr s ->
                                truthy (normalizeRoutesDirectory s) = false) before
  | None =>
      Forall (fun k => forall s, prop k params = JStr s ->
                       truthy (normalizeRoutesDirectory s) = false) keys
  end.
Proof.
  induction keys as [|k keys IH]; cbn [firstNormalizedParam]; [constructor|].
  assert (Hskip :
    (forall s, prop k params = JStr s ->
               truthy (normalizeRoutesDirectory s) = false) ->
    match firstNormalizedParam params keys with
    | Some v =>
        truthy v = true
        /\ exists before key after raw,
             k :: keys = before ++ key :: after
             /\ prop key params = JStr raw
             /\ v = normalizeRoutesDirectory raw
             /\ Forall (fun k => forall s, prop k params = JStr s ->
                                  truthy (normalizeRoutesDirectory s) = false) before
    | None =>
        Forall (fun k => forall s, prop k params = JStr s ->
                         truthy (normalizeRoutesDirectory s) = false) (k :: keys)
    end).
  { intros Hk. destruct (firstNormalizedParam params keys) as [v|].
    - destruct IH as [Hv (before & key & after & raw & -> & Hp & -> & Hb)].
      split; [exact Hv|]. exists (k :: before), key, after, raw.
      split; [reflexivity|]. split; [exact Hp|]. split; [reflexivity|].
      constructor; assumption.
    - constructor; assumption. }
  destruct (prop k params) as [| |b|n|s|xs|fields] eqn:E;
    try (apply Hskip; intros s' [=]).
  destruct (truthy (normalizeRoutesDirectory s)) eqn:Et.
  - split; [exact Et|]. exists [], k, keys, s.
    split; [reflexivity|]. split; [exact E|]. split; [reflexivity|constructor].
  - apply Hskip. intros s' [= <-]. exact Et.
Qed.

(** X6: the routes directory taken from the options of a call is absent
    when the options or their params are no object; otherwise it is the
    normalized value of the first of the keys routesDirectory,
    routes_directory, routes-dir, routesDir whose value is a string that
    normalizes to a non-empty text, and it is never empty. *)
Theorem X6_options_override_first_key (options : jsval) :
  let keys := ["routesDirectory"; "routes_directory"; "routes-dir"; "routesDir"] in
  let blank k :=
    forall s, prop k (prop "params" options) = JStr s ->
              truthy (normalizeRoutesDirectory s) = false in
  match getRoutesDirectoryOverrideFromOptions options with
  | Some v =>
      truthy v = true
      /\ isObjectLike options = true
      /\ exists before key after raw,
           keys = before ++ key :: after
           /\ prop key (prop "params" options) = JStr raw
           /\ v = normalizeRoutesDirectory raw
           /\ Forall blank before
  | None =>
      isObjectLike options = false
      \/ isObjectLike (prop "params" options) = false
      \/ Forall blank keys
  end.
Proof.
  intros keys blank. unfold getRoutesDirectoryOverrideFromOptions.
  destruct (isObjectLike options) eqn:Eo; cbn [negb]; [|left; reflexivity].
  destruct (isObjectLike (prop "params" options)) eqn:Ep; cbn [negb];
    [|right; left; reflexivity].
  pose proof (firstNormalizedParam_first (prop "params" options) keys) as H.
  fold keys. destruct (firstNormalizedParam (prop "params" options) keys) as [v|].
  - destruct H as [Hv H]. split; [exact Hv|]. split; [reflexivity|exact H].
  - right. right. exact H.
Qed.


(** ** The caches of the configuration *)

Lemma sameButWarnings_refl (w : World) : sameButWarnings w w.
Proof. split; [apply sameOutside_refl|split; reflexivity]. Qed.

Lemma warnConfigOnce_caches (w : World) :
  exists w', warnConfigOnce w = (inr tt, w') /\ sameButWarnings w w'.
Proof.
  unfold warnConfigOnce, bind, getWorld, modify, ret.
  destruct (hasLoggedConfigWarning w); eexists; split; try reflexivity;
    repeat split.
Qed.

Lemma loadRoutesDirectory_caches (root : string) (w : World) :
  exists v w', loadRoutesDirectory root w = (inr v, w') /\ sameButWarnings w w'.
Proof.
  unfold loadRoutesDirectory.
  destruct (findNearestFile_pure root viteConfigNames w) as [file Hfile].
  rewrite (bind_inr _ _ _ _ _ Hfile).
  destruct file as [file|];
    [|eexists _, w; split; [reflexivity|apply sameButWarnings_refl]].
  destruct (readTextFile_pure file w) as [text Htext].
  rewrite (bind_inr _ _ _ _ _ Htext).
  destruct (warnConfigOnce_caches w) as (w' & Hw & Hs).
  destruct text as [text|].
  - destruct (truthy text).
    + eexists _, w. split; [reflexivity|apply sameButWarnings_refl].
    + eexists _, w'. rewrite (bind_inr _ _ _ _ _ Hw). split; [reflexivity|exact Hs].
  - eexists _, w'. rewrite (bind_inr _ _ _ _ _ Hw). split; [reflexivity|exact Hs].
Qed.

Lemma getRoutesDirectoryOverride_ext (w w' : World) :
  sameOutside w w' ->
  getRoutesDirectoryOverride w' = getRoutesDirectoryOverride w.
Proof.
  intros (_ & Hargv & Henv & _).
  unfold getRoutesDirectoryOverride, readCliOption, envRoutesDirectory.
  rewrite Hargv, Henv. reflexivity.
Qed.

Lemma getConfiguredRoutesDirectory_cached
      (filename : string) (projectConfig : jsval) (override : option string)
      (w : World) :
  exists v w1,
    getConfiguredRoutesDirectory filename projectConfig override w = (inr v, w1)
    /\ sameOutside w w1
    /\ projectConfigCache w1 = projectConfigCache w
    /\ getConfiguredRoutesDirectory filename projectConfig override w1
       = (inr v, w1).
Proof.
  unfold getConfiguredRoutesDirectory.
  destruct (configRoutesDirectory projectConfig) as [c|].
  { exists c, w. repeat split. }
  rewrite bind_getWorld.
  set (resolved := fun w0 : World =>
         match override with
         | Some o => if truthy o then Some o else getRoutesDirectoryOverride w0
         | None => getRoutesDirectoryOverride w0
         end).
  change (match override with
          | Some o => if truthy o then Some o else getRoutesDirectoryOverride w
          | None => getRoutesDirectoryOverride w
          end) with (resolved w).
  assert (Hres : forall w', sameOutside w w' -> resolved w' = resolved w).
  { intros w' Hs. unfold resolved.
    rewrite (getRoutesDirectoryOverride_ext _ _ Hs). reflexivity. }
  destruct (resolved w) as [o|] eqn:Eo.
  { exists (normalizeRoutesDirectory o), w. split; [reflexivity|].
    split; [apply sameOutside_refl|]. split; [reflexivity|].
    rewrite bind_getWorld. fold (resolved w). rewrite Eo. reflexivity. }
  destruct (lastIndexOf ("/" +:+ configAppDir projectConfig +:+ "/")
              (normalizePath filename)) as [appMarker|] eqn:Em.
  2:{ exists "routes", w. split; [reflexivity|].
      split; [apply sameOutside_refl|]. split; [reflexivity|].
      rewrite bind_getWorld. fold (resolved w). rewrite Eo. reflexivity. }
  cbv zeta.
  set (guess := if truthy (sliceTo appMarker (normalizePath filename))
                then sliceTo appMarker (normalizePath filename) else ".").
  destruct (routesDirCache w !! normalizePath guess) as [existing|] eqn:Ec.
  { exists existing, w. split; [reflexivity|].
    split; [apply sameOutside_refl|]. split; [reflexivity|].
    rewrite bind_getWorld. fold (resolved w). rewrite Eo, Ec. reflexivity. }
  destruct (loadRoutesDirectory_caches guess w) as (v & w' & Hload & Hs & Hr & Hp).
  rewrite (bind_inr _ _ _ _ _ Hload).
  exists v. eexists. split; [reflexivity|].
  assert (Hs1 : sameOutside w
            (set_routesDirCache (<[normalizePath guess:=v]> (routesDirCache w')) w')).
  { destruct Hs as (?&?&?&?). repeat split; assumption. }
  split; [exact Hs1|]. split; [exact Hp|].
  rewrite bind_getWorld.
  change (match override with
          | Some o => if truthy o then Some o else getRoutesDirectoryOverride _
          | None => getRoutesDirectoryOverride _
          end)
    with (resolved (set_routesDirCache
                      (<[normalizePath guess:=v]> (routesDirCache w')) w')).
  rewrite (Hres _ Hs1).
  cbn [routesDirCache set_routesDirCache]. rewrite lookup_insert_eq. reflexivity.
Qed.

Section CachedConfiguration.

Context {Root Edit : Type}.
Variable filenameOf : Root -> string.
Variable commitEdits : Root -> list Edit -> string.
Variable JSON_parse : string -> option jsval.

Lemma loadProjectConfig_caches (cacheKey : string) (w : World) :
  exists c w', loadProjectConfig JSON_parse cacheKey w = (inr c, w')
               /\ sameButWarnings w w'.
Proof.
  unfold loadProjectConfig.
  destruct (findNearestFile_pure cacheKey projectConfigNames w) as [file Hfile].
  rewrite (bind_inr _ _ _ _ _ Hfile).
  destruct file as [file|];
    [|eexists _, w; split; [reflexivity|apply sameButWarnings_refl]].
  destruct (readTextFile_pure file w) as [text Htext].
  rewrite (bind_inr _ _ _ _ _ Htext).
  destruct text as [text|];
    [|eexists _, w; split; [reflexivity|apply sameButWarnings_refl]].
  destruct (truthy text);
    [|eexists _, w; split; [reflexivity|apply sameButWarnings_refl]].
  destruct (parseProjectConfigJson JSON_parse text);
    [eexists _, w; split; [reflexivity|apply sameButWarnings_refl]|].
  destruct (warnConfigOnce_caches w) as (w' & Hw & Hs).
  eexists _, w'. rewrite (bind_inr _ _ _ _ _ Hw). split; [reflexivity|exact Hs].
Qed.

Lemma readProjectConfig_cached (filename : string) (w : World) :
  exists c w1,
    readProjectConfig JSON_parse filename w = (inr c, w1)
    /\ sameOutside w w1
    /\ projectConfigCache w1 !! dirname (normalizePath filename) = Some c.
Proof.
  unfold readProjectConfig. rewrite bind_getWorld.
  destruct (projectConfigCache w !! dirname (normalizePath filename))
    as [existing|] eqn:Ec.
  { exists existing, w. split; [reflexivity|].
    split; [apply sameOutside_refl|exact Ec]. }
  destruct (loadProjectConfig_caches (dirname (normalizePath filename)) w)
    as (c & w' & Hload & Hs & _).
  rewrite (bind_inr _ _ _ _ _ Hload). exists c. eexists.
  split; [reflexivity|]. split.
  - destruct Hs as (?&?&?&?). repeat split; assumption.
  - cbn [projectConfigCache set_projectConfigCache]. apply lookup_insert_eq.
Qed.

Lemma readProjectConfig_hit (filename : string) (w : World) (c : jsval) :
  projectConfigCache w !! dirname (normalizePath filename) = Some c ->
  readProjectConfig JSON_parse filename w = (inr c, w).
Proof.
  intros H. unfold readProjectConfig. rewrite bind_getWorld, H. reflexivity.
Qed.

Lemma resolveAppDirectory_pure (projectConfig : jsval) (w : World) :
  resolveAppDirectory projectConfig w
  = (fst (resolveAppDirectory projectConfig w), w).
Proof.
  unfold resolveAppDirectory.
  destruct (if jsTruthy _ then _ else _); reflexivity.
Qed.

Lemma resolveRuntimeConfig_cached (filename : string) (options : jsval) (w : World) :
  let r := resolveRuntimeConfig JSON_parse filename options w in
  sameOutside w (snd r)
  /\ forall runtimeConfig,
       fst r = inr runtimeConfig ->
       resolveRuntimeConfig JSON_parse filename options (snd r)
       = (inr runtimeConfig, snd r).
Proof.
  intros r. subst r. unfold resolveRuntimeConfig.
  destruct (readProjectConfig_cached filename w) as (c & wa & Hread & Hsa & Hca).
  rewrite (bind_inr _ _ _ _ _ Hread).
  destruct (getConfiguredRoutesDirectory_cached filename c
              (getRoutesDirectoryOverrideFromOptions options) wa)
    as (v & wb & Hget & Hsb & Hcb & Hagain).
  rewrite (bind_inr _ _ _ _ _ Hget).
  assert (Hhit : readProjectConfig JSON_parse filename wb = (inr c, wb)).
  { apply readProjectConfig_hit. rewrite Hcb. exact Hca. }
  match goal with
  | |- context [bind (resolveAppDirectory c) ?k] =>
      set (tail := bind (resolveAppDirectory c) k)
  end.
  assert (Htail : forall w0, tail w0 = (fst (tail wb), w0)).
  { intros w0. unfold tail, bind, resolveAppDirectory.
    destruct (if jsTruthy _ then _ else _); reflexivity. }
  rewrite (Htail wb). cbn [fst snd].
  split; [eapply sameOutside_trans; eassumption|].
  intros runtimeConfig Hcfg.
  rewrite (bind_inr _ _ _ _ _ Hhit), (bind_inr _ _ _ _ _ Hagain).
  fold tail. rewrite (Htail wb), Hcfg. reflexivity.
Qed.

End CachedConfiguration.

(** X7: the resolution of the configuration changes neither the
    filesystem nor the process arguments, environment and capabilities;
    and what it returns is cached: run again in the world it leaves, it
    returns the same configuration and changes nothing more. *)
Theorem X7_resolveRuntimeConfig_cached
        (JSON_parse : string -> option jsval)
        (filename : string) (options : jsval) (w : World) :
  let r := resolveRuntimeConfig JSON_parse filename options w in
  sameOutside w (snd r)
  /\ forall runtimeConfig,
       fst r = inr runtimeConfig ->
       resolveRuntimeConfig JSON_parse filename options (snd r)
       = (inr runtimeConfig, snd r).
Proof. apply resolveRuntimeConfig_cached. Qed.

(** ** Transforms that relocate nothing *)

Lemma isDryRun_ext (w w' : World) : sameOutside w w' -> isDryRun w' = isDryRun w.
Proof.
  intros (_ & Hargv & Henv & _). unfold isDryRun. rewrite Hargv, Henv. reflexivity.
Qed.

Section TransformFacts.

Context {Root Edit : Type}.
Variable filenameOf : Root -> string.
Variable commitEdits : Root -> list Edit -> string.
Variable JSON_parse : string -> option jsval.

Lemma transform_keeps_text
      (runPass : string -> Root -> string + option (list Edit))
      (root : Root) (options : jsval) (w w1 : World)
      (runtimeConfig : ResolvedRuntimeConfig)
      (results : list (option (list Edit))) :
  resolveRuntimeConfig JSON_parse (filenameOf root) options w
  = (inr runtimeConfig, w1) ->
  promiseAll (enabledTasks runPass (enabledMigrations runtimeConfig) root)
  = inr results ->
  isDryRun w = true
  \/ "route-file-structure" ∉ enabledMigrations runtimeConfig
  \/ computeTanstackTargetPath (filenameOf root) runtimeConfig = None ->
  transform filenameOf commitEdits runPass JSON_parse root options w
  = (inr (Some (commitEdits root (collectEdits results))), w1)
  /\ sameOutside w w1.
Proof.
  intros Hcfg Hall Hcase.
  assert (Hs : sameOutside w w1).
  { pose proof (resolveRuntimeConfig_cached JSON_parse (filenameOf root) options w)
      as [H _]. rewrite Hcfg in H. exact H. }
  split; [|exact Hs].
  unfold transform. rewrite (bind_inr _ _ _ _ _ Hcfg), Hall.
  unfold commitAndRelocate. rewrite bind_getWorld.
  destruct Hcase as [Hdry | [Hoff | Hnone]].
  - rewrite (isDryRun_ext _ _ Hs), Hdry. cbn [negb].
    destruct (if bool_decide _ then _ else _); reflexivity.
  - rewrite (bool_decide_eq_false_2 _ Hoff). reflexivity.
  - rewrite Hnone. destruct (bool_decide _); reflexivity.
Qed.

Lemma enabledTasks_ext
      (runPass runPass' : string -> Root -> string + option (list Edit))
      (enabled : gset string) (root : Root) :
  (forall id, id ∈ enabled -> runPass id root = runPass' id root) ->
  enabledTasks runPass enabled root = enabledTasks runPass' enabled root.
Proof.
  intros H. unfold enabledTasks. apply map_ext_in. intros id Hin.
  apply filter_In in Hin as [_ Hin]. apply bool_decide_eq_true in Hin.
  exact (H id Hin).
Qed.

Lemma transform_ignores_disabled
      (runPass runPass' : string -> Root -> string + option (list Edit))
      (root : Root) (options : jsval) (w w1 : World)
      (runtimeConfig : ResolvedRuntimeConfig) :
  resolveRuntimeConfig JSON_parse (filenameOf root) options w
  = (inr runtimeConfig, w1) ->
  (forall id, id ∈ enabledMigrations runtimeConfig ->
              runPass id root = runPass' id root) ->
  transform filenameOf commitEdits runPass JSON_parse root options w
  = transform filenameOf commitEdits runPass' JSON_parse root options w.
Proof.
  intros Hcfg Hagree. unfold transform.
  rewrite !(bind_inr _ _ _ _ _ Hcfg).
  rewrite (enabledTasks_ext runPass runPass' _ root Hagree). reflexivity.
Qed.

End TransformFacts.

(** X8: when the run is a dry run, or the file-structure pass is disabled,
    or the file is not eligible for relocation, and no enabled pass
    fails, the transform returns the text of the committed edits and the
    filesystem stays as it was. *)
Theorem X8_transform_keeps_text
        {Root Edit : Type} (filenameOf : Root -> string)
        (commitEdits : Root -> list Edit -> string)
        (runPass : string -> Root -> string + option (list Edit))
        (JSON_parse : string -> option jsval)
        (root : Root) (options : jsval) (w w1 : World)
        (runtimeConfig : ResolvedRuntimeConfig)
        (results : list (option (list Edit))) :
  resolveRuntimeConfig JSON_parse (filenameOf root) options w
  = (inr runtimeConfig, w1) ->
  promiseAll (enabledTasks runPass (enabledMigrations runtimeConfig) root)
  = inr results ->
  isDryRun w = true
  \/ "route-file-structure" ∉ enabledMigrations runtimeConfig
  \/ computeTanstackTargetPath (filenameOf root) runtimeConfig = None ->
  transform filenameOf commitEdits runPass JSON_parse root options w
  = (inr (Some (commitEdits root (collectEdits results))), w1)
  /\ sameOutside w w1.
Proof. apply transform_keeps_text. Qed.

Lemma X8_transform_keeps_text_witness :
  let w := worldOf ["--dry-run"] ∅ aboutPageFS in
  let w1 := snd (resolveRuntimeConfig rejectJson "app/about/page.tsx" JUndefined w) in
  transform (fun r : string => r) (fun _ (_ : list unit) => wrongPath)
    noPass rejectJson "app/about/page.tsx" JUndefined w
  = (inr (Some wrongPath), w1)
  /\ sameOutside w w1.
Proof.
  intros w w1.
  refine (X8_transform_keeps_text
            (fun r : string => r) (fun _ (_ : list unit) => wrongPath)
            noPass rejectJson "app/about/page.tsx" JUndefined w w1
            defaultConfig (List.map (fun _ => None) PASS_ORDER) _ _ _).
  - vm_compute. reflexivity.
  - vm_compute. reflexivity.
  - left. vm_compute. reflexivity.
Defined.

(** X9: a pass that is not enabled has no influence on the transform: two
    families of passes that agree on the enabled ids give the same result
    and the same world. *)
Theorem X9_disabled_pass_has_no_influence
        {Root Edit : Type} (filenameOf : Root -> string)
        (commitEdits : Root -> list Edit -> string)
        (runPass runPass' : string -> Root -> string + option (list Edit))
        (JSON_parse : string -> option jsval)
        (root : Root) (options : jsval) (w w1 : World)
        (runtimeConfig : ResolvedRuntimeConfig) :
  resolveRuntimeConfig JSON_parse (filenameOf root) options w
  = (inr runtimeConfig, w1) ->
  (forall id, id ∈ enabledMigrations runtimeConfig ->
              runPass id root = runPass' id root) ->
  transform filenameOf commitEdits runPass JSON_parse root options w
  = transform filenameOf commitEdits runPass' JSON_parse root options w.
Proof. apply transform_ignores_disabled. Qed.

Lemma X9_disabled_pass_has_no_influence_witness :
  let w := worldOf ["--dry-run"] ∅ configuredPageFS in
  transform (fun r : string => r) (fun _ (_ : list unit) => wrongPath)
    failingPass parseLinkDisabled "app/about/page.tsx" JUndefined w
  = transform (fun r : string => r) (fun _ (_ : list unit) => wrongPath)
      noPass parseLinkDisabled "app/about/page.tsx" JUndefined w.
Proof.
  intros w.
  refine (X9_disabled_pass_has_no_influence
            (fun r : string => r) (fun _ (_ : list unit) => wrongPath)
            failingPass noPass parseLinkDisabled "app/about/page.tsx" JUndefined w
            (snd (resolveRuntimeConfig parseLinkDisabled "app/about/page.tsx"
                    JUndefined w))
            {| routesDirectory := "routes"; appDirectory := "app";
               enabledMigrations :=
                 resolveEnabledMigrations linkDisabledConfig |} _ _).
  - vm_compute. reflexivity.
  - intros id Hid. unfold failingPass, noPass.
    destruct (eqs id "next-link") eqn:E; [|reflexivity].
    apply eqs_eq in E. subst id. exfalso. revert Hid.
    cbn [enabledMigrations]. refine (bool_decide_eq_false_1 _ _).
    vm_compute. reflexivity.
Defined.


(** ** Pruning removes empty directories only *)

Lemma entries_nil (fs : FS) (k : list string) :
  entries fs k = []
  <-> forall e, e ∈ dom (fs_files fs) ∪ fs_dirs fs -> e <> [] -> removelast e <> k.
Proof.
  unfold entries. split.
  - intros H e He Hne Hk.
    assert (Hin : In e (List.filter
                          (fun e => bool_decide (e ≠ []) && bool_decide (removelast e = k))
                          (elements (dom (fs_files fs) ∪ fs_dirs fs)))).
    { apply filter_In. split.
      - apply list_elem_of_In, elem_of_elements. exact He.
      - apply andb_true_iff. split; apply bool_decide_eq_true; assumption. }
    rewrite H in Hin. destruct Hin.
  - intros H.
    destruct (List.filter _ _) as [|e l] eqn:E; [reflexivity|exfalso].
    assert (Hin : In e (e :: l)) by (left; reflexivity).
    rewrite <- E in Hin. apply filter_In in Hin as [Hin Hp].
    apply andb_true_iff in Hp as [Hne Hk].
    apply bool_decide_eq_true in Hne, Hk.
    apply list_elem_of_In, elem_of_elements in Hin.
    exact (H e Hin Hne Hk).
Qed.

Lemma prunedFrom_refl (w : World) : prunedFrom w w.
Proof.
  repeat split; try reflexivity. intros k Hin Hout. contradiction.
Qed.

Lemma prunedFrom_trans (w1 w2 w3 : World) :
  prunedFrom w1 w2 -> prunedFrom w2 w3 -> prunedFrom w1 w3.
Proof.
  intros (Hf1 & Hc1 & Hp1 & Hd1 & He1) (Hf2 & Hc2 & Hp2 & Hd2 & He2).
  split; [congruence|]. split; [congruence|]. split; [congruence|].
  split; [set_solver|].
  intros k Hin Hout. destruct (decide (k ∈ fs_dirs (w_fs w2))) as [Hk|Hk].
  - apply He2; assumption.
  - specialize (He1 k Hin Hk). apply entries_nil. intros e He Hne.
    rewrite entries_nil in He1. apply He1; [|exact Hne].
    rewrite Hf2 in He. set_solver.
Qed.

Lemma tryDeleteDirIfEmpty_pruned (path : string) (w : World) :
  exists b w', tryDeleteDirIfEmpty path w = (inr b, w') /\ prunedFrom w w'
               /\ (cap_rm (w_caps w) = false -> w' = w).
Proof.
  unfold tryDeleteDirIfEmpty, callRm, tryCatch, bind, fsp_readdir, getWorld,
    ret, fsp_rm, throw.
  destruct (isDir (w_fs w) (resolvePath (w_fs w) path)) eqn:Hd;
    [|exists false, w; split; [reflexivity|split; [apply prunedFrom_refl|auto]]].
  assert (Hf : isFile (w_fs w) (resolvePath (w_fs w) path) = false).
  { unfold isDir in Hd. destruct (isFile _ _); [discriminate|reflexivity]. }
  destruct (0 <? length (entries (w_fs w) (resolvePath (w_fs w) path))) eqn:Hlen;
    [exists false, w; split; [reflexivity|split; [apply prunedFrom_refl|auto]]|].
  destruct (cap_rm (w_caps w));
    [|exists false, w; split; [reflexivity|split; [apply prunedFrom_refl|auto]]].
  rewrite Hf.
  apply Nat.ltb_ge in Hlen.
  assert (Hnil : entries (w_fs w) (resolvePath (w_fs w) path) = []).
  { destruct (entries (w_fs w) _); [reflexivity|simpl in Hlen; lia]. }
  rewrite Hnil. cbn [length Nat.eqb].
  set (k := resolvePath (w_fs w) path) in *.
  destruct (bool_decide (k ∈ fs_dirs (w_fs w))) eqn:Hin; cbn [andb];
    [|exists false, w; split; [reflexivity|split; [apply prunedFrom_refl|auto]]].
  eexists true, _. split; [reflexivity|]. split; [|discriminate].
  split; [reflexivity|]. split; [reflexivity|]. split; [reflexivity|].
  cbn [w_fs set_fs fs_dirs fs_files]. split; [set_solver|].
  intros k' Hk' Hout.
  assert (k' = k) as ->.
  { destruct (decide (k' = k)) as [|Hne]; [assumption|]. exfalso. set_solver. }
  apply entries_nil. intros e He Hne. rewrite entries_nil in Hnil.
  apply Hnil; [|exact Hne]. cbn [fs_files fs_dirs] in He. set_solver.
Qed.

Lemma pruneLoop_pruned (fuel : nat) (appPath : string) :
  forall dir w,
  exists w', pruneLoop fuel appPath dir w = (inr tt, w') /\ prunedFrom w w'
             /\ (cap_rm (w_caps w) = false -> w' = w).
Proof.
  induction fuel as [|fuel IH]; intros dir w; cbn [pruneLoop].
  - exists w. split; [reflexivity|split; [apply prunedFrom_refl|auto]].
  - destruct (truthy dir && negb (eqs dir ".") && negb (eqs dir appPath)
              && startsWith (appPath +:+ "/") dir);
      [|exists w; split; [reflexivity|split; [apply prunedFrom_refl|auto]]].
    destruct (tryDeleteDirIfEmpty_pruned dir w) as (b & w1 & H1 & Hp1 & Hn1).
    rewrite (bind_inr _ _ _ _ _ H1).
    destruct b; [|exists w1; split; [reflexivity|split; assumption]].
    destruct (IH (dirname dir) w1) as (w2 & H2 & Hp2 & Hn2).
    exists w2. split; [exact H2|]. split; [eapply prunedFrom_trans; eassumption|].
    intros Hcap. specialize (Hn1 Hcap). subst w1. exact (Hn2 Hcap).
Qed.

Lemma pruneEmptyRouteDirs_pruned (movedFrom appDir : string) (w : World) :
  exists w', pruneEmptyRouteDirs movedFrom appDir w = (inr tt, w')
             /\ prunedFrom w w'
             /\ (cap_rm (w_caps w) = false -> w' = w).
Proof.
  unfold pruneEmptyRouteDirs.
  destruct (findSubPathIndex _ _); [apply pruneLoop_pruned|].
  exists w. split; [reflexivity|split; [apply prunedFrom_refl|auto]].
Qed.

(** X10: pruning never fails and never touches a file; it only removes
    directories, and every directory it removed has no entry left in the
    filesystem it leaves. *)
Theorem X10_prune_removes_only_empty_directories
        (movedFromFilePath appDirectory : string) (w : World) :
  let r := pruneEmptyRouteDirs movedFromFilePath appDirectory w in
  fst r = inr tt
  /\ fs_files (w_fs (snd r)) = fs_files (w_fs w)
  /\ fs_dirs (w_fs (snd r)) ⊆ fs_dirs (w_fs w)
  /\ forall k, k ∈ fs_dirs (w_fs w) -> k ∉ fs_dirs (w_fs (snd r)) ->
               entries (w_fs (snd r)) k = [].
Proof.
  intros r. subst r.
  destruct (pruneEmptyRouteDirs_pruned movedFromFilePath appDirectory w)
    as (w' & -> & (Hf & _ & _ & Hd & He) & _).
  cbn [fst snd]. auto.
Qed.

(** ** What a relocation does to the filesystem *)

Lemma resolvePath_cwd (fs fs' : FS) (p : string) :
  fs_cwd fs' = fs_cwd fs -> resolvePath fs' p = resolvePath fs p.
Proof. intros H. unfold resolvePath. rewrite H. reflexivity. Qed.

Lemma isFile_None (fs : FS) (k : list string) :
  isFile fs k = false -> fs_files fs !! k = None.
Proof.
  unfold isFile. intros H. apply bool_decide_eq_false in H.
  destruct (fs_files fs !! k); [exfalso; apply H; eauto|reflexivity].
Qed.

Lemma tryDeleteFile_effect (path : string) (w : World) :
  let k := resolvePath (w_fs w) path in
  let r := tryDeleteFile path w in
  fs_cwd (w_fs (snd r)) = fs_cwd (w_fs w)
  /\ w_caps (snd r) = w_caps w
  /\ (forall k', k' <> k -> fs_files (w_fs (snd r)) !! k' = fs_files (w_fs w) !! k')
  /\ (fst r = inr tt -> cap_unlink (w_caps w) || cap_rm (w_caps w) = true ->
      fs_files (w_fs (snd r)) !! k = None)
  /\ (cap_unlink (w_caps w) = false -> cap_rm (w_caps w) = false ->
      w_fs (snd r) = w_fs w).
Proof.
  intros k r. subst r. unfold tryDeleteFile. rewrite bind_getWorld.
  destruct (cap_unlink (w_caps w)) eqn:Hu.
  - unfold fsp_unlink. fold k. destruct (isFile (w_fs w) k) eqn:Hf; cbn.
    + repeat split; try discriminate.
      * intros k' Hk'. apply lookup_delete_ne. congruence.
      * intros _ _. apply lookup_delete_eq.
    + repeat split; discriminate.
  - destruct (cap_rm (w_caps w)) eqn:Hr.
    + unfold fsp_rm. fold k. destruct (isFile (w_fs w) k) eqn:Hf; cbn.
      * repeat split; try discriminate.
        -- intros k' Hk'. apply lookup_delete_ne. congruence.
        -- intros _ _. apply lookup_delete_eq.
      * destruct (bool_decide (k ∈ fs_dirs (w_fs w))
                  && (length (entries (w_fs w) k) =? 0)); cbn.
        -- repeat split; try discriminate.
           intros _ _. apply isFile_None. exact Hf.
        -- repeat split; discriminate.
    + unfold warnDeleteOnce, bind, getWorld, modify, ret.
      destruct (hasLoggedDeleteWarning w); cbn; repeat split; discriminate.
Qed.

Lemma existsFile_false (path : string) (w : World) :
  existsFile path w = (inr false, w) ->
  fs_files (w_fs w) !! resolvePath (w_fs w) path = None.
Proof.
  unfold existsFile, tryCatch, bind, fsp_access, ret.
  destruct (isFile (w_fs w) (resolvePath (w_fs w) path)) eqn:Hf; cbn [orb].
  - discriminate.
  - intros _. apply isFile_None. exact Hf.
Qed.

Lemma deleteOriginalAndPrune_effect (oldPath appDirectory : string) (w : World) :
  let k := resolvePath (w_fs w) oldPath in
  let r := deleteOriginalAndPrune oldPath appDirectory w in
  fs_cwd (w_fs (snd r)) = fs_cwd (w_fs w)
  /\ w_caps (snd r) = w_caps w
  /\ (forall k', k' <> k -> fs_files (w_fs (snd r)) !! k' = fs_files (w_fs w) !! k')
  /\ (fst r = inr tt -> cap_unlink (w_caps w) || cap_rm (w_caps w) = true ->
      fs_files (w_fs (snd r)) !! k = None)
  /\ (cap_unlink (w_caps w) = false -> cap_rm (w_caps w) = false ->
      w_fs (snd r) = w_fs w).
Proof.
  intros k r. subst r. unfold deleteOriginalAndPrune.
  destruct (existsFile_pure oldPath w) as [present Hpresent].
  rewrite (bind_inr _ _ _ _ _ Hpresent). destruct present.
  2:{ cbn [fst snd ret]. repeat split; try reflexivity.
      intros _ _. apply existsFile_false. exact Hpresent. }
  pose proof (tryDeleteFile_effect oldPath w) as H. cbv zeta in H. fold k in H.
  unfold bind. destruct (tryDeleteFile oldPath w) as [[e|[]] w1] eqn:Hdel;
    cbn [fst snd] in H |- *.
  - destruct H as (Hc & Hp & Hframe & _ & Hnone).
    repeat split; try assumption. discriminate.
  - destruct H as (Hc & Hp & Hframe & Hgone & Hnone).
    destruct (pruneEmptyRouteDirs_pruned oldPath appDirectory w1)
      as (w2 & -> & (Hf2 & Hc2 & Hp2 & _) & Hsame).
    cbn [fst snd]. split; [congruence|]. split; [congruence|]. split.
    + intros k' Hk'. rewrite Hf2. apply Hframe. exact Hk'.
    + split.
      * intros _ Hcap. rewrite Hf2. apply Hgone; [reflexivity|exact Hcap].
      * intros Hu Hr. rewrite Hsame by congruence. apply Hnone; assumption.
Qed.

Lemma fsp_readFile_result (path : string) (w : World) :
  fsp_readFile path w
  = (match fs_files (w_fs w) !! resolvePath (w_fs w) path with
     | Some text => inr text
     | None => inl "readFile failed"
     end, w).
Proof. unfold fsp_readFile. destruct (_ !! _); reflexivity. Qed.

Lemma writeMoved_effect (oldPath newPath output appDirectory : string)
      (w w' : World) (res : string + unit) :
  let kOld := resolvePath (w_fs w) oldPath in
  let kNew := resolvePath (w_fs w) newPath in
  writeMovedFileAndDeleteOriginal oldPath newPath output appDirectory w
  = (res, w') ->
  (forall k, k <> kOld -> k <> kNew ->
             fs_files (w_fs w') !! k = fs_files (w_fs w) !! k)
  /\ (res = inr tt ->
      normalizePath oldPath <> normalizePath newPath ->
      (kOld <> kNew -> fs_files (w_fs w') !! kNew = Some output)
      /\ (cap_unlink (w_caps w) || cap_rm (w_caps w) = true ->
          fs_files (w_fs w') !! kOld = None))
  /\ (cap_unlink (w_caps w) = false -> cap_rm (w_caps w) = false ->
      fs_files (w_fs w) ⊆ fs_files (w_fs w')
      /\ fs_dirs (w_fs w) ⊆ fs_dirs (w_fs w')).
Proof.
  intros kOld kNew Hrun. unfold writeMovedFileAndDeleteOriginal in Hrun.
  destruct (eqs (normalizePath oldPath) (normalizePath newPath)) eqn:Esame.
  { injection Hrun as <- <-. split; [reflexivity|]. split; [|auto].
    intros _ Hne. apply eqs_eq in Esame. contradiction. }
  destruct (existsFile_pure newPath w) as [targetExists Htarget].
  rewrite (bind_inr _ _ _ _ _ Htarget) in Hrun. destruct targetExists.
  - (* the target exists *)
    rewrite bind_getWorld in Hrun.
    destruct (cap_readFile (w_caps w));
      [|injection Hrun as <- <-; split; [reflexivity|]; split; [discriminate|auto]].
    unfold bind in Hrun. rewrite fsp_readFile_result in Hrun. fold kNew in Hrun.
    destruct (fs_files (w_fs w) !! kNew) as [existing|] eqn:Eread;
      [|injection Hrun as <- <-; split; [reflexivity|]; split; [discriminate|auto]].
    destruct (eqs existing output) eqn:Eeq;
      [|injection Hrun as <- <-; split; [reflexivity|]; split; [discriminate|auto]].
    apply eqs_eq in Eeq. subst existing.
    pose proof (deleteOriginalAndPrune_effect oldPath appDirectory w) as H.
    cbv zeta in H. fold kOld in H. rewrite Hrun in H. cbn [fst snd] in H.
    destruct H as (_ & _ & Hframe & Hgone & Hnone).
    split; [intros k Hk _; apply Hframe; exact Hk|]. split.
    + intros Hok _. split.
      * intros Hne. rewrite Hframe by congruence. exact Eread.
      * intros Hcap. apply Hgone; assumption.
    + intros Hu Hr. rewrite (Hnone Hu Hr). split; reflexivity.
  - (* a fresh target *)
    pose proof (existsFile_false _ _ Htarget) as Hfresh. fold kNew in Hfresh.
    unfold bind at 1 in Hrun. unfold fsp_mkdir_recursive in Hrun.
    cbv beta zeta in Hrun.
    destruct (existsb (isFile (w_fs w))
                (prefixes (resolvePath (w_fs w) (dirname newPath))));
      [injection Hrun as <- <-; split; [reflexivity|]; split; [discriminate|auto]|].
    set (w1 := set_fs _ w) in Hrun.
    assert (Hcwd1 : fs_cwd (w_fs w1) = fs_cwd (w_fs w)) by reflexivity.
    assert (Hfiles1 : fs_files (w_fs w1) = fs_files (w_fs w)) by reflexivity.
    assert (Hdirs1 : fs_dirs (w_fs w) ⊆ fs_dirs (w_fs w1)).
    { unfold w1. cbn [w_fs set_fs fs_dirs]. set_solver. }
    assert (Hcaps1 : w_caps w1 = w_caps w) by reflexivity.
    unfold bind at 1 in Hrun. unfold fsp_writeFile in Hrun.
    cbv beta zeta in Hrun.
    rewrite (resolvePath_cwd (w_fs w) (w_fs w1) newPath Hcwd1) in Hrun.
    fold kNew in Hrun.
    destruct (isDir (w_fs w1) kNew);
      [injection Hrun as <- <-; split; [reflexivity|]; split; [discriminate|];
       intros _ _; split; [reflexivity|exact Hdirs1]|].
    destruct (isDir (w_fs w1) (removelast kNew));
      [|injection Hrun as <- <-; split; [reflexivity|]; split; [discriminate|];
        intros _ _; split; [reflexivity|exact Hdirs1]].
    set (w2 := set_fs _ w1) in Hrun.
    assert (Hcwd2 : fs_cwd (w_fs w2) = fs_cwd (w_fs w)) by reflexivity.
    assert (Hfiles2 : fs_files (w_fs w2) = <[kNew := output]> (fs_files (w_fs w)))
      by reflexivity.
    assert (Hdirs2 : fs_dirs (w_fs w2) = fs_dirs (w_fs w1)) by reflexivity.
    assert (Hcaps2 : w_caps w2 = w_caps w) by reflexivity.
    pose proof (deleteOriginalAndPrune_effect oldPath appDirectory w2) as H.
    cbv zeta in H.
    rewrite (resolvePath_cwd (w_fs w) (w_fs w2) oldPath Hcwd2) in H.
    fold kOld in H. rewrite Hcaps2, Hrun in H. cbn [fst snd] in H.
    destruct H as (_ & _ & Hframe & Hgone & Hnone).
    split; [|split].
    + intros k Hk Hk'. rewrite (Hframe k Hk), Hfiles2.
      apply lookup_insert_ne. congruence.
    + intros Hok _. split.
      * intros Hne. rewrite Hframe by congruence. rewrite Hfiles2.
        apply lookup_insert_eq.
      * intros Hcap. apply Hgone; assumption.
    + intros Hu Hr. rewrite (Hnone Hu Hr), Hfiles2, Hdirs2.
      split; [apply insert_subseteq; exact Hfresh|exact Hdirs1].
Qed.

(** X11: a relocation changes no file other than its source and its target,
    whether it succeeds or fails. *)
Theorem X11_relocation_touches_two_files
        (oldPath newPath output appDirectory : string) (w : World)
        (k : list string) :
  k <> resolvePath (w_fs w) oldPath ->
  k <> resolvePath (w_fs w) newPath ->
  fs_files (w_fs (snd (writeMovedFileAndDeleteOriginal
                         oldPath newPath output appDirectory w))) !! k
  = fs_files (w_fs w) !! k.
Proof.
  intros Hold Hnew.
  destruct (writeMovedFileAndDeleteOriginal oldPath newPath output appDirectory w)
    as [res w'] eqn:Hrun.
  exact (proj1 (writeMoved_effect oldPath newPath output appDirectory w w' res Hrun)
           k Hold Hnew).
Qed.

Lemma X11_relocation_touches_two_files_witness :
  fs_files (w_fs (snd (writeMovedFileAndDeleteOriginal
                         "app/about/page.tsx" "routes/about/index.tsx"
                         "new text" "app" (worldOf [] ∅ pageAndNotesFS))))
    !! ["app"; "about"; "notes.md"]
  = Some "notes".
Proof.
  refine (eq_trans
            (X11_relocation_touches_two_files
               "app/about/page.tsx" "routes/about/index.tsx" "new text" "app"
               (worldOf [] ∅ pageAndNotesFS) ["app"; "about"; "notes.md"] _ _) _).
  - vm_compute. discriminate.
  - vm_compute. discriminate.
  - vm_compute. reflexivity.
Defined.

(** X12: after a relocation that succeeded, the target holds the output
    text (source and target being different files), and in a runtime that
    can delete the source is gone. *)
Theorem X12_relocation_success
        (oldPath newPath output appDirectory : string) (w w' : World) :
  writeMovedFileAndDeleteOriginal oldPath newPath output appDirectory w
  = (inr tt, w') ->
  normalizePath oldPath <> normalizePath newPath ->
  (resolvePath (w_fs w) oldPath <> resolvePath (w_fs w) newPath ->
   fs_files (w_fs w') !! resolvePath (w_fs w) newPath = Some output)
  /\ (cap_unlink (w_caps w) || cap_rm (w_caps w) = true ->
      fs_files (w_fs w') !! resolvePath (w_fs w) oldPath = None).
Proof.
  intros Hrun Hne.
  destruct (writeMoved_effect oldPath newPath output appDirectory w w' _ Hrun)
    as (_ & H & _).
  exact (H eq_refl Hne).
Qed.

Lemma X12_relocation_success_witness :
  let w := worldOf [] ∅ aboutPageFS in
  let w' := snd (writeMovedFileAndDeleteOriginal
                   "app/about/page.tsx" "routes/about/index.tsx" "new text" "app" w) in
  fs_files (w_fs w') !! ["routes"; "about"; "index.tsx"] = Some "new text"
  /\ fs_files (w_fs w') !! ["app"; "about"; "page.tsx"] = None.
Proof.
  intros w w'.
  pose proof (X12_relocation_success
                "app/about/page.tsx" "routes/about/index.tsx" "new text" "app"
                w w') as H.
  assert (H1 : writeMovedFileAndDeleteOriginal
                 "app/about/page.tsx" "routes/about/index.tsx" "new text" "app" w
               = (inr tt, w')) by (vm_compute; reflexivity).
  assert (H2 : normalizePath "app/about/page.tsx"
               <> normalizePath "routes/about/index.tsx")
    by (vm_compute; discriminate).
  destruct (H H1 H2) as [Hnew Hold]. split.
  - apply Hnew. vm_compute. discriminate.
  - apply Hold. reflexivity.
Defined.

(** X13: in a runtime that offers neither unlink nor rm a relocation loses
    nothing: every file keeps its text and every directory stays,
    whatever the outcome. *)
Theorem X13_relocation_without_delete
        (oldPath newPath output appDirectory : string) (w : World) :
  cap_unlink (w_caps w) = false ->
  cap_rm (w_caps w) = false ->
  let w' := snd (writeMovedFileAndDeleteOriginal
                   oldPath newPath output appDirectory w) in
  fs_files (w_fs w) ⊆ fs_files (w_fs w')
  /\ fs_dirs (w_fs w) ⊆ fs_dirs (w_fs w').
Proof.
  intros Hu Hr w'. subst w'.
  destruct (writeMovedFileAndDeleteOriginal oldPath newPath output appDirectory w)
    as [res w'] eqn:Hrun.
  exact (proj2 (proj2 (writeMoved_effect oldPath newPath output appDirectory
                         w w' res Hrun)) Hu Hr).
Qed.

Lemma X13_relocation_without_delete_witness :
  let w' := snd (writeMovedFileAndDeleteOriginal
                   "app/about/page.tsx" "routes/about/index.tsx" "new text" "app"
                   readOnlyWorld) in
  fs_files (w_fs readOnlyWorld) ⊆ fs_files (w_fs w')
  /\ fs_dirs (w_fs readOnlyWorld) ⊆ fs_dirs (w_fs w').
Proof.
  exact (X13_relocation_without_delete
           "app/about/page.tsx" "routes/about/index.tsx" "new text" "app"
           readOnlyWorld eq_refl eq_refl).
Defined.


(** ** A target that already exists *)

Lemma tryDeleteFile_unavailable (path : string) (w : World) :
  cap_unlink (w_caps w) = false -> cap_rm (w_caps w) = false ->
  exists w', tryDeleteFile path w = (inr tt, w')
             /\ w_fs w' = w_fs w /\ w_caps w' = w_caps w.
Proof.
  intros Hu Hr. unfold tryDeleteFile. rewrite bind_getWorld, Hu, Hr.
  unfold warnDeleteOnce. rewrite bind_getWorld.
  destruct (hasLoggedDeleteWarning w); eexists; (split; [reflexivity|]); auto.
Qed.

Lemma existing_target_effect
      (oldPath newPath output appDirectory existing : string) (w : World) :
  normalizePath oldPath <> normalizePath newPath ->
  fs_files (w_fs w) !! resolvePath (w_fs w) newPath = Some existing ->
  let kOld := resolvePath (w_fs w) oldPath in
  let r := writeMovedFileAndDeleteOriginal oldPath newPath output appDirectory w in
  (existing <> output \/ cap_readFile (w_caps w) = false ->
   r = (inl (conflictMessage newPath), w))
  /\ (existing = output -> cap_readFile (w_caps w) = true ->
      (existsFile oldPath w = (inr false, w) -> r = (inr tt, w))
      /\ (isFile (w_fs w) kOld = true ->
          cap_unlink (w_caps w) || cap_rm (w_caps w) = true ->
          r = pruneEmptyRouteDirs oldPath appDirectory (removeFile kOld w)
          /\ fst r = inr tt
          /\ fs_files (w_fs (snd r)) = delete kOld (fs_files (w_fs w))
          /\ fs_dirs (w_fs (snd r)) ⊆ fs_dirs (w_fs w)
          /\ (forall k, k ∈ fs_dirs (w_fs w) -> k ∉ fs_dirs (w_fs (snd r)) ->
                        entries (w_fs (snd r)) k = [])
          /\ (startsWith "/" (normalizePath oldPath) = true ->
              snd r = removeFile kOld w))
      /\ (isFile (w_fs w) kOld = true ->
          cap_unlink (w_caps w) = false -> cap_rm (w_caps w) = false ->
          fst r = inr tt /\ w_fs (snd r) = w_fs w)).
Proof.
  intros Hne Htarget kOld r. subst r kOld.
  unfold writeMovedFileAndDeleteOriginal.
  apply eqs_neq in Hne. rewrite Hne.
  assert (Hf : isFile (w_fs w) (resolvePath (w_fs w) newPath) = true).
  { unfold isFile. rewrite Htarget. apply bool_decide_eq_true. eauto. }
  rewrite (bind_inr _ _ _ _ _ (existsFile_file _ _ Hf)), bind_getWorld.
  assert (Hread : fsp_readFile newPath w = (inr existing, w)).
  { unfold fsp_readFile. rewrite Htarget. reflexivity. }
  split.
  - intros Hcase. destruct (cap_readFile (w_caps w)) eqn:Hcap; [|reflexivity].
    destruct Hcase as [Hdiff|Hno]; [|discriminate].
    apply eqs_neq in Hdiff. rewrite (bind_inr _ _ _ _ _ Hread), Hdiff. reflexivity.
  - intros -> Hcap. rewrite Hcap, (bind_inr _ _ _ _ _ Hread), eqs_refl.
    unfold deleteOriginalAndPrune. split; [|split].
    + intros Habsent. rewrite (bind_inr _ _ _ _ _ Habsent). reflexivity.
    + intros Hold Hdel.
      rewrite (bind_inr _ _ _ _ _ (existsFile_file _ _ Hold)).
      rewrite (bind_inr _ _ _ _ _ (tryDeleteFile_file _ _ Hold Hdel)).
      destruct (pruneEmptyRouteDirs_pruned oldPath appDirectory
                  (removeFile (resolvePath (w_fs w) oldPath) w))
        as (w' & Hp & (Hfiles & _ & _ & Hdirs & Hempty) & _).
      split; [reflexivity|]. rewrite Hp. cbn [fst snd].
      split; [reflexivity|]. split; [exact Hfiles|].
      split; [exact Hdirs|]. split; [exact Hempty|].
      intros Habs. rewrite (pruneEmptyRouteDirs_absolute _ _ _ Habs) in Hp.
      injection Hp as <-. reflexivity.
    + intros Hold Hu Hr.
      rewrite (bind_inr _ _ _ _ _ (existsFile_file _ _ Hold)).
      destruct (tryDeleteFile_unavailable oldPath w Hu Hr) as (w1 & H1 & Hfs1 & Hc1).
      rewrite (bind_inr _ _ _ _ _ H1).
      destruct (pruneEmptyRouteDirs_pruned oldPath appDirectory w1)
        as (w' & Hp & _ & Hsame).
      rewrite Hp. cbn [fst snd]. split; [reflexivity|].
      rewrite Hsame by (rewrite Hc1; exact Hr). exact Hfs1.
Qed.

(** C2: the target of /proj/app/blog/page.tsx already holds the final
    text.  The relocation succeeds and deletes the source; yet the
    directory /proj/app/blog, empty now and under the app root, stays,
    while the same relocation by relative paths removes it.  In general:
    a text that differs, or a runtime without readFile, gives the
    conflict error and leaves the world as it was; an equal text leaves
    an absent source alone, deletes a source that is still there when
    the runtime can delete (it keeps it otherwise) and succeeds; the
    pruning that follows removes only directories without entry, and
    none at all when the source path starts with a separator. *)
Theorem C2_equal_content_keeps_empty_directory :
  (let w := blogMovedOnce [] in
   let r := writeMovedFileAndDeleteOriginal
              "/proj/app/blog/page.tsx" "/proj/routes/blog/index.tsx"
              "new text" "app" w in
   fst r = inr tt
   /\ fs_files (w_fs (snd r))
      = {[ ["proj"; "routes"; "blog"; "index.tsx"] := "new text" ]}
   /\ entries (w_fs (snd r)) ["proj"; "app"; "blog"] = []
   /\ fs_dirs (w_fs (snd r)) = fs_dirs (w_fs w))
  /\ (let w := blogMovedOnce ["proj"] in
      let r := writeMovedFileAndDeleteOriginal
                 "app/blog/page.tsx" "routes/blog/index.tsx" "new text" "app" w in
      fst r = inr tt
      /\ fs_files (w_fs (snd r))
         = {[ ["proj"; "routes"; "blog"; "index.tsx"] := "new text" ]}
      /\ fs_dirs (w_fs (snd r))
         = {[ ["proj"]; ["proj"; "app"]; ["proj"; "routes"];
              ["proj"; "routes"; "blog"] ]})
  /\ (forall (oldPath newPath output appDirectory existing : string) (w : World),
        normalizePath oldPath <> normalizePath newPath ->
        fs_files (w_fs w) !! resolvePath (w_fs w) newPath = Some existing ->
        let kOld := resolvePath (w_fs w) oldPath in
        let r := writeMovedFileAndDeleteOriginal
                   oldPath newPath output appDirectory w in
        (existing <> output \/ cap_readFile (w_caps w) = false ->
         r = (inl (conflictMessage newPath), w))
        /\ (existing = output -> cap_readFile (w_caps w) = true ->
            (existsFile oldPath w = (inr false, w) -> r = (inr tt, w))
            /\ (isFile (w_fs w) kOld = true ->
                cap_unlink (w_caps w) || cap_rm (w_caps w) = true ->
                r = pruneEmptyRouteDirs oldPath appDirectory (removeFile kOld w)
                /\ fst r = inr tt
                /\ fs_files (w_fs (snd r)) = delete kOld (fs_files (w_fs w))
                /\ fs_dirs (w_fs (snd r)) ⊆ fs_dirs (w_fs w)
                /\ (forall k, k ∈ fs_dirs (w_fs w) ->
                              k ∉ fs_dirs (w_fs (snd r)) ->
                              entries (w_fs (snd r)) k = [])
                /\ (startsWith "/" (normalizePath oldPath) = true ->
                    snd r = removeFile kOld w))
            /\ (isFile (w_fs w) kOld = true ->
                cap_unlink (w_caps w) = false -> cap_rm (w_caps w) = false ->
                fst r = inr tt /\ w_fs (snd r) = w_fs w))).
Proof.
  split; [compute_conj|]. split; [compute_conj|].
  exact existing_target_effect.
Qed.

(** A target with another text: the conflict error, and the world as it
    was. *)
Example relocation_conflict :
  let w := worldOf [] ∅ (movedOnceFS "other text") in
  writeMovedFileAndDeleteOriginal "app/page.tsx" "routes/index.tsx" "new text" "app" w
  = (inl (conflictMessage "routes/index.tsx"), w).
Proof.
  intros w.
  refine (proj1 (existing_target_effect "app/page.tsx" "routes/index.tsx" "new text"
                   "app" "other text" w _ _) _).
  - vm_compute. discriminate.
  - vm_compute. reflexivity.
  - left. discriminate.
Qed.


(** ** Splitting and joining *)

Lemma splitOn_nonempty (f : ascii -> bool) (s : string) : splitOn f s <> [].
Proof.
  destruct s as [|c s]; simpl; [discriminate|].
  destruct (f c); [discriminate|]. destruct (splitOn f s); discriminate.
Qed.

Lemma splitOn_cons (f : ascii -> bool) (c : ascii) (s : string) :
  f c = false ->
  exists h t, splitOn f s = h :: t /\ splitOn f (String c s) = String c h :: t.
Proof.
  intros Hc. simpl. rewrite Hc.
  destruct (splitOn f s) as [|h t] eqn:E; [destruct (splitOn_nonempty f s E)|].
  eauto.
Qed.

Lemma splitOn_app_sep (f : ascii -> bool) (a : string) (c : ascii) (b : string) :
  f c = true ->
  splitOn f (a +:+ String c b) = splitOn f a ++ splitOn f b.
Proof.
  intros Hc. induction a as [|d a IH].
  - simpl. rewrite Hc. reflexivity.
  - rewrite app_String. destruct (f d) eqn:Hd.
    + simpl. rewrite Hd. simpl in IH. rewrite IH. reflexivity.
    + destruct (splitOn_cons f d a Hd) as (h & t & Ha & ->).
      destruct (splitOn_cons f d (a +:+ String c b) Hd) as (h' & t' & Hab & ->).
      rewrite IH, Ha in Hab. injection Hab as <- <-. reflexivity.
Qed.

Lemma splitOn_plain (f : ascii -> bool) (s : string) :
  allChars (fun c => negb (f c)) s = true -> splitOn f s = [s].
Proof.
  induction s as [|c s IH]; simpl; [reflexivity|].
  intros H. apply andb_true_iff in H as [Hc Hs]. apply negb_true_iff in Hc.
  rewrite Hc, (IH Hs). reflexivity.
Qed.

Lemma splitOn_normalize (s : string) :
  splitOn (Ascii.eqb slash) (normalizePath s) = splitOn isSep s.
Proof.
  induction s as [|c s IH]; [reflexivity|].
  cbn [normalizePath splitOn]. rewrite IH. unfold isSep.
  destruct (Ascii.eqb c backslash) eqn:Eb.
  - rewrite orb_true_r. reflexivity.
  - rewrite orb_false_r, (Ascii.eqb_sym slash c). reflexivity.
Qed.

Lemma splitOn_singleton (f : ascii -> bool) (s h : string) :
  splitOn f s = [h] -> s = h.
Proof.
  revert h. induction s as [|c s IH]; intros h; simpl.
  - intros [= <-]. reflexivity.
  - destruct (f c).
    + intros [= _ H]. destruct (splitOn_nonempty f s H).
    + destruct (splitOn f s) as [|h0 t0] eqn:E; [destruct (splitOn_nonempty f s E)|].
      intros [= <- ->]. f_equal. apply IH. reflexivity.
Qed.

Lemma splitOn_last_suffix (f : ascii -> bool) (s : string) :
  exists pre, s = pre +:+ List.last (splitOn f s) EmptyString.
Proof.
  induction s as [|c s IH].
  - exists EmptyString. reflexivity.
  - destruct IH as [pre IH].
    pose proof (splitOn_nonempty f s) as Hne. cbn [splitOn].
    destruct (f c) eqn:Hc.
    + exists (String c pre).
      destruct (splitOn f s) as [|h t] eqn:E; [contradiction|].
      change (List.last (EmptyString :: h :: t) EmptyString)
        with (List.last (h :: t) EmptyString).
      rewrite app_String. congruence.
    + destruct (splitOn f s) as [|h t] eqn:E; [contradiction|].
      destruct t as [|h' t].
      * exists EmptyString. apply splitOn_singleton in E. subst h.
        reflexivity.
      * exists (String c pre).
        change (List.last (String c h :: h' :: t) EmptyString)
          with (List.last (h :: h' :: t) EmptyString).
        rewrite app_String. congruence.
Qed.

Lemma join_snoc (sep : string) (xs : list string) (m : string) :
  xs <> [] -> join sep (xs ++ [m]) = join sep xs +:+ sep +:+ m.
Proof.
  induction xs as [|x xs IH]; [congruence|]. intros _.
  destruct xs as [|y xs].
  - reflexivity.
  - change (join sep ((x :: y :: xs) ++ [m]))
      with (x +:+ sep +:+ join sep ((y :: xs) ++ [m])).
    rewrite IH by discriminate.
    change (join sep (x :: y :: xs)) with (x +:+ sep +:+ join sep (y :: xs)).
    rewrite !app_assoc_s. reflexivity.
Qed.

Lemma normalizePath_app (a b : string) :
  normalizePath (a +:+ b) = normalizePath a +:+ normalizePath b.
Proof. induction a as [|c a IH]; simpl; [reflexivity|]. by rewrite IH. Qed.

Lemma normalizePath_plain (s : string) :
  allChars (fun c => negb (isSep c)) s = true -> normalizePath s = s.
Proof.
  induction s as [|c s IH]; simpl; [reflexivity|].
  intros H. apply andb_true_iff in H as [Hc Hs]. rewrite (IH Hs).
  apply negb_true_iff, orb_false_iff in Hc as [_ Hc]. rewrite Hc. reflexivity.
Qed.

Lemma last_slash_unique (x y m q : string) :
  x +:+ "/" +:+ m = y +:+ "/" +:+ q ->
  allChars (notChar slash) m = true ->
  allChars (notChar slash) q = true ->
  m = q.
Proof.
  intros H Hm Hq. revert y H. induction x as [|c x IH]; intros [|d y] H;
    rewrite ?app_String, ?app_Empty_l in H.
  - injection H as H. exact H.
  - injection H as H1 H2. rewrite H2, allChars_app in Hm.
    apply andb_true_iff in Hm as [_ Hm]. simpl in Hm. discriminate.
  - injection H as H1 H2. rewrite <- H2, allChars_app in Hq.
    apply andb_true_iff in Hq as [_ Hq]. simpl in Hq. discriminate.
  - injection H as _ H. apply (IH y).
    rewrite ?app_String, ?app_Empty_l. exact H.
Qed.

(** ** The names of route files *)

Lemma isExt_cases (e : string) :
  isExt e = true -> e = "tsx" \/ e = "jsx" \/ e = "ts" \/ e = "js".
Proof.
  unfold isExt, extensions. cbn [existsb]. intros H.
  repeat (apply orb_true_iff in H as [H|H]);
    try (apply eqs_eq in H; auto); discriminate.
Qed.

Lemma specialFile_Some (name base e : string) :
  specialFile name base = Some e ->
  base = name +:+ "." +:+ e /\ isExt e = true.
Proof.
  unfold specialFile.
  destruct (stripPrefix (name +:+ ".") base) as [r|] eqn:E; [|discriminate].
  destruct (isExt r) eqn:Er; [|discriminate]. intros [= <-].
  apply stripPrefix_Some in E. rewrite app_assoc_s in E.
  split; [exact E|exact Er].
Qed.

Lemma ext_no_dot (e : string) :
  isExt e = true -> allChars (notChar "."%char) e = true.
Proof. intros He. apply isExt_cases in He as [-> | [-> | [-> | ->]]]; reflexivity. Qed.

Lemma stem_unique (s1 s2 x y : string) :
  s1 +:+ "." +:+ x = s2 +:+ "." +:+ y ->
  allChars (notChar "."%char) x = true ->
  allChars (notChar "."%char) y = true ->
  s1 = s2.
Proof.
  revert s2. induction s1 as [|c s1 IH]; intros [|d s2] H Hx Hy;
    rewrite ?app_String, ?app_Empty_l in H.
  - reflexivity.
  - injection H as H1 H2. rewrite H2, allChars_app in Hx.
    apply andb_true_iff in Hx as [_ Hx]. simpl in Hx. discriminate.
  - injection H as H1 H2. rewrite <- H2, allChars_app in Hy.
    apply andb_true_iff in Hy as [_ Hy]. simpl in Hy. discriminate.
  - injection H as -> H. f_equal. apply (IH s2); [|assumption|assumption].
    rewrite ?app_String, ?app_Empty_l. exact H.
Qed.

(** What [mapRouteFilename] returns: a target name with the extension of
    the source; the root name only for a layout flagged as root layout. *)
Lemma mapRouteFilename_Some (base mapped : string) (isRootLayout : bool) :
  mapRouteFilename base isRootLayout = Some mapped ->
  exists name stem e,
    base = name +:+ "." +:+ e /\ isExt e = true /\ mapped = stem +:+ "." +:+ e
    /\ (stem = "__root" <-> isRootLayout = true /\ isLayoutFile base = true).
Proof.
  unfold mapRouteFilename.
  destruct (specialFile "page" base) as [e|] eqn:E1.
  { intros [= <-]. apply specialFile_Some in E1 as [Hb He].
    exists "page", "index", e. split; [exact Hb|]. split; [exact He|].
    split; [reflexivity|]. split; [discriminate|]. intros [_ H].
    unfold isLayoutFile in H.
    destruct (specialFile "layout" base) as [e2|] eqn:E2; [|discriminate].
    apply specialFile_Some in E2 as [Hb2 He2]. rewrite Hb in Hb2.
    apply stem_unique in Hb2; [discriminate|by apply ext_no_dot..]. }
  destruct (specialFile "layout" base) as [e|] eqn:E2.
  { intros [= <-]. apply specialFile_Some in E2 as [Hb He].
    assert (Hl : isLayoutFile base = true).
    { unfold isLayoutFile, specialFile. rewrite Hb.
      rewrite <- app_assoc_s, stripPrefix_app, He. reflexivity. }
    destruct isRootLayout.
    - exists "layout", "__root", e. repeat split; assumption.
    - exists "layout", "_layout", e. split; [exact Hb|]. split; [exact He|].
      split; [reflexivity|]. split; [discriminate|]. intros [H _]. discriminate. }
  assert (Hnl : ~ (isRootLayout = true /\ isLayoutFile base = true)).
  { intros [_ H]. unfold isLayoutFile in H. rewrite E2 in H. discriminate. }
  destruct (specialFile "loading" base) as [e|] eqn:E3.
  { intros [= <-]. apply specialFile_Some in E3 as [Hb He].
    exists "loading", "-pending", e. split; [exact Hb|]. split; [exact He|].
    split; [reflexivity|]. split; [discriminate|]. intros H. destruct (Hnl H). }
  destruct (specialFile "error" base) as [e|] eqn:E4.
  { intros [= <-]. apply specialFile_Some in E4 as [Hb He].
    exists "error", "-error", e. split; [exact Hb|]. split; [exact He|].
    split; [reflexivity|]. split; [discriminate|]. intros H. destruct (Hnl H). }
  destruct (specialFile "not-found" base) as [e|] eqn:E5.
  { intros [= <-]. apply specialFile_Some in E5 as [Hb He].
    exists "not-found", "-not-found", e. split; [exact Hb|]. split; [exact He|].
    split; [reflexivity|]. split; [discriminate|]. intros H. destruct (Hnl H). }
  destruct (specialFile "template" base) as [e|] eqn:E6.
  { intros [= <-]. apply specialFile_Some in E6 as [Hb He].
    exists "template", "-template", e. split; [exact Hb|]. split; [exact He|].
    split; [reflexivity|]. split; [discriminate|]. intros H. destruct (Hnl H). }
  destruct (specialFile "default" base) as [e|] eqn:E7.
  { intros [= <-]. apply specialFile_Some in E7 as [Hb He].
    exists "default", "-default", e. split; [exact Hb|]. split; [exact He|].
    split; [reflexivity|]. split; [discriminate|]. intros H. destruct (Hnl H). }
  destruct (specialFile "route" base) as [e|] eqn:E8; [|discriminate].
  intros [= <-]. apply specialFile_Some in E8 as [Hb He].
  exists "route", "route", e. split; [exact Hb|]. split; [exact He|].
  split; [exact Hb|]. split; [discriminate|]. intros H. destruct (Hnl H).
Qed.

(** ** The target of a relocation *)

Lemma span_append (f : ascii -> bool) (s a b : string) :
  span f s = (a, b) -> s = a +:+ b.
Proof.
  revert a b. induction s as [|c s IH]; intros a b; simpl.
  - intros [= <- <-]. reflexivity.
  - destruct (f c).
    + destruct (span f s) as [a' b']. intros [= <- <-].
      rewrite app_String. f_equal. apply IH. reflexivity.
    + intros [= <- <-]. reflexivity.
Qed.

Lemma matchWhole_Some (pre : string) (cls : ascii -> bool) (post s run : string) :
  matchWhole pre cls post s = Some run -> s = pre +:+ run +:+ post.
Proof.
  unfold matchWhole, matchRun.
  destruct (stripPrefix pre s) as [r|] eqn:Hpre; [|discriminate].
  destruct (span cls r) as [run' r'] eqn:Hspan.
  destruct (isEmpty run'); [discriminate|].
  destruct (stripPrefix post r') as [rest|] eqn:Hpost; [|discriminate].
  destruct rest; [|discriminate]. intros [= <-].
  apply stripPrefix_Some in Hpre, Hpost. apply span_append in Hspan.
  rewrite Hpre, Hspan, Hpost, app_Empty_r. reflexivity.
Qed.

Lemma mapRouteSegment_no_sep (segment : string) :
  allChars (fun c => negb (isSep c)) segment = true ->
  allChars (fun c => negb (isSep c)) (mapRouteSegment segment) = true.
Proof.
  intros H. unfold mapRouteSegment.
  destruct (matchWhole "(" _ ")" segment) as [g|] eqn:E1.
  { apply matchWhole_Some in E1. rewrite E1, !allChars_app in H.
    apply andb_true_iff in H as [_ H]. apply andb_true_iff in H as [H _].
    rewrite allChars_app, H. reflexivity. }
  destruct (matchWhole "[[..." _ "]]" segment); [reflexivity|].
  destruct (matchWhole "[..." _ "]" segment); [reflexivity|].
  destruct (matchWhole "[" _ "]" segment) as [d|] eqn:E4; [|exact H].
  apply matchWhole_Some in E4. rewrite E4, !allChars_app in H.
  apply andb_true_iff in H as [_ H]. apply andb_true_iff in H as [H _].
  rewrite allChars_app, H. reflexivity.
Qed.

Lemma computeTanstackTargetPath_Some
      (filename : string) (runtimeConfig : ResolvedRuntimeConfig) (target : string) :
  computeTanstackTargetPath filename runtimeConfig = Some target ->
  let segments := splitOn isSep filename in
  let appDirSegments := normalizeDirSegments (appDirectory runtimeConfig) in
  let base := List.last segments EmptyString in
  exists appIndex mapped dirs,
    hasSourceExtension filename = true
    /\ includes "node_modules" filename = false
    /\ findSubPathIndex segments appDirSegments = Some appIndex
    /\ appIndex + length appDirSegments < length segments
    /\ mapRouteFilename base
         ((length segments =? appIndex + length appDirSegments + 1)
          && isLayoutFile base) = Some mapped
    /\ dirs <> []
    /\ Forall (fun s => allChars (fun c => negb (isSep c)) s = true) dirs
    /\ target = join (if includes "\" filename then "\" else "/")
                     (dirs ++ [mapped])
    /\ normalizePath target <> normalizePath filename.
Proof.
  intros H segments appDirSegments base. unfold computeTanstackTargetPath in H.
  destruct (hasSourceExtension filename); [|discriminate].
  destruct (includes "node_modules" filename); [discriminate|].
  cbv zeta in H. fold segments appDirSegments base in H.
  destruct (length segments <? 2); [discriminate|].
  destruct (findSubPathIndex segments appDirSegments) as [appIndex|];
    [|discriminate].
  destruct (length segments <=? appIndex + length appDirSegments) eqn:Hlen;
    [discriminate|].
  apply Nat.leb_gt in Hlen.
  destruct (isEmpty base); [discriminate|].
  set (relative := firstn (length segments - 1 - (appIndex + length appDirSegments))
                          (skipn (appIndex + length appDirSegments) segments)) in H.
  destruct (existsb isPrivateSegment relative || existsb isParallelSegment relative);
    [discriminate|].
  destruct (existsb isRouteGroupSegment relative && isLayoutLikeFile base
            && negb ((0 <? length relative) && forallb isRouteGroupSegment relative));
    [discriminate|].
  assert (Hrel : (length relative =? 0)
                 = (length segments =? appIndex + length appDirSegments + 1)).
  { unfold relative. rewrite length_firstn, length_skipn.
    destruct (length segments =? appIndex + length appDirSegments + 1) eqn:E.
    - apply Nat.eqb_eq in E. apply Nat.eqb_eq. lia.
    - apply Nat.eqb_neq in E. apply Nat.eqb_neq. lia. }
  rewrite Hrel in H.
  destruct (mapRouteFilename base _) as [mapped|] eqn:Hmap; [|discriminate].
  destruct (length (filterBoolean (splitOn isSep (routesDirectory runtimeConfig)))
            =? 0) eqn:Hroutes; [discriminate|].
  apply Nat.eqb_neq in Hroutes.
  set (targetPath := join _ _) in H.
  destruct (eqs (normalizePath targetPath) (normalizePath filename)) eqn:Heq;
    [discriminate|].
  injection H as <-. apply eqs_neq in Heq.
  exists appIndex, mapped.
  exists (firstn appIndex segments
          ++ filterBoolean (splitOn isSep (routesDirectory runtimeConfig))
          ++ List.map mapRouteSegment relative).
  pose proof (splitOn_no_sep isSep filename) as Hplain. fold segments in Hplain.
  split; [reflexivity|]. split; [reflexivity|]. split; [reflexivity|].
  split; [exact Hlen|]. split; [exact Hmap|]. split; [|split; [|split]].
  - intros Hnil. apply app_eq_nil in Hnil as [_ Hnil].
    apply app_eq_nil in Hnil as [Hnil _]. rewrite Hnil in Hroutes.
    simpl in Hroutes. lia.
  - apply Forall_app. split; [apply Forall_take; exact Hplain|].
    apply Forall_app. split.
    + apply Forall_forall. intros x Hx. apply list_elem_of_In, filter_In in Hx as [Hx _].
      pose proof (splitOn_no_sep isSep (routesDirectory runtimeConfig)) as Hr.
      rewrite Forall_forall in Hr. apply Hr. by apply list_elem_of_In.
    + apply List.Forall_map. unfold relative.
      eapply Forall_impl; [apply Forall_take, Forall_drop; exact Hplain|].
      intros x Hx. apply mapRouteSegment_no_sep. exact Hx.
  - unfold targetPath. rewrite <- !app_assoc. reflexivity.
  - exact Heq.
Qed.

Lemma endsWith_app (p a b : string) :
  endsWith p b = true -> endsWith p (a +:+ b) = true.
Proof.
  rewrite !endsWith_iff. intros [r ->]. exists (a +:+ r).
  rewrite app_assoc_s. reflexivity.
Qed.

(** X14: a file is relocated only when it has a source extension and lies
    outside node_modules; its target keeps that extension and is never
    the file itself. *)
Theorem X14_target_keeps_extension
        (filename : string) (runtimeConfig : ResolvedRuntimeConfig)
        (target : string) :
  computeTanstackTargetPath filename runtimeConfig = Some target ->
  includes "node_modules" filename = false
  /\ normalizePath target <> normalizePath filename
  /\ exists e,
       In e extensions
       /\ endsWith ("." +:+ e) filename = true
       /\ endsWith ("." +:+ e) target = true.
Proof.
  intros H. apply computeTanstackTargetPath_Some in H. cbv zeta in H.
  destruct H as (appIndex & mapped & dirs & _ & Hnm & _ & _ & Hmap & Hdirs & _ & -> & Hne).
  split; [exact Hnm|]. split; [exact Hne|].
  apply mapRouteFilename_Some in Hmap as (name & stem & e & Hbase & He & -> & _).
  exists e. split.
  - apply isExt_cases in He as [-> | [-> | [-> | ->]]]; simpl; auto.
  - split.
    + destruct (splitOn_last_suffix isSep filename) as [pre Hpre].
      rewrite Hpre, Hbase. apply endsWith_app, endsWith_iff.
      exists name. reflexivity.
    + rewrite (join_snoc _ dirs _ Hdirs).
      apply endsWith_app, endsWith_app, endsWith_iff. exists stem. reflexivity.
Qed.

Lemma X14_target_keeps_extension_witness :
  includes "node_modules" "app/(marketing)/about/page.tsx" = false
  /\ normalizePath "routes/_marketing/about/index.tsx"
     <> normalizePath "app/(marketing)/about/page.tsx"
  /\ exists e,
       In e extensions
       /\ endsWith ("." +:+ e) "app/(marketing)/about/page.tsx" = true
       /\ endsWith ("." +:+ e) "routes/_marketing/about/index.tsx" = true.
Proof.
  apply (X14_target_keeps_extension "app/(marketing)/about/page.tsx" defaultConfig).
  vm_compute. reflexivity.
Defined.

Lemma allChars_ext_no_slash (stem e : string) :
  isExt e = true ->
  allChars (notChar slash) stem = true ->
  allChars (notChar slash) (stem +:+ "." +:+ e) = true.
Proof.
  intros He Hs. rewrite allChars_app, Hs.
  apply isExt_cases in He as [-> | [-> | [-> | ->]]]; reflexivity.
Qed.

Lemma mapped_no_slash (base mapped : string) (isRootLayout : bool) :
  allChars (fun c => negb (isSep c)) base = true ->
  mapRouteFilename base isRootLayout = Some mapped ->
  allChars (fun c => negb (isSep c)) mapped = true.
Proof.
  intros Hbase H. unfold mapRouteFilename in H.
  repeat match type of H with
         | match specialFile ?n base with _ => _ end = _ =>
             let E := fresh "E" in
             destruct (specialFile n base) as [e|] eqn:E;
             [injection H as <-; apply specialFile_Some in E as [_ He];
              try exact Hbase;
              try (destruct isRootLayout);
              apply isExt_cases in He as [-> | [-> | [-> | ->]]]; reflexivity|]
         end.
  discriminate.
Qed.

Lemma last_segment_plain (f : ascii -> bool) (s : string) :
  allChars (fun c => negb (f c)) (List.last (splitOn f s) EmptyString) = true.
Proof.
  pose proof (splitOn_no_sep f s) as Hall.
  pose proof (splitOn_nonempty f s) as Hne.
  destruct (exists_last Hne) as (l & x & Hlx). rewrite Hlx in Hall |- *.
  rewrite last_last. apply Forall_app in Hall as [_ Hall]. by inversion Hall.
Qed.

(** X15: the target of a relocation is the root-declaration file exactly
    when the source is a layout directly in the app directory. *)
Theorem X15_root_target_iff_root_layout
        (filename : string) (runtimeConfig : ResolvedRuntimeConfig)
        (target : string) :
  computeTanstackTargetPath filename runtimeConfig = Some target ->
  isRootRouteTarget target = isRootLayoutPath filename runtimeConfig.
Proof.
  intros H. apply computeTanstackTargetPath_Some in H. cbv zeta in H.
  destruct H as (appIndex & mapped & dirs & _ & _ & Hidx & _ & Hmap & Hdirs & _ & -> & _).
  unfold isRootLayoutPath. rewrite Hidx.
  set (base := List.last (splitOn isSep filename) EmptyString) in *.
  set (flag := (length (splitOn isSep filename)
                =? appIndex + length (normalizeDirSegments (appDirectory runtimeConfig)) + 1)
               && isLayoutFile base) in *.
  assert (Hbase : allChars (fun c => negb (isSep c)) base = true).
  { apply last_segment_plain. }
  pose proof (mapped_no_slash _ _ _ Hbase Hmap) as Hmapped.
  pose proof (mapRouteFilename_Some _ _ _ Hmap)
    as (name & stem & e & _ & He & Hm & Hroot).
  rewrite (join_snoc _ dirs _ Hdirs).
  set (sep := if includes "\" filename then "\" else "/").
  assert (Hnorm : normalizePath (join sep dirs +:+ sep +:+ mapped)
                  = normalizePath (join sep dirs) +:+ "/" +:+ mapped).
  { rewrite !normalizePath_app, (normalizePath_plain mapped Hmapped).
    unfold sep. destruct (includes "\" filename); reflexivity. }
  assert (Hslash : allChars (notChar slash) mapped = true).
  { eapply allChars_weaken; [|exact Hmapped]. intros c Hc.
    apply negb_true_iff, orb_false_iff in Hc as [Hc _].
    unfold notChar. rewrite Hc. reflexivity. }
  unfold isRootRouteTarget. rewrite Hnorm.
  destruct flag eqn:Hflag.
  - (* a root layout: the mapped name is the root name *)
    assert (Hstem : stem = "__root").
    { apply Hroot. apply andb_true_iff in Hflag as [_ Hl]. split; [reflexivity|].
      exact Hl. }
    subst stem mapped. apply existsb_exists. exists e. split.
    + apply isExt_cases in He as [-> | [-> | [-> | ->]]]; simpl; auto.
    + apply endsWith_iff. exists (normalizePath (join sep dirs)).
      reflexivity.
  - (* any other file: the mapped name is not the root name *)
    destruct (existsb _ extensions) eqn:Hex; [|reflexivity]. exfalso.
    apply existsb_exists in Hex as (e' & He' & Hend).
    apply endsWith_iff in Hend as [r Hr].
    assert (He'x : isExt e' = true).
    { unfold isExt. apply existsb_exists. exists e'. split; [exact He'|].
      apply eqs_refl. }
    assert (Hq : allChars (notChar slash) ("__root" +:+ "." +:+ e') = true)
      by (apply allChars_ext_no_slash; [exact He'x|reflexivity]).
    assert (Heq : mapped = "__root" +:+ "." +:+ e').
    { apply (last_slash_unique (normalizePath (join sep dirs)) r);
        [exact Hr|exact Hslash|exact Hq]. }
    rewrite Hm in Heq.
    assert (Hstem : stem = "__root").
    { apply (stem_unique stem "__root" e e' Heq); by apply ext_no_dot. }
    apply Hroot in Hstem as [Hf _]. discriminate.
Qed.

Lemma X15_root_target_iff_root_layout_witness :
  isRootRouteTarget "routes/__root.tsx" = isRootLayoutPath "app/layout.tsx" defaultConfig.
Proof.
  apply (X15_root_target_iff_root_layout "app/layout.tsx" defaultConfig).
  vm_compute. reflexivity.
Defined.


(** ** Files the file-structure pass skips *)

Lemma length_app_s (a b : string) :
  String.length (a +:+ b) = String.length a + String.length b.
Proof. induction a as [|c a IH]; simpl; [reflexivity|]. by rewrite IH. Qed.

Lemma sliceFrom_app (a b : string) : sliceFrom (String.length a) (a +:+ b) = b.
Proof. induction a as [|c a IH]; simpl; [destruct b; reflexivity|]. exact IH. Qed.

Lemma indexOfFrom_Some (p s : string) :
  forall j i,
    indexOfFrom p s j = Some i ->
    exists a b, s = a +:+ p +:+ b /\ i = j + String.length a.
Proof.
  induction s as [|c s IH]; intros j i; cbn [indexOfFrom]; unfold startsWith.
  - destruct (stripPrefix p EmptyString) as [r|] eqn:E; [|discriminate].
    intros [= <-]. apply stripPrefix_Some in E. exists EmptyString, r.
    split; [exact E|simpl; lia].
  - destruct (stripPrefix p (String c s)) as [r|] eqn:E.
    + intros [= <-]. apply stripPrefix_Some in E. exists EmptyString, r.
      split; [exact E|simpl; lia].
    + intros H. apply IH in H as (a & b & -> & ->). exists (String c a), b.
      split; [reflexivity|simpl; lia].
Qed.

Lemma span_ext (h f g : ascii -> bool) (s : string) :
  (forall c, h c = true -> f c = g c) ->
  allChars h s = true -> span f s = span g s.
Proof.
  intros Hfg. induction s as [|c s IH]; simpl; [reflexivity|].
  intros [Hc Hs]%andb_true_iff. rewrite (Hfg c Hc), (IH Hs). reflexivity.
Qed.

(** On a segment without separator the tests of the pass and of the
    driver for a leading marker agree. *)
Lemma marker_tests_agree (marker seg : string) :
  allChars (fun c => negb (isSep c)) seg = true ->
  matchWhole marker (notChar slash) EmptyString seg
  = matchWhole marker (fun c => negb (isSep c)) EmptyString seg.
Proof.
  intros Hseg. unfold matchWhole, matchRun.
  destruct (stripPrefix marker seg) as [r|] eqn:E; [|reflexivity].
  apply stripPrefix_Some in E. subst seg.
  rewrite allChars_app in Hseg. apply andb_true_iff in Hseg as [_ Hr].
  rewrite (span_ext (fun c => negb (isSep c)) (notChar slash)
             (fun c => negb (isSep c)) r); [reflexivity| |exact Hr].
  intros c Hc. rewrite Hc. apply negb_true_iff, orb_false_iff in Hc as [Hc _].
  unfold notChar. rewrite Hc. reflexivity.
Qed.

Lemma existsb_filtered (P Q : string -> bool) (front dirs : list string) :
  (forall x, In x dirs -> P x = true -> Q x = true) ->
  existsb P (filterBoolean dirs) = true ->
  existsb Q (front ++ dirs) = true.
Proof.
  intros HPQ H. apply existsb_exists in H as (x & Hx & HP).
  apply filter_In in Hx as [Hx _].
  apply existsb_exists. exists x. split; [apply in_or_app; right; exact Hx|].
  exact (HPQ x Hx HP).
Qed.

(** What [computeTanstackTargetPath] answers on a path that names the
    app directory and a file: nothing when the file name is empty or the
    segments in between are excluded. *)
Lemma computeTanstackTargetPath_excluded_base
      (filename : string) (runtimeConfig : ResolvedRuntimeConfig)
      (pre dirs : list string) (base : string) :
  splitOn isSep filename
  = pre ++ normalizeDirSegments (appDirectory runtimeConfig) ++ dirs ++ [base] ->
  (isEmpty base = false ->
   forall front,
      existsb isPrivateSegment (front ++ dirs)
      || existsb isParallelSegment (front ++ dirs)
      || (existsb isRouteGroupSegment (front ++ dirs) && isLayoutLikeFile base
          && negb ((0 <? length (front ++ dirs))
                   && forallb isRouteGroupSegment (front ++ dirs))) = true) ->
  computeTanstackTargetPath filename runtimeConfig = None.
Proof.
  intros Hsplit Hex. unfold computeTanstackTargetPath.
  destruct (negb (hasSourceExtension filename)); [reflexivity|].
  destruct (includes "node_modules" filename); [reflexivity|].
  cbv zeta. rewrite Hsplit.
  remember (normalizeDirSegments (appDirectory runtimeConfig)) as app eqn:Happ.
  clear Happ Hsplit.
  destruct (length (pre ++ app ++ dirs ++ [base]) <? 2); [reflexivity|].
  destruct (findSubPathIndex (pre ++ app ++ dirs ++ [base]) app) as [idx|] eqn:Hidx;
    [|reflexivity].
  assert (Hle : idx <= length pre).
  { destruct app as [|a app']; [discriminate|].
    destruct (findSubPathIndex_occurs (a :: app') pre (dirs ++ [base]))
      as (i & Hi & Hle); [discriminate|].
    rewrite Hi in Hidx. injection Hidx as <-. exact Hle. }
  destruct (length (pre ++ app ++ dirs ++ [base]) <=? idx + length app); [reflexivity|].
  replace (List.last (pre ++ app ++ dirs ++ [base]) EmptyString) with base.
  2:{ rewrite !app_assoc. rewrite last_last. reflexivity. }
  destruct (isEmpty base) eqn:Hbase; [reflexivity|].
  replace (pre ++ app ++ dirs ++ [base]) with ((pre ++ app) ++ dirs ++ [base])
    by (rewrite <- !app_assoc; reflexivity).
  rewrite (relative_segments_suffix (pre ++ app) dirs base (idx + length app))
    by (rewrite length_app; lia).
  specialize (Hex eq_refl (skipn (idx + length app) (pre ++ app))).
  destruct (existsb isPrivateSegment _ || existsb isParallelSegment _);
    [reflexivity|].
  simpl in Hex. rewrite Hex. reflexivity.
Qed.

(** X16: with the app directory named app, a file the file-structure pass
    refuses to rewrite is not relocated by the driver. *)
Theorem X16_skipped_files_are_not_relocated
        (filename : string) (runtimeConfig : ResolvedRuntimeConfig) :
  normalizeDirSegments (appDirectory runtimeConfig) = ["app"] ->
  shouldSkipAutomaticRouteTransform filename = true ->
  computeTanstackTargetPath filename runtimeConfig = None.
Proof.
  intros Happ Hskip. unfold shouldSkipAutomaticRouteTransform in Hskip.
  destruct (indexOf "/app/" (normalizePath filename)) as [appIdx|] eqn:Hidx;
    [|discriminate].
  apply indexOfFrom_Some in Hidx as (a & b & Hnorm & ->).
  cbv zeta in Hskip. rewrite Hnorm in Hskip.
  replace (a +:+ "/app/" +:+ b) with ((a +:+ "/app/") +:+ b) in Hskip
    by apply app_assoc_s.
  replace (0 + String.length a + 5) with (String.length (a +:+ "/app/")) in Hskip
    by (rewrite length_app_s; simpl; lia).
  rewrite sliceFrom_app in Hskip.
  (* the segments of the path *)
  assert (Hsegs : splitOn isSep filename
                  = splitOn (Ascii.eqb slash) a ++ ["app"]
                    ++ splitOn (Ascii.eqb slash) b).
  { rewrite <- splitOn_normalize, Hnorm.
    change (a +:+ "/app/" +:+ b) with (a +:+ String slash ("app" +:+ String slash b)).
    rewrite !splitOn_app_sep by reflexivity. reflexivity. }
  pose proof (splitOn_nonempty (Ascii.eqb slash) b) as Hne.
  destruct (exists_last Hne) as (dirs & base & Hb).
  rewrite Hb in Hsegs, Hskip.
  pose proof (splitOn_no_sep isSep filename) as Hplain. rewrite Hsegs in Hplain.
  apply Forall_app in Hplain as [_ Hplain].
  apply Forall_app in Hplain as [_ Hplain].
  apply Forall_app in Hplain as [Hdirs _].
  rewrite Forall_forall in Hdirs.
  apply (computeTanstackTargetPath_excluded_base filename runtimeConfig
           (splitOn (Ascii.eqb slash) a) dirs base).
  { rewrite Happ. exact Hsegs. }
  intros Hbase front.
  assert (Hfilter : filterBoolean (dirs ++ [base]) = filterBoolean dirs ++ [base]).
  { unfold filterBoolean. rewrite List.filter_app. simpl. unfold truthy at 2.
    rewrite Hbase. reflexivity. }
  rewrite Hfilter, last_last, removelast_last in Hskip.
  assert (Hpriv : existsb (fun seg => match matchWhole "_" (notChar slash) EmptyString seg with
                                      | Some _ => true | None => false end)
                          (filterBoolean dirs) = true ->
                  existsb isPrivateSegment (front ++ dirs) = true).
  { apply existsb_filtered. intros x Hx. unfold isPrivateSegment.
    rewrite marker_tests_agree; [auto|]. apply Hdirs. by apply list_elem_of_In. }
  assert (Hpar : existsb (fun seg => match matchWhole "@" (notChar slash) EmptyString seg with
                                     | Some _ => true | None => false end)
                         (filterBoolean dirs) = true ->
                 existsb isParallelSegment (front ++ dirs) = true).
  { apply existsb_filtered. intros x Hx. unfold isParallelSegment.
    rewrite marker_tests_agree; [auto|]. apply Hdirs. by apply list_elem_of_In. }
  destruct (existsb _ (filterBoolean dirs)) eqn:E1 in Hskip.
  { rewrite (Hpriv E1). reflexivity. }
  destruct (existsb _ (filterBoolean dirs)) eqn:E2 in Hskip.
  { rewrite (Hpar E2), orb_true_r. reflexivity. }
  cbn [orb] in Hskip.
  apply andb_true_iff in Hskip as [Hskip Honly].
  apply andb_true_iff in Hskip as [Hgroup Hlayout].
  assert (Hg : existsb isRouteGroupSegment (front ++ dirs) = true).
  { revert Hgroup. apply existsb_filtered. auto. }
  rewrite Hg, Hlayout. cbn [andb].
  assert (Hall : forallb isRouteGroupSegment (front ++ dirs) = false).
  { apply negb_true_iff, andb_false_iff in Honly as [Hlen|Hall].
    - apply existsb_exists in Hgroup as (x & Hx & _).
      destruct (filterBoolean dirs); [destruct Hx|discriminate].
    - destruct (forallb isRouteGroupSegment (front ++ dirs)) eqn:E; [|reflexivity].
      rewrite forallb_forall in E.
      assert (forallb isRouteGroupSegment (filterBoolean dirs) = true);
        [|congruence].
      apply forallb_forall. intros x Hx. apply filter_In in Hx as [Hx _].
      apply E. apply in_or_app. right. exact Hx. }
  rewrite Hall, andb_false_r, !orb_true_r. reflexivity.
Qed.

Lemma X16_skipped_files_are_not_relocated_witness :
  computeTanstackTargetPath "/proj/app/(shop)/cart/layout.tsx" defaultConfig = None.
Proof.
  apply (X16_skipped_files_are_not_relocated
           "/proj/app/(shop)/cart/layout.tsx" defaultConfig).
  - vm_compute. reflexivity.
  - vm_compute. reflexivity.
Defined.

(** ** Dynamic segments *)

(** X17: a dynamic segment, a bracketed name that starts with neither a dot
    nor a bracket and holds no closing bracket, maps to a dollar sign and
    the name. *)
Theorem X17_mapRouteSegment_dynamic (c : ascii) (rest : string) :
  c <> "."%char -> c <> "["%char ->
  allChars (notChar "]"%char) (String c rest) = true ->
  mapRouteSegment ("[" +:+ String c rest +:+ "]") = "$" +:+ String c rest.
Proof.
  intros Hdot Hbr Hall.
  assert (E1 : Ascii.eqb "."%char c = false) by (apply Ascii.eqb_neq; congruence).
  assert (E2 : Ascii.eqb "["%char c = false) by (apply Ascii.eqb_neq; congruence).
  assert (Hdyn : matchWhole "[" (notChar "]"%char) "]"
                   ("[" +:+ String c rest +:+ "]") = Some (String c rest)).
  { apply (matchWhole_intro "[" _ "]"%char EmptyString (String c rest));
      [discriminate|exact Hall|reflexivity]. }
  unfold mapRouteSegment. rewrite Hdyn.
  unfold matchWhole, matchRun.
  rewrite !app_String, !app_Empty_l. cbn [stripPrefix].
  change (Ascii.eqb "(" "[") with false.
  change (Ascii.eqb "[" "[") with true. cbv iota.
  rewrite E1, E2. reflexivity.
Qed.

Lemma X17_mapRouteSegment_dynamic_witness :
  mapRouteSegment "[id]" = "$id".
Proof.
  apply (X17_mapRouteSegment_dynamic "i" "d"); [discriminate|discriminate|reflexivity].
Defined.

(** ** Separators *)

(** X18: the route paths computed by the transforms and by the driver, and
    the test for skipped files, do not depend on the separator style of
    the path: a path written with backslashes gives what the same path
    written with slashes gives. *)
Theorem X18_route_paths_ignore_separator_style
        (filename : string) (runtimeConfig : ResolvedRuntimeConfig) :
  calculateRoutePath (normalizePath filename) = calculateRoutePath filename
  /\ calculateTanstackRoute (normalizePath filename) = calculateTanstackRoute filename
  /\ computeExpectedRoutePathFromSourcePath (normalizePath filename) runtimeConfig
     = computeExpectedRoutePathFromSourcePath filename runtimeConfig
  /\ shouldSkipAutomaticRouteTransform (normalizePath filename)
     = shouldSkipAutomaticRouteTransform filename.
Proof.
  unfold calculateRoutePath, calculateRoutePathBody, calculateTanstackRoute,
    calculateTanstackRouteBody, computeExpectedRoutePathFromSourcePath,
    expectedRelativeSegments, shouldSkipAutomaticRouteTransform.
  rewrite !normalizePath_idem. repeat split.
Qed.


(** ** Trimming *)

Lemma dropWhile_all (f : ascii -> bool) (a s : string) :
  allChars f a = true -> dropWhile f (a +:+ s) = dropWhile f s.
Proof.
  induction a as [|c a IH]; [reflexivity|]. simpl.
  intros [Hc Ha]%andb_true_iff. rewrite Hc. exact (IH Ha).
Qed.

Lemma dropWhileEnd_allChars (f : ascii -> bool) (b : string) :
  allChars f b = true -> dropWhileEnd f b = EmptyString.
Proof.
  induction b as [|c b IH]; [reflexivity|]. simpl.
  intros [Hc Hb]%andb_true_iff. rewrite (IH Hb), Hc. reflexivity.
Qed.

Lemma dropWhileEnd_all (f : ascii -> bool) (s b : string) :
  allChars f b = true -> dropWhileEnd f (s +:+ b) = dropWhileEnd f s.
Proof.
  intros Hb. induction s as [|c s IH].
  - rewrite app_Empty_l. apply dropWhileEnd_allChars. exact Hb.
  - rewrite app_String. cbn [dropWhileEnd]. rewrite IH. reflexivity.
Qed.

Lemma dropWhileEnd_keep (f : ascii -> bool) (s : string) :
  (forall c, lastChar s = Some c -> f c = false) -> dropWhileEnd f s = s.
Proof.
  induction s as [|c s IH]; [reflexivity|]. intros Hlast.
  cbn [dropWhileEnd]. destruct s as [|d s].
  - simpl. rewrite (Hlast c eq_refl). reflexivity.
  - rewrite IH by (intros x Hx; apply Hlast; exact Hx). reflexivity.
Qed.

Lemma lastChar_app_one (s : string) (c : ascii) :
  lastChar (s +:+ String c EmptyString) = Some c.
Proof.
  induction s as [|d s IH]; [reflexivity|]. rewrite app_String.
  cbn [lastChar]. destruct (s +:+ String c EmptyString) eqn:E; [|exact IH].
  destruct s; discriminate.
Qed.

Lemma trim_trimmed (s : string) : trimmed (trim s).
Proof.
  unfold trim. split.
  - intros c r H. apply dropWhileEnd_head in H as [r' H].
    exact (dropWhile_head _ _ _ _ H).
  - intros c. apply dropWhileEnd_last.
Qed.

Lemma trim_frame (pre l post : string) :
  trimmed l -> allChars isSpace pre = true -> allChars isSpace post = true ->
  trim (pre +:+ l +:+ post) = l.
Proof.
  intros [Hhead Hlast] Hpre Hpost. unfold trim.
  rewrite (dropWhile_all _ _ _ Hpre). destruct l as [|c l].
  - rewrite app_Empty_l.
    rewrite <- (app_Empty_r post), (dropWhile_all _ _ _ Hpost). reflexivity.
  - rewrite app_String. cbn [dropWhile]. rewrite (Hhead c l eq_refl).
    rewrite <- app_String, (dropWhileEnd_all _ _ _ Hpost).
    apply dropWhileEnd_keep. exact Hlast.
Qed.

Lemma trim_fixed (l : string) : trimmed l -> trim l = l.
Proof.
  intros H. rewrite <- (app_Empty_r l) at 1.
  exact (trim_frame EmptyString l EmptyString H eq_refl eq_refl).
Qed.

Lemma allChars_dropWhile (P f : ascii -> bool) (s : string) :
  allChars P s = true -> allChars P (dropWhile f s) = true.
Proof.
  induction s as [|c s IH]; [reflexivity|]. simpl.
  intros H. destruct (f c); [|exact H].
  apply andb_true_iff in H as [_ H]. exact (IH H).
Qed.

Lemma allChars_dropWhileEnd (P f : ascii -> bool) (s : string) :
  allChars P s = true -> allChars P (dropWhileEnd f s) = true.
Proof.
  induction s as [|c s IH]; [reflexivity|]. simpl.
  intros [Hc Hs]%andb_true_iff.
  destruct (isEmpty (dropWhileEnd f s) && f c); [reflexivity|].
  simpl. rewrite Hc. exact (IH Hs).
Qed.

Lemma allChars_trim (P : ascii -> bool) (s : string) :
  allChars P s = true -> allChars P (trim s) = true.
Proof. intros H. apply allChars_dropWhileEnd, allChars_dropWhile, H. Qed.

(** ** Lines *)

Lemma join_cons (sep x : string) (xs : list string) :
  xs <> [] -> join sep (x :: xs) = x +:+ sep +:+ join sep xs.
Proof. destruct xs; [congruence|reflexivity]. Qed.

Lemma join_splitOn (c : ascii) (s : string) :
  join (String c EmptyString) (splitOn (Ascii.eqb c) s) = s.
Proof.
  induction s as [|d s IH]; [reflexivity|].
  pose proof (splitOn_nonempty (Ascii.eqb c) s) as Hne.
  cbn [splitOn]. destruct (Ascii.eqb c d) eqn:E.
  - apply Ascii.eqb_eq in E. subst d.
    rewrite (join_cons _ _ _ Hne), IH. reflexivity.
  - destruct (splitOn (Ascii.eqb c) s) as [|h t]; [contradiction|].
    destruct t as [|h' t].
    + simpl in IH |- *. congruence.
    + rewrite join_cons in IH |- * by discriminate.
      rewrite app_String, IH. reflexivity.
Qed.

Lemma splitOn_join (c : ascii) (lines : list string) :
  lines <> [] ->
  Forall (fun l => allChars (fun x => negb (Ascii.eqb c x)) l = true) lines ->
  splitOn (Ascii.eqb c) (join (String c EmptyString) lines) = lines.
Proof.
  induction lines as [|l lines IH]; [congruence|]. intros _ Hall.
  apply Forall_cons in Hall as [Hl Hall]. destruct lines as [|l2 lines].
  - apply splitOn_plain. exact Hl.
  - rewrite join_cons by discriminate.
    change (l +:+ String c EmptyString +:+ join (String c EmptyString) (l2 :: lines))
      with (l +:+ String c (join (String c EmptyString) (l2 :: lines))).
    rewrite splitOn_app_sep by apply Ascii.eqb_refl.
    rewrite (splitOn_plain _ _ Hl), IH by (discriminate || assumption).
    reflexivity.
Qed.

Lemma allChars_repeatSpace (P : ascii -> bool) (n : nat) :
  P " "%char = true -> allChars P (repeatSpace n) = true.
Proof. intros H. induction n as [|n IH]; simpl; [reflexivity|]. by rewrite H, IH. Qed.

Lemma repeatSpace_add (n m : nat) :
  repeatSpace n +:+ repeatSpace m = repeatSpace (n + m).
Proof. induction n as [|n IH]; simpl; [reflexivity|]. by rewrite <- IH. Qed.

Lemma indentLine_no_newline (n : nat) (line : string) :
  allChars (fun x => negb (Ascii.eqb newline x)) line = true ->
  allChars (fun x => negb (Ascii.eqb newline x)) (indentLine n line) = true.
Proof.
  intros H. unfold indentLine. destruct (truthy (trim line)); [|exact H].
  rewrite allChars_app, H, allChars_repeatSpace; reflexivity.
Qed.

Lemma indentLine_add (n m : nat) (line : string) :
  indentLine n (indentLine m line) = indentLine (n + m) line.
Proof.
  unfold indentLine. destruct (truthy (trim line)) eqn:E; [|rewrite E; reflexivity].
  assert (Htrim : trim (repeatSpace m +:+ line) = trim line).
  { unfold trim. rewrite dropWhile_all; [reflexivity|].
    apply allChars_repeatSpace. reflexivity. }
  rewrite Htrim, E, <- app_assoc_s, repeatSpace_add. reflexivity.
Qed.

Lemma indent_lines (str : string) (n : nat) :
  splitOn (Ascii.eqb newline) (indent str n)
  = List.map (indentLine n) (splitOn (Ascii.eqb newline) str).
Proof.
  unfold indent. fold (indentLine n).
  change nl with (String newline EmptyString).
  apply splitOn_join.
  - pose proof (splitOn_nonempty (Ascii.eqb newline) str) as Hne.
    destruct (splitOn (Ascii.eqb newline) str); [contradiction|discriminate].
  - apply Forall_map. eapply Forall_impl; [apply splitOn_no_sep|].
    intros line Hline. apply indentLine_no_newline. exact Hline.
Qed.

(** X19: indent works line by line: the lines of its result are the lines
    of the input, each one that holds more than white space with the
    spaces in front and the others unchanged; indenting by nothing
    changes nothing, and indenting twice indents by the sum. *)
Theorem X19_indent_line_by_line (str : string) (n m : nat) :
  splitOn (Ascii.eqb newline) (indent str n)
  = List.map (indentLine n) (splitOn (Ascii.eqb newline) str)
  /\ indent str 0 = str
  /\ indent (indent str m) n = indent str (n + m).
Proof.
  split; [apply indent_lines|]. split.
  - unfold indent. rewrite (map_ext _ (fun line => line)), map_id.
    + change nl with (String newline EmptyString). apply join_splitOn.
    + intros line. destruct (truthy (trim line)); reflexivity.
  - unfold indent at 1. fold (indentLine n). rewrite indent_lines, map_map.
    unfold indent. fold (indentLine (n + m)). f_equal.
    apply map_ext. intros line. apply indentLine_add.
Qed.

(** ** Braced attribute values *)

Lemma sliceInner_braced (e : string) : sliceInner ("{" +:+ e +:+ "}") = e.
Proof.
  unfold sliceInner. rewrite app_String, app_Empty_l.
  cbn [String.length sliceFrom].
  replace (S (String.length (e +:+ "}")) - 2) with (String.length e).
  - apply sliceTo_app.
  - rewrite length_app_s. simpl. lia.
Qed.

Lemma braced_trimmed (e : string) : trimmed ("{" +:+ e +:+ "}").
Proof.
  split.
  - intros c r H. rewrite app_String, app_Empty_l in H. injection H as <- _.
    reflexivity.
  - intros c H. rewrite app_String, app_Empty_l in H.
    change (String "{" (e +:+ "}")) with (String "{" e +:+ "}") in H.
    rewrite lastChar_app_one in H. injection H as <-. reflexivity.
Qed.

(** X20: unwrapJsxExpression returns the trimmed inside of a braced value,
    whatever white space surrounds the braces, and nothing for a value
    that, trimmed, does not start with an opening brace. *)
Theorem X20_unwrapJsxExpression_braced (pre e post value : string) :
  (allChars isSpace pre = true -> allChars isSpace post = true ->
   unwrapJsxExpression (pre +:+ ("{" +:+ e +:+ "}") +:+ post) = Some (trim e))
  /\ (startsWith "{" (trim value) = false -> unwrapJsxExpression value = None).
Proof.
  split.
  - intros Hpre Hpost. unfold unwrapJsxExpression.
    rewrite (trim_frame pre _ post (braced_trimmed e) Hpre Hpost).
    assert (Hs : startsWith "{" ("{" +:+ e +:+ "}") = true) by reflexivity.
    assert (He : endsWith "}" ("{" +:+ e +:+ "}") = true).
    { apply endsWith_iff. exists ("{" +:+ e). rewrite app_assoc_s. reflexivity. }
    rewrite Hs, He, sliceInner_braced. reflexivity.
  - intros H. unfold unwrapJsxExpression. rewrite H. reflexivity.
Qed.

(** The no-break space is white space for [trim]: a line that holds
    nothing else is not indented, and it may surround the braces of an
    attribute value. *)
Example no_break_space_is_white_space :
  indent (String nbsp EmptyString) 2 = String nbsp EmptyString
  /\ unwrapJsxExpression (String nbsp "{a}") = Some "a"
  /\ trim (String nbsp ("a" +:+ String nbsp EmptyString)) = "a".
Proof. repeat split; vm_compute; reflexivity. Qed.

(** ** Import specifiers *)

Lemma firstMatch_Some {A} (m : string -> option A) (s : string) (a : A) :
  firstMatch m s = Some a -> exists pre t, s = pre +:+ t /\ m t = Some a.
Proof.
  induction s as [|c s IH]; cbn [firstMatch].
  - destruct (m EmptyString) eqn:E; [|discriminate]. intros [= <-].
    exists EmptyString, EmptyString. split; [reflexivity|exact E].
  - destruct (m (String c s)) eqn:E.
    + intros [= <-]. exists EmptyString, (String c s). split; [reflexivity|exact E].
    + intros H. apply IH in H as (pre & t & -> & Ht).
      exists (String c pre), t. split; [reflexivity|exact Ht].
Qed.

Lemma span_fst_all (f : ascii -> bool) (s : string) :
  allChars f (fst (span f s)) = true.
Proof.
  induction s as [|c s IH]; [reflexivity|]. simpl.
  destruct (f c) eqn:E; [|reflexivity].
  destruct (span f s) as [a b]. simpl in IH |- *. rewrite E. exact IH.
Qed.

Lemma splitOn_allChars (P f : ascii -> bool) (s : string) :
  allChars P s = true ->
  Forall (fun piece => allChars P piece = true) (splitOn f s).
Proof.
  induction s as [|c s IH]; simpl.
  - intros _. constructor; [reflexivity|constructor].
  - intros [Hc Hs]%andb_true_iff. specialize (IH Hs). destruct (f c).
    + constructor; [reflexivity|exact IH].
    + destruct (splitOn f s) as [|h t].
      * constructor; [simpl; rewrite Hc; reflexivity|constructor].
      * inversion IH; subst.
        constructor; [simpl; rewrite Hc; assumption|assumption].
Qed.

Lemma braceGroupAt_no_brace (t g : string) :
  braceGroupAt t = Some g -> allChars (notChar "}"%char) g = true.
Proof.
  unfold braceGroupAt. destruct (stripPrefix "{" t) as [r|]; [|discriminate].
  pose proof (span_fst_all (notChar "}"%char) r) as H.
  destruct (span (notChar "}"%char) r) as [body r']. simpl in H.
  destruct (stripPrefix "}" r'); [|discriminate]. intros [= <-]. exact H.
Qed.

(** X21: every specifier parseImportSpecifiers returns is a non-empty text
    without white space at either end, without comma and without closing
    brace. *)
Theorem X21_parseImportSpecifiers_clean (importText s : string) :
  In s (parseImportSpecifiers importText) ->
  s <> EmptyString /\ trim s = s
  /\ allChars (notChar ","%char) s = true
  /\ allChars (notChar "}"%char) s = true.
Proof.
  unfold parseImportSpecifiers.
  destruct (firstMatch braceGroupAt importText) as [g|] eqn:Hm; [|intros []].
  destruct (truthy g); [|intros []].
  apply firstMatch_Some in Hm as (_ & t & _ & Hg).
  apply braceGroupAt_no_brace in Hg.
  intros Hin. apply filter_In in Hin as [Hin Hlen].
  apply in_map_iff in Hin as (piece & <- & Hpiece).
  split; [|split; [|split]].
  - intros E. rewrite E in Hlen. discriminate.
  - apply trim_fixed, trim_trimmed.
  - apply allChars_trim.
    pose proof (splitOn_no_sep (Ascii.eqb ","%char) g) as Hall.
    rewrite Forall_forall in Hall.
    eapply allChars_weaken; [|apply Hall; by apply list_elem_of_In].
    intros c Hc. unfold notChar. rewrite Ascii.eqb_sym. exact Hc.
  - apply allChars_trim.
    pose proof (splitOn_allChars (notChar "}"%char) (Ascii.eqb ","%char) g Hg) as Hall.
    rewrite Forall_forall in Hall. apply Hall. by apply list_elem_of_In.
Qed.

Lemma X21_parseImportSpecifiers_clean_witness :
  "useRouter" <> EmptyString /\ trim "useRouter" = "useRouter"
  /\ allChars (notChar ","%char) "useRouter" = true
  /\ allChars (notChar "}"%char) "useRouter" = true.
Proof.
  apply (X21_parseImportSpecifiers_clean
           "import { usePathname , useRouter } from 'next/navigation'").
  vm_compute. auto.
Defined.

(** ** Text the root normalization leaves alone *)

Lemma includes_false_here (p : string) (c : ascii) (s : string) :
  includes p (String c s) = false ->
  stripPrefix p (String c s) = None /\ includes p s = false.
Proof.
  cbn [includes]. unfold startsWith.
  destruct (stripPrefix p (String c s)); [discriminate|]. auto.
Qed.

Lemma gsubFuel_untouched (m : string -> option (string * string)) (p : string) :
  (forall t, stripPrefix p t = None -> m t = None) ->
  forall fuel s, includes p s = false -> gsubFuel m fuel s = s.
Proof.
  intros Hm. induction fuel as [|fuel IH]; intros s Hs; [reflexivity|].
  destruct s as [|c s]; [reflexivity|]. cbn [gsubFuel].
  apply includes_false_here in Hs as [Hhere Hrest].
  rewrite (Hm _ Hhere), (IH s Hrest). reflexivity.
Qed.

(** X22: the normalization of a root route leaves a text unchanged that
    holds neither a call of createFileRoute nor the word import. *)
Theorem X22_normalizeRootRouteSource_untouched (source : string) :
  includes "createFileRoute(" source = false ->
  includes "import" source = false ->
  normalizeRootRouteSource source = source.
Proof.
  intros Hcall Himport. unfold normalizeRootRouteSource, gsub.
  rewrite (gsubFuel_untouched rootFactoryCallAt "createFileRoute("); [| |exact Hcall].
  - apply (gsubFuel_untouched tanstackImportAt "import"); [|exact Himport].
    intros t Ht. unfold tanstackImportAt. rewrite Ht. reflexivity.
  - intros t Ht. unfold rootFactoryCallAt. rewrite Ht. reflexivity.
Qed.

Lemma X22_normalizeRootRouteSource_untouched_witness :
  normalizeRootRouteSource "export default function Layout() { return null }"
  = "export default function Layout() { return null }".
Proof.
  apply X22_normalizeRootRouteSource_untouched; reflexivity.
Defined.


(** ** Reading an import list back *)

Lemma filter_nonempty_truthy (xs : list string) :
  List.filter (fun s => 0 <? String.length s) xs = filterBoolean xs.
Proof.
  unfold filterBoolean. apply filter_ext. intros s. destruct s; reflexivity.
Qed.

Lemma parts_clean (imports : string) :
  allChars (notChar "}"%char) imports = true ->
  Forall cleanSpecifier
    (filterBoolean (List.map trim (splitOn (Ascii.eqb ","%char) imports))).
Proof.
  intros Hb. apply Forall_forall. intros s Hs. apply list_elem_of_In in Hs.
  apply filter_In in Hs as [Hs Ht].
  apply in_map_iff in Hs as (piece & <- & Hpiece).
  split; [|split; [|split]].
  - intros E. rewrite E in Ht. discriminate.
  - apply trim_trimmed.
  - apply allChars_trim.
    pose proof (splitOn_no_sep (Ascii.eqb ","%char) imports) as Hall.
    rewrite Forall_forall in Hall. apply Hall. by apply list_elem_of_In.
  - apply allChars_trim.
    pose proof (splitOn_allChars (notChar "}"%char) (Ascii.eqb ","%char) imports Hb)
      as Hall.
    rewrite Forall_forall in Hall. apply Hall. by apply list_elem_of_In.
Qed.

Lemma braceGroupAt_other (c : ascii) (s : string) :
  c <> "{"%char -> braceGroupAt (String c s) = None.
Proof.
  intros Hc. unfold braceGroupAt. cbn [stripPrefix].
  assert (E : Ascii.eqb "{"%char c = false) by (apply Ascii.eqb_neq; congruence).
  rewrite E. reflexivity.
Qed.

Lemma braceGroupAt_group (g tail : string) :
  allChars (notChar "}"%char) g = true ->
  braceGroupAt (String "{" (g +:+ String "}" tail)) = Some g.
Proof.
  intros Hg. unfold braceGroupAt. cbn [stripPrefix].
  change (Ascii.eqb "{" "{") with true. cbv iota.
  rewrite (span_stop (notChar "}"%char) g "}"%char tail Hg eq_refl). reflexivity.
Qed.

Lemma parse_braced (imports : string) :
  allChars (notChar "}"%char) imports = true ->
  parseImportSpecifiers ("{" +:+ imports +:+ "}")
  = filterBoolean (List.map trim (splitOn (Ascii.eqb ","%char) imports)).
Proof.
  intros Hb. unfold parseImportSpecifiers.
  change ("{" +:+ imports +:+ "}") with (String "{" (imports +:+ String "}" EmptyString)).
  cbn [firstMatch]. rewrite (braceGroupAt_group _ _ Hb).
  destruct imports as [|c imports]; [reflexivity|].
  cbn [truthy isEmpty negb]. apply filter_nonempty_truthy.
Qed.

Lemma split_rendered (specifiers : list string) :
  specifiers <> [] ->
  Forall cleanSpecifier specifiers ->
  forall pre,
    allChars isSpace pre = true ->
    allChars (fun x => negb (Ascii.eqb ","%char x)) pre = true ->
    List.map trim
      (splitOn (Ascii.eqb ","%char) (pre +:+ join ", " specifiers +:+ " "))
    = specifiers.
Proof.
  induction specifiers as [|l ls IH]; [congruence|]. intros _ Hall pre Hsp Hco.
  apply Forall_cons in Hall as [(Hne & Htr & Hcomma & _) Hall].
  destruct ls as [|l2 ls].
  - cbn [join]. rewrite splitOn_plain.
    + cbn [List.map]. rewrite (trim_frame pre l " " Htr Hsp eq_refl). reflexivity.
    + rewrite !allChars_app, Hco, Hcomma. reflexivity.
  - rewrite join_cons by discriminate.
    replace (pre +:+ (l +:+ ", " +:+ join ", " (l2 :: ls)) +:+ " ")
      with ((pre +:+ l) +:+ String ","%char (" " +:+ join ", " (l2 :: ls) +:+ " ")).
    2:{ rewrite !app_assoc_s. reflexivity. }
    rewrite splitOn_app_sep by reflexivity.
    rewrite splitOn_plain by (rewrite allChars_app, Hco, Hcomma; reflexivity).
    cbn [app List.map]. rewrite (IH ltac:(discriminate) Hall " " eq_refl eq_refl).
    rewrite <- (app_Empty_r (pre +:+ l)), app_assoc_s.
    rewrite (trim_frame pre l EmptyString Htr Hsp eq_refl). reflexivity.
Qed.

Lemma allChars_join (P : ascii -> bool) (sep : string) (xs : list string) :
  allChars P sep = true ->
  Forall (fun x => allChars P x = true) xs ->
  allChars P (join sep xs) = true.
Proof.
  intros Hsep. induction xs as [|x xs IH]; [reflexivity|]. intros Hall.
  apply Forall_cons in Hall as [Hx Hall]. destruct xs as [|y xs]; [exact Hx|].
  rewrite join_cons by discriminate.
  rewrite !allChars_app, Hx, Hsep, (IH Hall). reflexivity.
Qed.

Lemma parse_rendered (specifiers : list string) (tail : string) :
  Forall cleanSpecifier specifiers ->
  parseImportSpecifiers ("import { " +:+ join ", " specifiers +:+ " } from " +:+ tail)
  = specifiers.
Proof.
  intros Hall. unfold parseImportSpecifiers.
  set (g := " " +:+ join ", " specifiers +:+ " ").
  assert (Htext : "import { " +:+ join ", " specifiers +:+ " } from " +:+ tail
                  = "import " +:+ String "{" (g +:+ String "}" (" from " +:+ tail))).
  { unfold g. rewrite !app_assoc_s. reflexivity. }
  assert (Hg : allChars (notChar "}"%char) g = true).
  { unfold g. rewrite !allChars_app. cbn [allChars andb].
    rewrite allChars_join; [reflexivity|reflexivity|].
    eapply Forall_impl; [exact Hall|]. intros s (_ & _ & _ & H). exact H. }
  rewrite Htext.
  change ("import " +:+ String "{" (g +:+ String "}" (" from " +:+ tail)))
    with (String "i" (String "m" (String "p" (String "o" (String "r" (String "t"
            (String " " (String "{" (g +:+ String "}" (" from " +:+ tail))))))))))%char.
  cbn [firstMatch]. rewrite !braceGroupAt_other by discriminate.
  rewrite (braceGroupAt_group _ _ Hg).
  assert (Htruthy : truthy g = true) by reflexivity. rewrite Htruthy.
  rewrite filter_nonempty_truthy.
  destruct specifiers as [|l ls]; [reflexivity|].
  unfold g. rewrite (split_rendered (l :: ls) ltac:(discriminate) Hall " " eq_refl eq_refl).
  unfold filterBoolean. apply forallb_filter_id. apply forallb_forall.
  intros s Hs. rewrite Forall_forall in Hall.
  destruct (Hall s (proj2 (list_elem_of_In _ _) Hs)) as (Hne & _).
  destruct s; [congruence|reflexivity].
Qed.

Lemma clean_createRootRoute : cleanSpecifier "createRootRoute".
Proof.
  split; [discriminate|]. split; [|split; reflexivity].
  split.
  - intros c r [= <- _]. reflexivity.
  - intros c [= <-]. reflexivity.
Qed.

(** X23: the import that the root normalization writes reads back, by
    parseImportSpecifiers, as the specifiers of the original list without
    createFileRoute, in their order, with createRootRoute in front unless
    it was among them. *)
Theorem X23_rewritten_import_specifiers (imports : string) (quote : ascii) :
  allChars (notChar "}"%char) imports = true ->
  let kept :=
    List.filter (fun part => negb (eqs part "createFileRoute"))
                (parseImportSpecifiers ("{" +:+ imports +:+ "}")) in
  parseImportSpecifiers (rewriteTanstackImport imports quote)
  = if existsb (eqs "createRootRoute") kept then kept
    else "createRootRoute" :: kept.
Proof.
  intros Hb kept. subst kept. rewrite (parse_braced _ Hb).
  unfold rewriteTanstackImport.
  set (kept := List.filter (fun part => negb (eqs part "createFileRoute"))
                 (filterBoolean (List.map trim (splitOn (Ascii.eqb ","%char) imports)))).
  assert (Hkept : Forall cleanSpecifier kept).
  { apply Forall_forall. intros s Hs. apply list_elem_of_In in Hs.
    apply filter_In in Hs as [Hs _].
    pose proof (parts_clean imports Hb) as Hall. rewrite Forall_forall in Hall.
    apply Hall. by apply list_elem_of_In. }
  apply parse_rendered.
  destruct (existsb (eqs "createRootRoute") kept); [exact Hkept|].
  constructor; [exact clean_createRootRoute|exact Hkept].
Qed.

Lemma X23_rewritten_import_specifiers_witness :
  parseImportSpecifiers (rewriteTanstackImport " createFileRoute, Outlet " quote1)
  = ["createRootRoute"; "Outlet"].
Proof.
  exact (X23_rewritten_import_specifiers " createFileRoute, Outlet " quote1 eq_refl).
Defined.


(** ** The pass and the check agree on the route path *)

Lemma normalizePath_no_backslash (s : string) :
  allChars (notChar backslash) (normalizePath s) = true.
Proof.
  induction s as [|c s IH]; [reflexivity|]. cbn [normalizePath allChars].
  rewrite IH, andb_true_r. unfold notChar.
  destruct (Ascii.eqb c backslash) eqn:E; [reflexivity|]. rewrite E. reflexivity.
Qed.

Lemma normalizePath_fixed (s : string) :
  allChars (notChar backslash) s = true -> normalizePath s = s.
Proof.
  induction s as [|c s IH]; [reflexivity|]. cbn [normalizePath allChars].
  intros [Hc Hs]%andb_true_iff. rewrite (IH Hs).
  apply negb_true_iff in Hc. rewrite Hc. reflexivity.
Qed.

Lemma splitOn_slash_isSep (s : string) :
  allChars (notChar backslash) s = true ->
  splitOn (Ascii.eqb slash) s = splitOn isSep s.
Proof.
  intros H. rewrite <- splitOn_normalize, (normalizePath_fixed s H). reflexivity.
Qed.

Lemma eqs_longer (p a : string) (c : ascii) : eqs p (String c (a +:+ p)) = false.
Proof.
  destruct (eqs p (String c (a +:+ p))) eqn:E; [|reflexivity].
  apply eqs_eq in E. apply (f_equal String.length) in E.
  simpl in E. rewrite length_app_s in E. lia.
Qed.

Lemma stripSuffix_app (p a : string) : stripSuffix p (a +:+ p) = Some a.
Proof.
  induction a as [|c a IH].
  - rewrite app_Empty_l. destruct p; cbn [stripSuffix]; rewrite eqs_refl; reflexivity.
  - rewrite app_String. cbn [stripSuffix]. rewrite eqs_longer, IH. reflexivity.
Qed.

Lemma stripOneTrailingSlash_app (y : string) : stripOneTrailingSlash (y +:+ "/") = y.
Proof. unfold stripOneTrailingSlash. rewrite stripSuffix_app. reflexivity. Qed.

Lemma endsWith_after_slash (c x b : string) :
  allChars (notChar slash) c = true ->
  endsWith c (x +:+ String slash b) = endsWith c b.
Proof.
  intros Hc.
  assert (Hne : forall y, eqs c (y +:+ String slash b) = false).
  { intros y. destruct (eqs c (y +:+ String slash b)) eqn:E; [|reflexivity].
    apply eqs_eq in E. rewrite E, allChars_app in Hc.
    apply andb_true_iff in Hc as [_ Hc]. simpl in Hc. discriminate. }
  induction x as [|d x IH].
  - pose proof (Hne EmptyString) as H0. rewrite app_Empty_l in H0 |- *.
    cbn [endsWith]. rewrite H0. reflexivity.
  - pose proof (Hne (String d x)) as H0. rewrite app_String in H0 |- *.
    cbn [endsWith]. rewrite H0. exact IH.
Qed.

Lemma stripSuffix_not_suffix (p s : string) :
  endsWith p s = false -> stripSuffix p s = None.
Proof.
  intros H. destruct (stripSuffix p s) as [r|] eqn:E; [|reflexivity].
  apply stripSuffix_Some in E.
  assert (endsWith p s = true); [|congruence].
  apply endsWith_iff. eauto.
Qed.

Lemma routeFileSuffixes_table :
  forallb (fun b =>
             allChars (notChar slash) b
             && negb (eqs b "api")
             && eqs (stripRouteFilename b) EmptyString
             && negb (isEmpty b)
             && forallb (fun c => implb (endsWith c b) (eqs c b)) routeFileSuffixes)
          routeFileSuffixes = true.
Proof. vm_compute. reflexivity. Qed.

Lemma routeFileSuffix_facts (base : string) :
  In base routeFileSuffixes ->
  allChars (notChar slash) base = true
  /\ base <> "api"
  /\ stripRouteFilename base = EmptyString
  /\ base <> EmptyString
  /\ forall c, In c routeFileSuffixes -> endsWith c base = true -> c = base.
Proof.
  intros Hin. pose proof routeFileSuffixes_table as H.
  rewrite forallb_forall in H. specialize (H base Hin).
  repeat (apply andb_true_iff in H as [H ?]).
  split; [assumption|]. split.
  { intros ->. discriminate. }
  split; [by apply eqs_eq|]. split.
  { intros ->. discriminate. }
  intros c Hc Hend. rewrite forallb_forall in H0. specialize (H0 c Hc).
  rewrite Hend in H0. by apply eqs_eq.
Qed.

Lemma stripAnySuffix_member (suffixes : list string) (x base : string) :
  (forall c, In c suffixes -> endsWith c (x +:+ base) = true -> c = base) ->
  In base suffixes ->
  stripAnySuffix suffixes (x +:+ base) = x.
Proof.
  induction suffixes as [|c suffixes IH]; intros Hu Hin; [destruct Hin|].
  cbn [stripAnySuffix].
  destruct (endsWith c (x +:+ base)) eqn:E.
  - rewrite (Hu c (or_introl eq_refl) E), stripSuffix_app. reflexivity.
  - rewrite (stripSuffix_not_suffix _ _ E). apply IH.
    + intros c' Hc'. apply Hu. right. exact Hc'.
    + destruct Hin as [->|Hin]; [|exact Hin].
      assert (endsWith base (x +:+ base) = true); [|congruence].
      apply endsWith_iff. eauto.
Qed.

(** The head of a text that starts with a segment and a separator is the
    first of its segments. *)
Lemma head_segment (p : string) :
  allChars (fun c => negb (isSep c)) p = true ->
  forall a s1 x s2 y,
    isSep s1 = true -> isSep s2 = true ->
    a +:+ String s1 x = p +:+ String s2 y ->
    exists t, splitOn isSep a = p :: t.
Proof.
  induction p as [|c p IH]; intros Hp a s1 x s2 y H1 H2 H.
  - rewrite app_Empty_l in H. destruct a as [|d a].
    + exists []. reflexivity.
    + rewrite app_String in H. injection H as -> _.
      exists (splitOn isSep a). simpl. rewrite H2. reflexivity.
  - simpl in Hp. apply andb_true_iff in Hp as [Hc Hp].
    apply negb_true_iff in Hc. rewrite app_String in H. destruct a as [|d a].
    + rewrite app_Empty_l in H. injection H as -> _. congruence.
    + rewrite app_String in H. injection H as -> H.
      destruct (IH Hp a s1 x s2 y H1 H2 H) as [t Ht].
      destruct (splitOn_cons isSep c a Hc) as (h & t' & Ha & ->).
      rewrite Ha in Ht. injection Ht as -> ->. eauto.
Qed.

Lemma firstMatch_skip {A} (m : string -> option A) (a rest : string) :
  (forall a1 c a2, a = a1 +:+ String c a2 -> m (String c a2 +:+ rest) = None) ->
  firstMatch m (a +:+ rest) = firstMatch m rest.
Proof.
  induction a as [|c a IH]; intros H; [reflexivity|].
  rewrite app_String. cbn [firstMatch]. rewrite <- app_String.
  rewrite (H EmptyString c a eq_refl). apply IH.
  intros a1 c' a2 ->. apply (H (String c a1) c' a2). reflexivity.
Qed.

Lemma firstMatch_here {A} (m : string -> option A) (s : string) (r : A) :
  m s = Some r -> firstMatch m s = Some r.
Proof. intros H. destruct s; cbn [firstMatch]; rewrite H; reflexivity. Qed.

Lemma afterAppDirAt_before (a rest : string) :
  ~ In "app" (splitOn isSep a) ->
  forall a1 c a2,
    a = a1 +:+ String c a2 ->
    afterAppDirAt (String c a2 +:+ String slash rest) = None.
Proof.
  intros Hno a1 c a2 ->. rewrite app_String. unfold afterAppDirAt.
  destruct (isSep c) eqn:Hc; [|reflexivity].
  destruct (stripPrefix "app" (a2 +:+ String slash rest)) as [r|] eqn:E;
    [|reflexivity].
  destruct r as [|c1 r1]; [reflexivity|].
  destruct (isSep c1) eqn:Hc1; [|reflexivity]. exfalso.
  apply stripPrefix_Some in E.
  destruct (head_segment "app" eq_refl a2 slash rest c1 r1 eq_refl Hc1 E) as [t Ht].
  apply Hno. rewrite (splitOn_app_sep isSep a1 c a2 Hc), Ht.
  apply in_or_app. right. left. reflexivity.
Qed.

Lemma lastChar_app_nonempty (a l : string) :
  l <> EmptyString -> lastChar (a +:+ l) = lastChar l.
Proof.
  intros Hl. induction a as [|c a IH]; [reflexivity|].
  rewrite app_String. cbn [lastChar].
  destruct (a +:+ l) eqn:E; [|exact IH].
  destruct a; [rewrite app_Empty_l in E; congruence|discriminate].
Qed.

Lemma lastChar_allChars (P : ascii -> bool) (s : string) (c : ascii) :
  allChars P s = true -> lastChar s = Some c -> P c = true.
Proof.
  induction s as [|d s IH]; [discriminate|]. simpl.
  intros [Hd Hs]%andb_true_iff. destruct s as [|e s].
  - intros [= <-]. exact Hd.
  - apply IH. exact Hs.
Qed.

Lemma no_trailing_slash (s : string) :
  (forall c, lastChar s = Some c -> c <> slash) ->
  stripOneTrailingSlash s = s.
Proof.
  intros H. unfold stripOneTrailingSlash.
  destruct (stripSuffix "/" s) as [r|] eqn:E; [|reflexivity]. exfalso.
  apply stripSuffix_Some in E. subst s.
  exact (H slash (lastChar_app_one r slash) eq_refl).
Qed.

Lemma join_plain_last (dirs : list string) :
  Forall plainSegment dirs ->
  forall c, lastChar (join "/" dirs) = Some c -> c <> slash.
Proof.
  intros Hall c. destruct dirs as [|d dirs] using rev_ind; [discriminate|].
  apply Forall_app in Hall as [_ Hd]. apply Forall_cons in Hd as [[Hne Hd] _].
  assert (Hlast : lastChar (join "/" (dirs ++ [d])) = lastChar d).
  { destruct dirs as [|d0 dirs]; [reflexivity|].
    rewrite join_snoc by discriminate.
    rewrite <- app_assoc_s. apply lastChar_app_nonempty. exact Hne. }
  rewrite Hlast. intros Hc ->.
  pose proof (lastChar_allChars _ _ _ Hd Hc) as H. discriminate.
Qed.

Lemma plain_no_slash (dirs : list string) :
  Forall plainSegment dirs ->
  Forall (fun l => allChars (fun x => negb (Ascii.eqb slash x)) l = true) dirs.
Proof.
  intros Hall. eapply Forall_impl; [exact Hall|].
  intros s [_ H]. eapply allChars_weaken; [|exact H].
  intros c Hc. apply andb_true_iff in Hc as [Hc _].
  apply negb_true_iff, orb_false_iff in Hc as [Hc _].
  rewrite Ascii.eqb_sym, Hc. reflexivity.
Qed.

Lemma plain_truthy (dirs : list string) :
  Forall plainSegment dirs -> filterBoolean dirs = dirs.
Proof.
  intros H. unfold filterBoolean. apply forallb_filter_id, forallb_forall.
  intros s Hs. rewrite Forall_forall in H.
  destruct (H s (proj2 (list_elem_of_In _ _) Hs)) as [Hne _].
  destruct s; [congruence|reflexivity].
Qed.

Lemma findSubPathFrom_app (pre rest : list string) (i : nat) :
  ~ In "app" pre ->
  findSubPathFrom ["app"] (pre ++ "app" :: rest) i = Some (i + length pre).
Proof.
  revert i. induction pre as [|x pre IH]; intros i Hno.
  - simpl. destruct rest; simpl; f_equal; lia.
  - cbn [app findSubPathFrom isPrefixOf].
    assert (E : eqs x "app" = false).
    { apply eqs_neq. intros ->. apply Hno. left. reflexivity. }
    rewrite E. cbn [andb]. rewrite IH by (intros H; apply Hno; right; exact H).
    f_equal. simpl. lia.
Qed.






(** ** One trailing slash is removed, not all *)

Lemma rewriteSegmentSyntax_literal (s : string) :
  allChars (notChar "("%char) s = true ->
  allChars (notChar "["%char) s = true ->
  rewriteSegmentSyntax s = s.
Proof.
  intros Hp Hb. unfold rewriteSegmentSyntax, gsub.
  assert (G1 : forall fuel, gsubFuel groupAt fuel s = s).
  { intros fuel. apply (gsubFuel_id groupAt "("%char); [|exact Hp].
    intros c r Hcr. unfold groupAt.
    rewrite (matchRun_needs_first "("%char EmptyString _ _ c r Hcr). reflexivity. }
  rewrite G1.
  assert (G2 : forall fuel, gsubFuel optionalCatchAllAt fuel s = s).
  { intros fuel. apply (gsubFuel_id optionalCatchAllAt "["%char); [|exact Hb].
    intros c r Hcr. unfold optionalCatchAllAt.
    rewrite (matchRun_needs_first "["%char "[..." _ _ c r Hcr). reflexivity. }
  rewrite G2.
  assert (G3 : forall fuel, gsubFuel catchAllAt fuel s = s).
  { intros fuel. apply (gsubFuel_id catchAllAt "["%char); [|exact Hb].
    intros c r Hcr. unfold catchAllAt.
    rewrite (matchRun_needs_first "["%char "..." _ _ c r Hcr). reflexivity. }
  rewrite G3.
  apply (gsubFuel_id dynamicAt "["%char); [|exact Hb].
  intros c r Hcr. unfold dynamicAt.
  rewrite (matchRun_needs_first "["%char EmptyString _ _ c r Hcr). reflexivity.
Qed.

Lemma literal_plain (dirs : list string) :
  Forall literalSegment dirs -> Forall plainSegment dirs.
Proof. intros H. eapply Forall_impl; [exact H|]. intros s [Hs _]. exact Hs. Qed.

Lemma literal_path (dirs : list string) :
  dirs <> [] -> Forall literalSegment dirs ->
  (exists c r, join "/" dirs = String c r /\ c <> slash)
  /\ allChars (notChar backslash) (join "/" dirs) = true
  /\ allChars (fun c => negb (isLineTerminator c)) (join "/" dirs) = true
  /\ allChars (notChar "("%char) (join "/" dirs) = true
  /\ allChars (notChar "["%char) (join "/" dirs) = true.
Proof.
  intros Hne Hall. split; [|repeat split].
  - destruct dirs as [|d0 dirs]; [congruence|].
    apply Forall_cons in Hall as [[[Hd0 Hplain] _] _].
    destruct d0 as [|c r]; [congruence|].
    cbn [allChars] in Hplain. apply andb_true_iff in Hplain as [Hc _].
    apply andb_true_iff in Hc as [Hc _].
    assert (c <> slash) by (intros ->; discriminate).
    destruct dirs as [|d1 dirs]; [exists c, r; auto|].
    rewrite join_cons by discriminate. rewrite app_String. eauto.
  - apply allChars_join; [reflexivity|]. eapply Forall_impl; [exact Hall|].
    intros s [[_ H] _]. eapply allChars_weaken; [|exact H].
    intros c Hc. apply andb_true_iff in Hc as [Hc _].
    unfold isSep in Hc. apply negb_true_iff, orb_false_iff in Hc as [_ Hc].
    unfold notChar. rewrite Hc. reflexivity.
  - apply allChars_join; [reflexivity|]. eapply Forall_impl; [exact Hall|].
    intros s [[_ H] _]. eapply allChars_weaken; [|exact H].
    intros c Hc. apply andb_true_iff in Hc as [_ Hc]. exact Hc.
  - apply allChars_join; [reflexivity|]. eapply Forall_impl; [exact Hall|].
    intros s [_ H]. eapply allChars_weaken; [|exact H].
    intros c Hc. unfold isNameChar in Hc.
    apply andb_true_iff in Hc as [Hc _]. apply andb_true_iff in Hc as [Hc _]. exact Hc.
  - apply allChars_join; [reflexivity|]. eapply Forall_impl; [exact Hall|].
    intros s [_ H]. eapply allChars_weaken; [|exact H].
    intros c Hc. unfold isNameChar in Hc.
    apply andb_true_iff in Hc as [Hc _]. apply andb_true_iff in Hc as [_ Hc]. exact Hc.
Qed.

Lemma closeRoutePath_doubled (c : ascii) (r : string) :
  c <> slash ->
  closeRoutePath (String c r +:+ "//") = "/" +:+ String c r +:+ "/".
Proof.
  intros Hc. unfold closeRoutePath. rewrite app_String.
  assert (Hs : startsWith "/" (String c (r +:+ "//")) = false).
  { unfold startsWith. cbn [stripPrefix].
    destruct (Ascii.eqb_spec "/"%char c) as [E|_]; [|reflexivity].
    exfalso. apply Hc. symmetry. exact E. }
  rewrite Hs. cbv zeta.
  replace ("/" +:+ String c (r +:+ "//")) with (("/" +:+ String c r +:+ "/") +:+ "/").
  2:{ change (String "/" (String c ((r +:+ "/") +:+ "/"))
              = String "/" (String c (r +:+ "//"))).
      rewrite app_assoc_s. reflexivity. }
  rewrite stripOneTrailingSlash_app. reflexivity.
Qed.

Lemma not_normalized_trailing_slash (c : ascii) (r : string) :
  ~ normalizedRoutePath ("/" +:+ String c r +:+ "/").
Proof.
  intros [_ [H|H]].
  - change ("/" +:+ String c r +:+ "/") with (String "/" (String c (r +:+ "/"))) in H.
    discriminate.
  - assert (E : endsWith "/" ("/" +:+ String c r +:+ "/") = true).
    { apply endsWith_iff. exists ("/" +:+ String c r).
      rewrite app_assoc_s. reflexivity. }
    congruence.
Qed.

Lemma calculateRoutePath_doubled (p : string) :
  (exists c r, p = String c r /\ c <> slash) ->
  allChars (notChar backslash) p = true ->
  allChars (notChar "("%char) p = true ->
  allChars (notChar "["%char) p = true ->
  calculateRoutePath ("app/" +:+ p +:+ "//route.ts") = "/" +:+ p +:+ "/".
Proof.
  intros (c & r & Hp & Hc) Hback Hparen Hbracket.
  unfold calculateRoutePath, calculateRoutePathBody. cbv zeta.
  rewrite normalizePath_fixed
    by (rewrite !allChars_app, Hback; reflexivity).
  change ("app/" +:+ p +:+ "//route.ts")
    with (String "a" (String "p" (String "p" (String "/" (p +:+ "//route.ts")))))%char.
  change (stripDrivePrefix
            (String "a" (String "p" (String "p" (String "/" (p +:+ "//route.ts")))))%char)
    with (String "a" (String "p" (String "p" (String "/" (p +:+ "//route.ts")))))%char.
  change (afterAppMarker
            (String "a" (String "p" (String "p" (String "/" (p +:+ "//route.ts")))))%char)
    with (Some (p +:+ "//route.ts")).
  cbv iota beta.
  replace (p +:+ "//route.ts") with ((p +:+ "//") +:+ "route.ts")
    by (rewrite app_assoc_s; reflexivity).
  unfold apiRouteSuffixes. cbn [stripAnySuffix]. rewrite stripSuffix_app.
  rewrite rewriteSegmentSyntax_literal
    by (rewrite allChars_app; first [rewrite Hparen|rewrite Hbracket]; reflexivity).
  rewrite Hp. apply closeRoutePath_doubled. exact Hc.
Qed.

Lemma calculateTanstackRoute_tripled
      (filename a p base : string) :
  normalizePath filename = a +:+ "/app/" +:+ p +:+ "///" +:+ base ->
  ~ In "app" (splitOn isSep a) ->
  allChars (fun c => negb (isLineTerminator c)) a = true ->
  In base routeFileSuffixes ->
  (exists c r, p = String c r /\ c <> slash) ->
  allChars (fun c => negb (isLineTerminator c)) p = true ->
  allChars (notChar "("%char) p = true ->
  allChars (notChar "["%char) p = true ->
  calculateTanstackRoute filename = "/" +:+ p +:+ "/".
Proof.
  intros Hnorm Hno Hlines Hbase (c & r & Hp & Hc) Hplines Hparen Hbracket.
  destruct (routeFileSuffix_facts base Hbase) as (_ & _ & _ & _ & Hbuniq).
  unfold calculateTanstackRoute, calculateTanstackRouteBody. cbv zeta.
  rewrite Hnorm.
  replace (a +:+ "/app/" +:+ p +:+ "///" +:+ base)
    with ((a +:+ "/app/" +:+ p +:+ "///") +:+ base)
    by (rewrite !app_assoc_s; reflexivity).
  rewrite stripAnySuffix_member; [| |exact Hbase].
  2:{ intros s Hs Hend. apply Hbuniq; [exact Hs|].
      destruct (routeFileSuffix_facts s Hs) as (Hss & _).
      replace ((a +:+ "/app/" +:+ p +:+ "///") +:+ base)
        with ((a +:+ "/app/" +:+ p +:+ "//") +:+ String slash base) in Hend
        by (rewrite !app_assoc_s; reflexivity).
      rewrite endsWith_after_slash in Hend by exact Hss. exact Hend. }
  replace (a +:+ "/app/" +:+ p +:+ "///") with ((a +:+ "/app/" +:+ p +:+ "//") +:+ "/")
    by (rewrite !app_assoc_s; reflexivity).
  rewrite stripOneTrailingSlash_app.
  change (a +:+ "/app/" +:+ p +:+ "//")
    with (a +:+ String slash ("app/" +:+ p +:+ "//")).
  rewrite (firstMatch_skip afterAppDirAt a (String slash ("app/" +:+ p +:+ "//")))
    by (apply afterAppDirAt_before; exact Hno).
  rewrite (firstMatch_here afterAppDirAt _ (p +:+ "//")).
  - rewrite rewriteSegmentSyntax_literal
      by (rewrite allChars_app; first [rewrite Hparen|rewrite Hbracket]; reflexivity).
    rewrite Hp. apply closeRoutePath_doubled. exact Hc.
  - unfold afterAppDirAt. cbn [isSep stripPrefix].
    change (isSep slash) with true. cbv iota.
    change ("app/" +:+ p +:+ "//")
      with (String "a" (String "p" (String "p" (String slash (p +:+ "//")))))%char.
    cbn [stripPrefix]. rewrite !Ascii.eqb_refl.
    change (isSep slash) with true. cbv iota.
    rewrite (span_all (fun c => negb (isLineTerminator c)) (p +:+ "//"))
      by (rewrite allChars_app, Hplines; reflexivity).
    rewrite Hp, app_String. reflexivity.
Qed.

Lemma expected_tripled
      (filename : string) (runtimeConfig : ResolvedRuntimeConfig)
      (a : string) (dirs : list string) (base : string) :
  normalizeDirSegments (appDirectory runtimeConfig) = ["app"] ->
  normalizePath filename = a +:+ "/app/" +:+ join "/" dirs +:+ "///" +:+ base ->
  ~ In "app" (splitOn isSep a) ->
  dirs <> [] -> Forall literalSegment dirs ->
  match dirs with first :: _ => first <> "api" | [] => True end ->
  In base routeFileSuffixes ->
  computeExpectedRoutePathFromSourcePath filename runtimeConfig
  = Some ("/" +:+ join "/" dirs).
Proof.
  intros Happ Hnorm Hno Hne Hlit Hapi Hbase.
  pose proof (literal_plain dirs Hlit) as Hdirs.
  destruct (literal_path dirs Hne Hlit)
    as ((c & r & Hp & Hc) & _ & _ & Hparen & Hbracket).
  destruct (routeFileSuffix_facts base Hbase)
    as (Hbslash & Hbapi & Hbstrip & Hbne & _).
  unfold computeExpectedRoutePathFromSourcePath, expectedRelativeSegments.
  cbv zeta. rewrite Hnorm, Happ.
  assert (Haback : allChars (notChar backslash) a = true).
  { pose proof (normalizePath_no_backslash filename) as H.
    rewrite Hnorm, allChars_app in H. apply andb_true_iff in H as [H _]. exact H. }
  assert (Hsegs : filterBoolean
                    (splitOn (Ascii.eqb slash)
                       (a +:+ "/app/" +:+ join "/" dirs +:+ "///" +:+ base))
                  = filterBoolean (splitOn isSep a) ++ "app" :: dirs ++ [base]).
  { change (a +:+ "/app/" +:+ join "/" dirs +:+ "///" +:+ base)
      with (a +:+ String slash
              ("app" +:+ String slash
                 (join (String slash EmptyString) dirs
                  +:+ String slash (String slash (String slash base))))).
    rewrite !splitOn_app_sep by reflexivity.
    rewrite (splitOn_slash_isSep a Haback).
    rewrite splitOn_join; [|exact Hne|apply plain_no_slash; exact Hdirs].
    cbn [splitOn]. rewrite Ascii.eqb_refl.
    rewrite (splitOn_plain (Ascii.eqb slash) base).
    2:{ eapply allChars_weaken; [|exact Hbslash].
        intros x Hx. unfold notChar in Hx. rewrite Ascii.eqb_sym. exact Hx. }
    unfold filterBoolean. rewrite !List.filter_app.
    fold (filterBoolean dirs). rewrite (plain_truthy dirs Hdirs).
    simpl. destruct base; [congruence|reflexivity]. }
  rewrite Hsegs.
  assert (Hidx : findSubPathIndex
                   (filterBoolean (splitOn isSep a) ++ "app" :: dirs ++ [base]) ["app"]
                 = Some (length (filterBoolean (splitOn isSep a)))).
  { unfold findSubPathIndex. cbn [length Nat.eqb orb].
    assert ((length (filterBoolean (splitOn isSep a) ++ "app" :: dirs ++ [base]) <? 1)
            = false) as ->.
    { apply Nat.ltb_ge. rewrite length_app. simpl. lia. }
    rewrite findSubPathFrom_app; [reflexivity|].
    intros H. apply Hno. apply filter_In in H as [H _]. exact H. }
  rewrite Hidx.
  assert (Hrel : skipn (length (filterBoolean (splitOn isSep a)) + length ["app"])
                   (filterBoolean (splitOn isSep a) ++ "app" :: dirs ++ [base])
                 = dirs ++ [base]).
  { rewrite skipn_app, skipn_all2 by (simpl; lia).
    replace (length (filterBoolean (splitOn isSep a)) + length ["app"]
             - length (filterBoolean (splitOn isSep a))) with 1 by (simpl; lia).
    reflexivity. }
  rewrite Hrel.
  assert (Hfirst : match dirs ++ [base] with
                   | [] => None
                   | first :: _ =>
                       if eqs first "api" then None else Some (dirs ++ [base])
                   end = Some (dirs ++ [base])).
  { destruct dirs as [|d0 dirs']; [congruence|]. cbn [app].
    rewrite (proj2 (eqs_neq d0 "api") Hapi). reflexivity. }
  rewrite Hfirst. f_equal.
  unfold expectedRoutePathBody. cbv zeta.
  rewrite removelast_last, last_last, Hbstrip.
  unfold filterBoolean. rewrite List.filter_app. fold (filterBoolean dirs).
  rewrite (plain_truthy dirs Hdirs). cbn [List.filter truthy isEmpty negb].
  rewrite app_nil_r.
  rewrite (no_trailing_slash (join "/" dirs))
    by (apply join_plain_last; exact Hdirs).
  rewrite rewriteSegmentSyntax_literal by assumption.
  rewrite Hp. unfold closeRoutePath.
  assert (Hs : startsWith "/" (String c r) = false).
  { unfold startsWith. cbn [stripPrefix].
    destruct (Ascii.eqb_spec "/"%char c) as [E|_]; [|reflexivity].
    exfalso. apply Hc. symmetry. exact E. }
  rewrite Hs. cbv zeta.
  rewrite no_trailing_slash; [reflexivity|].
  intros x Hx. rewrite lastChar_app_nonempty in Hx by discriminate.
  rewrite <- Hp in Hx.
  exact (join_plain_last dirs Hdirs x Hx).
Qed.

(** C10: each of the three route-path functions returns a path that
    starts with a slash, but the closing statement removes one trailing
    slash only.  So the route path of an API route under doubled
    separators, and of a page under tripled separators, ends with a slash
    without being the root path; the driver, which drops empty segments,
    expects the path without that slash for the same page, and itself
    returns a path with a trailing slash when brackets span a separator. *)
Theorem C10_one_trailing_slash_removed :
  calculateRoutePath "app/api/users//route.ts" = "/api/users/"
  /\ calculateTanstackRoute "/proj/app/blog///page.tsx" = "/blog/"
  /\ computeExpectedRoutePathFromSourcePath "/proj/app/blog///page.tsx" defaultConfig
     = Some "/blog"
  /\ computeExpectedRoutePathFromSourcePath "app/[(a/)/]/page.tsx" defaultConfig
     = Some "/$_a/"
  /\ (forall dirs : list string,
        dirs <> [] -> Forall literalSegment dirs ->
        let p := join "/" dirs in
        ~ normalizedRoutePath ("/" +:+ p +:+ "/")
        /\ calculateRoutePath ("app/" +:+ p +:+ "//route.ts") = "/" +:+ p +:+ "/"
        /\ forall (filename a base : string) (runtimeConfig : ResolvedRuntimeConfig),
             normalizePath filename = a +:+ "/app/" +:+ p +:+ "///" +:+ base ->
             ~ In "app" (splitOn isSep a) ->
             allChars (fun c => negb (isLineTerminator c)) a = true ->
             In base routeFileSuffixes ->
             calculateTanstackRoute filename = "/" +:+ p +:+ "/"
             /\ (normalizeDirSegments (appDirectory runtimeConfig) = ["app"] ->
                 match dirs with first :: _ => first <> "api" | [] => True end ->
                 computeExpectedRoutePathFromSourcePath filename runtimeConfig
                 = Some ("/" +:+ p)))
  /\ (forall (filename : string) (runtimeConfig : ResolvedRuntimeConfig),
        startsWith "/" (calculateRoutePath filename) = true
        /\ startsWith "/" (calculateTanstackRoute filename) = true
        /\ forall r, computeExpectedRoutePathFromSourcePath filename runtimeConfig
                     = Some r ->
                     startsWith "/" r = true).
Proof.
  split; [vm_compute; reflexivity|]. split; [vm_compute; reflexivity|].
  split; [vm_compute; reflexivity|]. split; [vm_compute; reflexivity|].
  split.
  - intros dirs Hne Hlit p.
    destruct (literal_path dirs Hne Hlit)
      as (Hhead & Hback & Hlines & Hparen & Hbracket).
    fold p in Hhead, Hback, Hlines, Hparen, Hbracket.
    split; [|split].
    + destruct Hhead as (c & r & -> & _). apply not_normalized_trailing_slash.
    + apply calculateRoutePath_doubled; assumption.
    + intros filename a base runtimeConfig Hnorm Hno Halines Hbase. split.
      * apply (calculateTanstackRoute_tripled filename a p base); assumption.
      * intros Happ Hapi.
        apply (expected_tripled filename runtimeConfig a dirs base); assumption.
  - intros filename runtimeConfig. split; [|split].
    + apply closeRoutePath_shape.
    + apply closeRoutePath_shape.
    + intros r. unfold computeExpectedRoutePathFromSourcePath.
      destruct (expectedRelativeSegments filename runtimeConfig) as [rel|];
        [|discriminate].
      intros [= <-]. apply closeRoutePath_shape.
Qed.


(** ** What a null result of the transform means *)

Section RelocatingTransform.

Context {Root Edit : Type}.
Variable filenameOf : Root -> string.
Variable commitEdits : Root -> list Edit -> string.
Variable runPass : string -> Root -> string + option (list Edit).
Variable JSON_parse : string -> option jsval.

Lemma commitAndRelocate_null (root : Root) (runtimeConfig : ResolvedRuntimeConfig)
      (results : list (option (list Edit))) (w1 w' : World) :
  commitAndRelocate filenameOf commitEdits root runtimeConfig results w1
  = (inr None, w') ->
  exists target,
    "route-file-structure" ∈ enabledMigrations runtimeConfig
    /\ computeTanstackTargetPath (filenameOf root) runtimeConfig = Some target
    /\ isDryRun w1 = false
    /\ let output :=
         if isRootRouteTarget target
         then normalizeRootRouteSource (commitEdits root (collectEdits results))
         else commitEdits root (collectEdits results) in
       assertCreateFileRoutePathMatch (filenameOf root) target output runtimeConfig
       = inr tt
       /\ writeMovedFileAndDeleteOriginal (filenameOf root) target output
            (appDirectory runtimeConfig) w1 = (inr tt, w').
Proof.
  unfold commitAndRelocate. rewrite bind_getWorld.
  destruct (bool_decide ("route-file-structure" ∈ enabledMigrations runtimeConfig))
    eqn:Hen; [|discriminate].
  apply bool_decide_eq_true in Hen.
  destruct (computeTanstackTargetPath (filenameOf root) runtimeConfig)
    as [target|] eqn:Htarget; [|discriminate].
  destruct (isDryRun w1) eqn:Hdry; [discriminate|]. cbn [negb].
  set (output := if isRootRouteTarget target then _ else _).
  destruct (assertCreateFileRoutePathMatch (filenameOf root) target output
              runtimeConfig) as [e|[]] eqn:Hassert; [discriminate|].
  unfold bind.
  destruct (writeMovedFileAndDeleteOriginal (filenameOf root) target output
              (appDirectory runtimeConfig) w1) as [[e|[]] w2] eqn:Hmove;
    [discriminate|].
  intros [= <-]. exists target. auto.
Qed.

Lemma transform_null (root : Root) (options : jsval) (w w' : World) :
  transform filenameOf commitEdits runPass JSON_parse root options w
  = (inr None, w') ->
  exists runtimeConfig w1 results target,
    resolveRuntimeConfig JSON_parse (filenameOf root) options w
    = (inr runtimeConfig, w1)
    /\ promiseAll (enabledTasks runPass (enabledMigrations runtimeConfig) root)
       = inr results
    /\ "route-file-structure" ∈ enabledMigrations runtimeConfig
    /\ computeTanstackTargetPath (filenameOf root) runtimeConfig = Some target
    /\ isDryRun w = false
    /\ let output :=
         if isRootRouteTarget target
         then normalizeRootRouteSource (commitEdits root (collectEdits results))
         else commitEdits root (collectEdits results) in
       assertCreateFileRoutePathMatch (filenameOf root) target output runtimeConfig
       = inr tt
       /\ (resolvePath (w_fs w) (filenameOf root) <> resolvePath (w_fs w) target ->
           fs_files (w_fs w') !! resolvePath (w_fs w) target = Some output).
Proof.
  unfold transform, bind at 1.
  pose proof (resolveRuntimeConfig_cached JSON_parse (filenameOf root) options w)
    as [Hs _].
  destruct (resolveRuntimeConfig JSON_parse (filenameOf root) options w)
    as [[e|runtimeConfig] w1] eqn:Hcfg; [discriminate|]. cbn [snd] in Hs.
  destruct (promiseAll (enabledTasks runPass (enabledMigrations runtimeConfig) root))
    as [e|results] eqn:Hall; [discriminate|].
  intros H. apply commitAndRelocate_null in H
    as (target & Hen & Htarget & Hdry & Hassert & Hmove).
  exists runtimeConfig, w1, results, target.
  split; [reflexivity|]. split; [exact Hall|]. split; [exact Hen|].
  split; [exact Htarget|]. split; [rewrite <- (isDryRun_ext _ _ Hs); exact Hdry|].
  split; [exact Hassert|].
  destruct Hs as (Hfs & _). rewrite <- Hfs.
  destruct (writeMoved_effect _ _ _ _ _ _ _ Hmove) as (_ & Hpost & _).
  apply computeTanstackTargetPath_Some in Htarget.
  cbv zeta in Htarget.
  destruct Htarget as (? & ? & ? & _ & _ & _ & _ & _ & _ & _ & _ & Hne).
  intros Hdiff. apply (Hpost eq_refl); [|exact Hdiff].
  intros E. apply Hne. symmetry. exact E.
Qed.

End RelocatingTransform.

(** X25: the transform returns null only after a relocation: the
    configuration was resolved, every enabled pass succeeded, the
    file-structure pass is enabled, the file has a target, the run is no
    dry run, the invariant check accepted the output text, and the target
    (a file other than the source) holds that text. *)
Theorem X25_transform_null_means_relocated
        {Root Edit : Type} (filenameOf : Root -> string)
        (commitEdits : Root -> list Edit -> string)
        (runPass : string -> Root -> string + option (list Edit))
        (JSON_parse : string -> option jsval)
        (root : Root) (options : jsval) (w w' : World) :
  transform filenameOf commitEdits runPass JSON_parse root options w
  = (inr None, w') ->
  exists runtimeConfig w1 results target,
    resolveRuntimeConfig JSON_parse (filenameOf root) options w
    = (inr runtimeConfig, w1)
    /\ promiseAll (enabledTasks runPass (enabledMigrations runtimeConfig) root)
       = inr results
    /\ "route-file-structure" ∈ enabledMigrations runtimeConfig
    /\ computeTanstackTargetPath (filenameOf root) runtimeConfig = Some target
    /\ isDryRun w = false
    /\ let output :=
         if isRootRouteTarget target
         then normalizeRootRouteSource (commitEdits root (collectEdits results))
         else commitEdits root (collectEdits results) in
       assertCreateFileRoutePathMatch (filenameOf root) target output runtimeConfig
       = inr tt
       /\ (resolvePath (w_fs w) (filenameOf root) <> resolvePath (w_fs w) target ->
           fs_files (w_fs w') !! resolvePath (w_fs w) target = Some output).
Proof. apply transform_null. Qed.

Lemma X25_transform_null_means_relocated_witness :
  let w := worldOf [] ∅ aboutPageFS in
  let run := transform (fun r : string => r) (fun _ (_ : list unit) => aboutRouteText)
               noPass rejectJson "app/about/page.tsx" JUndefined in
  exists target,
    computeTanstackTargetPath "app/about/page.tsx" defaultConfig = Some target
    /\ fs_files (w_fs (snd (run w))) !! resolvePath (w_fs w) target
       = Some aboutRouteText.
Proof.
  intros w run.
  assert (Hrun : run w = (inr None, snd (run w))) by (vm_compute; reflexivity).
  destruct (X25_transform_null_means_relocated _ _ _ _ _ _ _ _ Hrun)
    as (runtimeConfig & w1 & results & target & Hcfg & _ & _ & Htarget & _ & _ & Hfile).
  assert (Hconfig : runtimeConfig = defaultConfig).
  { assert (H : fst (resolveRuntimeConfig rejectJson "app/about/page.tsx" JUndefined w)
                = inr defaultConfig) by (vm_compute; reflexivity).
    cbv beta in Hcfg. rewrite Hcfg in H. injection H as H. exact H. }
  subst runtimeConfig. exists target. split; [exact Htarget|].
  assert (Ht : target = "routes/about/index.tsx").
  { cbv beta in Htarget.
    assert (H : computeTanstackTargetPath "app/about/page.tsx" defaultConfig
                = Some "routes/about/index.tsx") by (vm_compute; reflexivity).
    rewrite H in Htarget. injection Htarget as <-. reflexivity. }
  subst target. apply Hfile. vm_compute. discriminate.
Defined.


(** ** The separator style of the target *)

Lemma includes_app (p a b : string) : includes p (a +:+ p +:+ b) = true.
Proof.
  induction a as [|c a IH].
  - rewrite app_Empty_l. destruct (p +:+ b) eqn:E; cbn [includes]; unfold startsWith.
    + destruct p; [reflexivity|discriminate].
    + rewrite <- E, stripPrefix_app. reflexivity.
  - rewrite app_String. cbn [includes]. rewrite IH. apply orb_true_r.
Qed.

(** X26: the target is written in one separator style: with backslashes
    only when the source path holds a backslash, with slashes only
    otherwise. *)
Theorem X26_target_separator_style
        (filename : string) (runtimeConfig : ResolvedRuntimeConfig)
        (target : string) :
  computeTanstackTargetPath filename runtimeConfig = Some target ->
  if includes "\" filename
  then includes "\" target = true /\ allChars (notChar slash) target = true
  else allChars (notChar backslash) target = true.
Proof.
  intros H. apply computeTanstackTargetPath_Some in H. cbv zeta in H.
  destruct H as (appIndex & mapped & dirs & _ & _ & _ & _ & Hmap & Hdirs & Hplain & -> & _).
  pose proof (mapped_no_slash _ _ _ (last_segment_plain isSep filename) Hmap)
    as Hmapped.
  assert (Hall : Forall (fun s => allChars (fun c => negb (isSep c)) s = true)
                        (dirs ++ [mapped])).
  { apply Forall_app. split; [exact Hplain|]. constructor; [exact Hmapped|constructor]. }
  destruct (includes "\" filename).
  - split.
    + rewrite (join_snoc _ dirs _ Hdirs). apply includes_app.
    + apply allChars_join; [reflexivity|].
      eapply Forall_impl; [exact Hall|]. intros s Hs.
      eapply allChars_weaken; [|exact Hs]. intros c Hc.
      apply negb_true_iff, orb_false_iff in Hc as [Hc _].
      unfold notChar. rewrite Hc. reflexivity.
  - apply allChars_join; [reflexivity|].
    eapply Forall_impl; [exact Hall|]. intros s Hs.
    eapply allChars_weaken; [|exact Hs]. intros c Hc.
    apply negb_true_iff, orb_false_iff in Hc as [_ Hc].
    unfold notChar. rewrite Hc. reflexivity.
Qed.

Lemma X26_target_separator_style_witness :
  includes "\" "C:\proj\app\about\page.tsx" = true
  /\ includes "\" "C:\proj\routes\about\index.tsx" = true
  /\ allChars (notChar slash) "C:\proj\routes\about\index.tsx" = true.
Proof.
  split; [reflexivity|].
  apply (X26_target_separator_style "C:\proj\app\about\page.tsx" defaultConfig).
  vm_compute. reflexivity.
Defined.


(** ** The routes directory of the build-tool configuration *)

Lemma viteRoutesDirectoryAt_Some (t g : string) :
  viteRoutesDirectoryAt t = Some g ->
  stripPrefix "routesDirectory" t <> None
  /\ allChars (fun c => negb (isQuote c)) g = true.
Proof.
  unfold viteRoutesDirectoryAt.
  destruct (stripPrefix "routesDirectory" t) as [r0|]; [|discriminate].
  destruct (stripPrefix ":" (dropWhile isSpace r0)) as [r1|]; [|discriminate].
  destruct (dropWhile isSpace r1) as [|q r2]; [discriminate|].
  destruct (isQuote q); [|discriminate].
  pose proof (span_fst_all (fun c => negb (isQuote c)) r2) as Hall.
  destruct (span (fun c => negb (isQuote c)) r2) as [run r3]. simpl in Hall.
  destruct (isEmpty run || isEmpty r3); [discriminate|].
  intros [= <-]. split; [discriminate|exact Hall].
Qed.

(** X27: the routes directory scanned out of a build-tool configuration is
    a non-empty text without white space at either end and without quote,
    and the configuration holds the word routesDirectory. *)
Theorem X27_vite_routes_directory_clean (source v : string) :
  parseRoutesDirectoryFromViteConfig source = Some v ->
  v <> EmptyString /\ trim v = v
  /\ allChars (fun c => negb (isQuote c)) v = true
  /\ includes "routesDirectory" source = true.
Proof.
  unfold parseRoutesDirectoryFromViteConfig.
  destruct (firstMatch viteRoutesDirectoryAt source) as [g|] eqn:Hm; [|discriminate].
  destruct (truthy (trim g)) eqn:Ht; [|discriminate]. intros [= <-].
  apply firstMatch_Some in Hm as (pre & t & -> & Hg).
  apply viteRoutesDirectoryAt_Some in Hg as [Hword Hquote].
  split; [|split; [|split]].
  - intros E. rewrite E in Ht. discriminate.
  - apply trim_fixed, trim_trimmed.
  - apply allChars_trim. exact Hquote.
  - destruct (stripPrefix "routesDirectory" t) as [r|] eqn:E; [|congruence].
    apply stripPrefix_Some in E. rewrite E. apply includes_app.
Qed.

Lemma X27_vite_routes_directory_clean_witness :
  "src/routes" <> EmptyString /\ trim "src/routes" = "src/routes"
  /\ allChars (fun c => negb (isQuote c)) "src/routes" = true
  /\ includes "routesDirectory"
       "tanstackStart({ router: { routesDirectory: ' src/routes ' } })" = true.
Proof.
  apply (X27_vite_routes_directory_clean
           "tanstackStart({ router: { routesDirectory: ' src/routes ' } })").
  vm_compute. reflexivity.
Defined.

